(** * libttree: a shallow embedding of the T*-tree of [ttree.c] / [ttree.h]

    The C code works on a graph of heap nodes linked by parent, child and
    successor pointers.  The embedding keeps that shape: a memory is a finite
    map from addresses to node records, every C statement that dereferences a
    pointer becomes a lookup in that map, and every function that can hit
    undefined behaviour (null dereference, store outside the key array,
    a walk that never ends) returns [option]. *)

From stdpp Require Import prelude gmap.

Open Scope Z_scope.

(** ** Constants of [ttree_defs.h] and [ttree.h] *)

Definition TTREE_DEFAULT_NUMKEYS : Z := 8.
Definition TNODE_ITEMS_MIN : Z := 2.
Definition TNODE_ITEMS_MAX : Z := 4096.

Definition TCSR_END : Z := -1.
Definition TCSR_OK : Z := 0.

Definition TNODE_UNDEF : Z := -1.
Definition TNODE_LEFT : Z := 0.
Definition TNODE_RIGHT : Z := 1.
Definition TNODE_ROOT : Z := TNODE_UNDEF.
Definition TNODE_BOUND : Z := TNODE_UNDEF.

Definition EINVAL : Z := 22.

Inductive tnode_seek := TNODE_SEEK_START | TNODE_SEEK_END.

Inductive ttree_cursor_state := CURSOR_CLOSED | CURSOR_OPENED | CURSOR_PENDING.

#[global] Instance ttree_cursor_state_eq_dec : EqDecision ttree_cursor_state.
Proof. solve_decision. Defined.

(** ** Pointers and bit-fields

    Addresses are integers and [NULL] is 0.  Key pointers and item pointers
    are opaque addresses as well; the only arithmetic on them is the
    key-offset translation, done in [Z] (the C code never leaves the item). *)

Definition ptr := Z.
Definition NULL : ptr := 0.

(** Value kept by a signed bit-field of [w] bits after storing [v]
    (two's-complement reduction, as gcc and clang define the conversion). *)
Definition sbf (w v : Z) : Z := (v + 2 ^ (w - 1)) `mod` 2 ^ w - 2 ^ (w - 1).

(** Value kept by an unsigned bit-field of [w] bits. *)
Definition ubf (w v : Z) : Z := v `mod` 2 ^ w.

(** [!x] and [!!x] of C on integers and pointers. *)
Definition lnot (x : Z) : Z := if bool_decide (x = 0) then 1 else 0.
Definition truth (x : Z) : Z := if bool_decide (x = 0) then 0 else 1.

(** ** [struct ttree_node]

    [min_idx] and [max_idx] are 12-bit signed fields, [bfc] a 4-bit signed
    field and [node_side] a 4-bit unsigned field.  [keys] is the key array;
    it is allocated with [keys_per_tnode] slots. *)

Record TtreeNode := mkTtreeNode {
  parent : ptr;
  successor : ptr;
  left : ptr;
  right : ptr;
  min_idx : Z;
  max_idx : Z;
  bfc : Z;
  node_side : Z;
  keys : list Z
}.

Definition set_parent (v : ptr) (n : TtreeNode) : TtreeNode :=
  mkTtreeNode v (successor n) (left n) (right n) (min_idx n) (max_idx n)
              (bfc n) (node_side n) (keys n).
Definition set_successor (v : ptr) (n : TtreeNode) : TtreeNode :=
  mkTtreeNode (parent n) v (left n) (right n) (min_idx n) (max_idx n)
              (bfc n) (node_side n) (keys n).
Definition set_left (v : ptr) (n : TtreeNode) : TtreeNode :=
  mkTtreeNode (parent n) (successor n) v (right n) (min_idx n) (max_idx n)
              (bfc n) (node_side n) (keys n).
Definition set_right (v : ptr) (n : TtreeNode) : TtreeNode :=
  mkTtreeNode (parent n) (successor n) (left n) v (min_idx n) (max_idx n)
              (bfc n) (node_side n) (keys n).
Definition set_min_idx (v : Z) (n : TtreeNode) : TtreeNode :=
  mkTtreeNode (parent n) (successor n) (left n) (right n) (sbf 12 v) (max_idx n)
              (bfc n) (node_side n) (keys n).
Definition set_max_idx (v : Z) (n : TtreeNode) : TtreeNode :=
  mkTtreeNode (parent n) (successor n) (left n) (right n) (min_idx n) (sbf 12 v)
              (bfc n) (node_side n) (keys n).
Definition set_bfc (v : Z) (n : TtreeNode) : TtreeNode :=
  mkTtreeNode (parent n) (successor n) (left n) (right n) (min_idx n) (max_idx n)
              (sbf 4 v) (node_side n) (keys n).
Definition set_node_side (v : Z) (n : TtreeNode) : TtreeNode :=
  mkTtreeNode (parent n) (successor n) (left n) (right n) (min_idx n) (max_idx n)
              (bfc n) (ubf 4 v) (keys n).
Definition set_keys (v : list Z) (n : TtreeNode) : TtreeNode :=
  mkTtreeNode (parent n) (successor n) (left n) (right n) (min_idx n) (max_idx n)
              (bfc n) (node_side n) v.

(** [n->sides[side]]: the union overlays [sides[0]] on [left] and [sides[1]]
    on [right]; any other index is outside the array. *)
Definition sides (n : TtreeNode) (sd : Z) : option ptr :=
  if bool_decide (sd = 0) then Some (left n)
  else if bool_decide (sd = 1) then Some (right n)
  else None.

Definition set_sides (sd : Z) (v : ptr) (n : TtreeNode) : option TtreeNode :=
  if bool_decide (sd = 0) then Some (set_left v n)
  else if bool_decide (sd = 1) then Some (set_right v n)
  else None.

(** [tnode->keys[i]] as an rvalue.  The code does read one slot below the
    array ([increase_tnode_window] at index 0) and immediately overwrites
    the copy; a read outside the array yields 0 here. *)
Definition tnode_key (n : TtreeNode) (i : Z) : Z :=
  if bool_decide (0 ≤ i) then default 0 (keys n !! Z.to_nat i) else 0.

(** [tnode->keys[i] = v]; a store outside the array is undefined. *)
Definition set_key (i v : Z) (n : TtreeNode) : option TtreeNode :=
  if bool_decide (0 ≤ i < Z.of_nat (length (keys n)))
  then Some (set_keys (<[Z.to_nat i := v]> (keys n)) n)
  else None.

Definition tnode_set_side (sd : Z) (n : TtreeNode) : TtreeNode :=
  let cleared := set_node_side (Z.land (node_side n) (Z.lnot 3)) n in
  set_node_side (Z.lor (node_side cleared) (sd + 1)) cleared.

Definition tnode_get_side (n : TtreeNode) : Z := Z.land (node_side n) 3 - 1.

Definition tnode_num_keys (n : TtreeNode) : Z := max_idx n - min_idx n + 1.
Definition tnode_is_empty (n : TtreeNode) : bool := bool_decide (tnode_num_keys n = 0).
Definition tnode_key_min (n : TtreeNode) : Z := tnode_key n (min_idx n).
Definition tnode_key_max (n : TtreeNode) : Z := tnode_key n (max_idx n).

Definition is_leaf_node (n : TtreeNode) : bool :=
  bool_decide (left n = NULL) && bool_decide (right n = NULL).
Definition is_internal_node (n : TtreeNode) : bool :=
  bool_decide (left n ≠ NULL) && bool_decide (right n ≠ NULL).
(** The macro [is_half_leaf] is true of every node that is not internal,
    leaves included. *)
Definition is_half_leaf (n : TtreeNode) : bool :=
  (bool_decide (left n = NULL) || bool_decide (right n = NULL))
  && negb (bool_decide (left n ≠ NULL) && bool_decide (right n ≠ NULL)).

(** [__balance_factors[side]].  For [TNODE_ROOT] the C expression indexes the
    two-element table at -1; the fix-up walks compute that value for the
    root and never use it.  It is 0 here. *)
Definition __balance_factors : list Z := [-1; 1].
Definition side2bfc (sd : Z) : Z :=
  if bool_decide (0 ≤ sd) then default 0 (__balance_factors !! Z.to_nat sd) else 0.
Definition get_bfc_delta (n : TtreeNode) : Z := side2bfc (tnode_get_side n).
Definition subtree_is_unbalanced (n : TtreeNode) : bool :=
  bool_decide (bfc n < -1) || bool_decide (bfc n > 1).
Definition opposite_side (sd : Z) : Z := lnot sd.
Definition left_heavy (n : TtreeNode) : Z := if bool_decide (bfc n < 0) then 1 else 0.
Definition right_heavy (n : TtreeNode) : Z := if bool_decide (bfc n > 0) then 1 else 0.

(** ** [struct ttree], [struct ttree_cursor] and the memory *)

Record Ttree := mkTtree {
  root : ptr;
  cmp_func : Z → Z → Z;
  key_offs : Z;
  keys_per_tnode : Z;
  keys_are_unique : bool
}.

Definition set_root (v : ptr) (t : Ttree) : Ttree :=
  mkTtree v (cmp_func t) (key_offs t) (keys_per_tnode t) (keys_are_unique t).

(** The [ttree] field of a cursor always names the one tree of the memory
    it is used with, so it is not stored. *)
Record TtreeCursor := mkTtreeCursor {
  tnode : ptr;
  idx : Z;
  side : Z;
  state : ttree_cursor_state
}.

Definition set_tnode (v : ptr) (c : TtreeCursor) : TtreeCursor :=
  mkTtreeCursor v (idx c) (side c) (state c).
Definition set_idx (v : Z) (c : TtreeCursor) : TtreeCursor :=
  mkTtreeCursor (tnode c) v (side c) (state c).
Definition set_side (v : Z) (c : TtreeCursor) : TtreeCursor :=
  mkTtreeCursor (tnode c) (idx c) v (state c).
Definition set_state (v : ttree_cursor_state) (c : TtreeCursor) : TtreeCursor :=
  mkTtreeCursor (tnode c) (idx c) (side c) v.

(** A memory: the tree handle, the allocated nodes and the next address
    [malloc] hands out ([malloc] is taken to succeed and to return a fresh
    address; [free] removes the node). *)
Record mem := mkMem {
  tree : Ttree;
  nodes : gmap Z TtreeNode;
  brk : Z
}.

Definition load (m : mem) (p : ptr) : option TtreeNode := nodes m !! p.
Definition store (p : ptr) (n : TtreeNode) (m : mem) : mem :=
  mkMem (tree m) (<[p := n]> (nodes m)) (brk m).
Definition update (p : ptr) (f : TtreeNode → TtreeNode) (m : mem) : option mem :=
  n ← load m p; Some (store p (f n) m).
Definition update_opt (p : ptr) (f : TtreeNode → option TtreeNode) (m : mem) : option mem :=
  n ← load m p; n' ← f n; Some (store p n' m).
Definition free (p : ptr) (m : mem) : mem :=
  mkMem (tree m) (delete p (nodes m)) (brk m).
Definition with_root (v : ptr) (m : mem) : mem :=
  mkMem (set_root v (tree m)) (nodes m) (brk m).

Definition first_tnode_idx (t : Ttree) : Z := Z.shiftr (keys_per_tnode t) 1 - 1.
Definition min_tnode_entries (t : Ttree) : Z :=
  keys_per_tnode t - Z.shiftr (keys_per_tnode t) 2.
Definition tnode_is_full (t : Ttree) (n : TtreeNode) : bool :=
  bool_decide (tnode_num_keys n = keys_per_tnode t).
Definition ttree_key2item (t : Ttree) (key : Z) : Z := key - key_offs t.
Definition ttree_item2key (t : Ttree) (item : Z) : Z := item + key_offs t.
Definition ttree_is_empty (t : Ttree) : bool := bool_decide (root t = NULL).

(** [TTREE_ASSERT(cond)]: [assert] aborts the program when [cond] is false. *)
Definition TTREE_ASSERT (cond : bool) : option () := if cond then Some () else None.

(** ** Key windows inside one node *)

(** [cnt] rounds of [keys[i] = keys[i + off]; i += step]: the body shared by
    the four shifting loops of [increase_tnode_window] and
    [decrease_tnode_window] and by the left-merge loop of
    [ttree_delete_at_cursor]. *)
Fixpoint slide_keys (cnt : nat) (i step off : Z) (n : TtreeNode) : option TtreeNode :=
  match cnt with
  | O => Some n
  | S c => n' ← set_key i (tnode_key n (i + off)) n; slide_keys c (i + step) step off n'
  end.

(** [cnt] pointers read from [src->keys + from]. *)
Definition key_slice (src : TtreeNode) (from : Z) (cnt : nat) : list Z :=
  (λ j : nat, tnode_key src (from + Z.of_nat j)) <$> seq 0 cnt.

(** Stores [vs] at [dst->keys + at_]. *)
Fixpoint write_keys (at_ : Z) (vs : list Z) (dst : TtreeNode) : option TtreeNode :=
  match vs with
  | [] => Some dst
  | v :: vs' => dst' ← set_key at_ v dst; write_keys (at_ + 1) vs' dst'
  end.

(** [memcpy(dst->keys + at_, src->keys + from, sizeof(void * ) * cnt)].  A
    negative [cnt] would reach [memcpy] as a huge [size_t]; that is
    undefined.  Where source and destination lie in the same node and
    overlap (the merge with a right leaf), the destination is below the
    source, and the copy is the ascending one. *)
Definition memcpy_keys (dst : TtreeNode) (at_ : Z) (src : TtreeNode) (from cnt : Z)
  : option TtreeNode :=
  if bool_decide (0 ≤ cnt) then write_keys at_ (key_slice src from (Z.to_nat cnt)) dst
  else None.

(** [increase_tnode_window(ttree, tnode, &idx)]: the node after the window
    has grown, and the new value of [*idx]. *)
Definition increase_tnode_window (t : Ttree) (n : TtreeNode) (i : Z)
  : option (TtreeNode * Z) :=
  if bool_decide (keys_per_tnode t - 1 - max_idx n > min_idx n) then
    let n1 := set_max_idx (max_idx n + 1) n in
    let i0 := max_idx n1 in
    n2 ← slide_keys (Z.to_nat (i0 - (i - 1))) i0 (-1) (-1) n1;
    Some (n2, i)
  else
    let i' := i - 1 in
    let n1 := set_min_idx (min_idx n - 1) n in
    let i0 := min_idx n1 in
    n2 ← slide_keys (Z.to_nat (i' - i0)) i0 1 1 n1;
    Some (n2, i').

(** [decrease_tnode_window(ttree, tnode, &idx)]. *)
Definition decrease_tnode_window (t : Ttree) (n : TtreeNode) (i : Z)
  : option (TtreeNode * Z) :=
  if bool_decide (keys_per_tnode t - 1 - max_idx n ≤ min_idx n) then
    let n1 := set_max_idx (max_idx n - 1) n in
    n2 ← slide_keys (Z.to_nat (max_idx n1 - i + 1)) i 1 1 n1;
    Some (n2, i)
  else
    let n1 := set_min_idx (min_idx n + 1) n in
    n2 ← slide_keys (Z.to_nat (i - min_idx n1 + 1)) i (-1) (-1) n1;
    Some (n2, i + 1).

(** The live keys of a node, in slot order. *)
Definition tnode_window (n : TtreeNode) : list Z :=
  key_slice n (min_idx n) (Z.to_nat (tnode_num_keys n)).

(** The [while (floor <= ceil)] loop of [lookup_inside_tnode]; the result is
    the item (or [NULL]) and [*out_idx]. *)
Fixpoint lookup_inside_loop (fuel : nat) (t : Ttree) (n : TtreeNode) (key floor ceil : Z)
  : Z * Z :=
  match fuel with
  | O => (NULL, floor)
  | S f =>
      if bool_decide (floor ≤ ceil) then
        let mid := Z.shiftr (floor + ceil) 1 in
        let cmp_res := cmp_func t key (tnode_key n mid) in
        if bool_decide (cmp_res < 0) then lookup_inside_loop f t n key floor (mid - 1)
        else if bool_decide (cmp_res > 0) then lookup_inside_loop f t n key (mid + 1) ceil
        else (ttree_key2item t (tnode_key n mid), mid)
      else (NULL, floor)
  end.

(** [lookup_inside_tnode(ttree, tnode, tnl, out_idx)] with
    [tnl = { key, low_bound, high_bound }].  Every round shrinks
    [ceil - floor], so [ceil - floor + 1] rounds are enough. *)
Definition lookup_inside_tnode (t : Ttree) (n : TtreeNode) (key low_bound high_bound : Z)
  : option (Z * Z) :=
  _ ← TTREE_ASSERT (bool_decide (0 ≤ low_bound) && bool_decide (high_bound < keys_per_tnode t));
  Some (lookup_inside_loop (Z.to_nat (high_bound - low_bound + 1)) t n key
                           low_bound high_bound).

(** ** Rotations *)

(** [__rotate_single(&target, side)]: the memory afterwards and the new
    value of [target]. *)
Definition __rotate_single (target : ptr) (sd : Z) (m : mem) : option (mem * ptr) :=
  let opside := opposite_side sd in
  let p := target in
  _ ← TTREE_ASSERT (bool_decide (p ≠ NULL));
  pn ← load m p;
  s ← sides pn sd;
  _ ← TTREE_ASSERT (bool_decide (s ≠ NULL));
  (* tnode_set_side(s, tnode_get_side(p)); *)
  m ← update s (tnode_set_side (tnode_get_side pn)) m;
  (* p->sides[side] = s->sides[opside]; *)
  sn ← load m s;
  c ← sides sn opside;
  m ← update_opt p (set_sides sd c) m;
  (* s->sides[opside] = p; *)
  m ← update_opt s (set_sides opside p) m;
  (* tnode_set_side(p, opside); *)
  m ← update p (tnode_set_side opside) m;
  (* s->parent = p->parent; *)
  pn ← load m p;
  m ← update s (set_parent (parent pn)) m;
  (* p->parent = s; *)
  m ← update p (set_parent s) m;
  (* if (p->sides[side]) { p->sides[side]->parent = p; tnode_set_side(...); } *)
  pn ← load m p;
  c ← sides pn sd;
  m ← (if bool_decide (c ≠ NULL) then
         m ← update c (set_parent p) m;
         update c (tnode_set_side sd) m
       else Some m);
  (* if (s->parent) { ... } *)
  sn ← load m s;
  m ← (if bool_decide (parent sn ≠ NULL) then
         gn ← load m (parent sn);
         gc ← sides gn sd;
         if bool_decide (gc = p) then update_opt (parent sn) (set_sides sd s) m
         else update_opt (parent sn) (set_sides opside s) m
       else Some m);
  Some (m, s).

(** [!!(n->right) - !!(n->left)]. *)
Definition child_balance (n : TtreeNode) : Z := truth (right n) - truth (left n).

(** [rotate_single(&target, side)]. *)
Definition rotate_single (target : ptr) (sd : Z) (m : mem) : option (mem * ptr) :=
  '(m, target) ← __rotate_single target sd m;
  tn ← load m target;
  n ← sides tn (opposite_side sd);
  nn ← load m n;
  m ← (if is_internal_node nn then
         pn ← load m (parent nn);
         update n (set_bfc (if bool_decide (bfc pn ≠ side2bfc sd) then side2bfc sd else 0)) m
       else update n (set_bfc (child_balance nn)) m);
  tn ← load m target;
  m ← update target (set_bfc (bfc tn + side2bfc (opposite_side sd))) m;
  nn ← load m n;
  tn ← load m target;
  _ ← TTREE_ASSERT (bool_decide (Z.abs (if bool_decide (bfc nn < 2) then 1 else 0) ≠ 0)
                    && bool_decide (Z.abs (bfc tn) < 2));
  Some (m, target).

(** [rotate_double(&target, side)]. *)
Definition rotate_double (target : ptr) (sd : Z) (m : mem) : option (mem * ptr) :=
  let opside := opposite_side sd in
  tn ← load m target;
  n ← sides tn sd;
  '(m, n) ← __rotate_single n opside m;
  nn ← load m n;
  c ← sides nn sd;
  cn ← load m c;
  m ← (if is_internal_node cn then
         update c (set_bfc (if bool_decide (bfc nn = side2bfc opside)
                            then side2bfc sd else 0)) m
       else update c (set_bfc (child_balance cn)) m);
  cn ← load m c;
  _ ← TTREE_ASSERT (bool_decide (Z.abs (bfc cn) < 2));
  (* n = n->parent; *)
  nn ← load m n;
  let n := parent nn in
  '(m, target) ← __rotate_single target sd m;
  nn ← load m n;
  m ← (if is_internal_node nn then
         tn ← load m target;
         update n (set_bfc (if bool_decide (bfc tn = side2bfc sd)
                            then side2bfc opside else 0)) m
       else update n (set_bfc (child_balance nn)) m);
  nn ← load m n;
  _ ← TTREE_ASSERT (bool_decide (Z.abs (bfc nn) < 2));
  m ← update target (set_bfc 0) m;
  Some (m, target).

(** ** Rebalancing *)

(** The key migration of [rebalance], up to the label [no_cursor]: the
    donor [n] is chosen, the window of the new subtree root [node] is laid
    out, and the cursor, if there is one, is moved.  The result is the
    memory, [n], [nkeys], [offs] and the cursor.  [cursor] is [None] for a
    [NULL] cursor. *)
Definition migrate_prepare (node : ptr) (cursor : option TtreeCursor) (m : mem)
  : option (mem * ptr * Z * Z * option TtreeCursor) :=
  let t := tree m in
  tn ← load m node;
  rn ← load m (right tn);
  ln ← load m (left tn);
  (if bool_decide (tnode_num_keys ln ≤ tnode_num_keys rn) then
     let n := right tn in
     let nkeys := tnode_num_keys rn in
     (* ( *node)->keys[0] = ( *node)->keys[( *node)->min_idx]; *)
     m ← update_opt node (set_key 0 (tnode_key tn (min_idx tn))) m;
     let offs := 1 in
     m ← update node (set_min_idx 0) m;
     m ← update node (set_max_idx (nkeys - 1)) m;
     match cursor with
     | None => Some (m, n, nkeys, offs, None)
     | Some c =>
         if bool_decide (tnode c = n) then
           nn ← load m n;
           if bool_decide (idx c < max_idx nn) then
             tn' ← load m node;
             Some (m, n, nkeys, offs,
                   Some (set_idx (min_idx tn' + (idx c - min_idx nn + 1)) (set_tnode node c)))
           else Some (m, n, nkeys, offs, Some (set_idx (first_tnode_idx t) c))
         else Some (m, n, nkeys, offs, Some c)
     end
   else
     let n := left tn in
     let nkeys := tnode_num_keys ln in
     (* ( *node)->keys[keys_per_tnode - 1] = ( *node)->keys[( *node)->min_idx]; *)
     m ← update_opt node (set_key (keys_per_tnode t - 1) (tnode_key tn (min_idx tn))) m;
     let offs := keys_per_tnode t - nkeys in
     m ← update node (set_min_idx offs) m;
     m ← update node (set_max_idx (keys_per_tnode t - 1)) m;
     match cursor with
     | None => Some (m, n, nkeys, offs, None)
     | Some c =>
         c' ← (if bool_decide (tnode c = n) then
                 nn ← load m n;
                 if bool_decide (idx c > min_idx nn) then
                   tn' ← load m node;
                   Some (set_idx (min_idx tn' + (idx c - min_idx nn)) (set_tnode node c))
                 else Some (set_idx (first_tnode_idx t) c)
               else Some c);
         (* n->max_idx = n->min_idx++; *)
         nn ← load m n;
         m ← update n (set_max_idx (min_idx nn)) m;
         m ← update n (set_min_idx (min_idx nn + 1)) m;
         Some (m, n, nkeys, offs, Some c')
     end).

(** The key migration of [rebalance] from the label [no_cursor] on: the
    keys are copied into [node] and the donor [n] is left with one key in
    the middle slot. *)
Definition migrate_copy (node n : ptr) (nkeys offs : Z) (m : mem) : option mem :=
  let t := tree m in
  dn ← load m node;
  sn ← load m n;
  dn' ← memcpy_keys dn offs sn (min_idx sn) (nkeys - 1);
  let m := store node dn' m in
  (* n->keys[first_tnode_idx(ttree)] = n->keys[n->max_idx]; *)
  sn ← load m n;
  m ← update_opt n (set_key (first_tnode_idx t) (tnode_key sn (max_idx sn))) m;
  (* n->min_idx = n->max_idx = first_tnode_idx(ttree); *)
  m ← update n (set_max_idx (first_tnode_idx t)) m;
  sn ← load m n;
  update n (set_min_idx (max_idx sn)) m.

(** The key migration of [rebalance]: the block entered after
    [rotate_double] when the new subtree root [node] holds one key and
    neither child is internal. *)
Definition rebalance_migrate (node : ptr) (cursor : option TtreeCursor) (m : mem)
  : option (mem * option TtreeCursor) :=
  '(m, n, nkeys, offs, cursor) ← migrate_prepare node cursor m;
  m ← migrate_copy node n nkeys offs m;
  Some (m, cursor).

(** The condition guarding the migration:
    [(tnode_num_keys( *node) == 1) && is_half_leaf(( *node)->left)
     && is_half_leaf(( *node)->right)], with C's short-circuit evaluation. *)
Definition migration_due (node : ptr) (m : mem) : option bool :=
  tn ← load m node;
  if bool_decide (tnode_num_keys tn = 1) then
    ln ← load m (left tn);
    if is_half_leaf ln then
      rn ← load m (right tn);
      Some (is_half_leaf rn)
    else Some false
  else Some false.

(** [rebalance(ttree, &node, cursor)]. *)
Definition rebalance (node : ptr) (cursor : option TtreeCursor) (m : mem)
  : option (mem * ptr * option TtreeCursor) :=
  nn ← load m node;
  let lh := left_heavy nn in
  c ← sides nn (opposite_side lh);
  cn ← load m c;
  let sum := Z.abs (bfc nn + bfc cn) in
  '(m, node, cursor) ←
    (if bool_decide (2 ≤ sum) then
       '(m, node) ← rotate_single node (opposite_side lh) m;
       Some (m, node, cursor)
     else
       '(m, node) ← rotate_double node (opposite_side lh) m;
       due ← migration_due node m;
       if due : bool then
         '(m, cursor) ← rebalance_migrate node cursor m;
         Some (m, node, cursor)
       else Some (m, node, cursor));
  (* out: *)
  rn ← load m (root (tree m));
  Some (if bool_decide (parent rn ≠ NULL) then with_root node m else m, node, cursor).

(** Every walk along parent links is given as many rounds as the memory has
    nodes, plus one; a walk that needs more is running in a cycle and never
    ends in C. *)
Definition walk_fuel (m : mem) : nat := S (size (nodes m)).

(** The [for] loop of [__add_successor]. *)
Fixpoint add_successor_walk (fuel : nat) (node np n : ptr) (m : mem) : option mem :=
  if bool_decide (node = NULL) then Some m else
  match fuel with
  | O => None
  | S f =>
      nd ← load m node;
      if bool_decide (successor nd = np) then update node (set_successor n) m
      else add_successor_walk f (parent nd) np n m
  end.

(** [__add_successor(n)]. *)
Definition __add_successor (n : ptr) (m : mem) : option mem :=
  nn ← load m n;
  if bool_decide (tnode_get_side nn = TNODE_RIGHT) then
    pn ← load m (parent nn);
    m ← update n (set_successor (successor pn)) m;
    update (parent nn) (set_successor n) m
  else
    m ← update n (set_successor (parent nn)) m;
    pn ← load m (parent nn);
    if bool_decide (tnode_get_side pn = TNODE_RIGHT) then
      update (parent pn) (set_successor n) m
    else if bool_decide (tnode_get_side pn = TNODE_LEFT) then
      add_successor_walk (walk_fuel m) (parent pn) (parent nn) n m
    else Some m.

(** The [while] loop of [__remove_successor]; [node] is the value before
    [node = node->parent]. *)
Fixpoint remove_successor_walk (fuel : nat) (node n np : ptr) (m : mem) : option mem :=
  match fuel with
  | O => None
  | S f =>
      nd ← load m node;
      let node := parent nd in
      if bool_decide (node = NULL) then Some m else
      pd ← load m node;
      if bool_decide (successor pd = n) then update node (set_successor np) m
      else remove_successor_walk f node n np m
  end.

(** [__remove_successor(n)]. *)
Definition __remove_successor (n : ptr) (m : mem) : option mem :=
  nn ← load m n;
  if bool_decide (tnode_get_side nn = TNODE_RIGHT) then
    update (parent nn) (set_successor (successor nn)) m
  else
    pn ← load m (parent nn);
    if bool_decide (tnode_get_side pn = TNODE_RIGHT) then
      update (parent pn) (set_successor (parent nn)) m
    else remove_successor_walk (walk_fuel m) n n (parent nn) m.

(** ** Fix-up walks *)

(** What a fix-up walk did, in order: the balance factor it stored in an
    ancestor, and the call of [rebalance] on an ancestor.  The list is a
    record of the run only; no step of the walk reads it. *)
Inductive fixup_event :=
  | Adjusted (p : ptr) (b : Z)
  | Rebalanced (p : ptr).

(** The [while ((node = node->parent))] loop of [fixup_after_insertion];
    [node] is the value before the assignment in the loop condition. *)
Fixpoint fixup_insertion_walk (fuel : nat) (node : ptr) (bfc_delta : Z)
    (cursor : TtreeCursor) (m : mem) : option (mem * TtreeCursor * list fixup_event) :=
  match fuel with
  | O => None
  | S f =>
      nd ← load m node;
      let node := parent nd in
      if bool_decide (node = NULL) then Some (m, cursor, [])
      else
        pn ← load m node;
        (* node->bfc += bfc_delta; *)
        m ← update node (set_bfc (bfc pn + bfc_delta)) m;
        pn ← load m node;
        if bool_decide (bfc pn = 0) then Some (m, cursor, [Adjusted node (bfc pn)])
        else if subtree_is_unbalanced pn then
          '(m, _, c) ← rebalance node (Some cursor) m;
          Some (m, default cursor c, [Adjusted node (bfc pn); Rebalanced node])
        else
          '(m, c, evs) ← fixup_insertion_walk f node (get_bfc_delta pn) cursor m;
          Some (m, c, Adjusted node (bfc pn) :: evs)
  end.

(** [fixup_after_insertion(ttree, n, cursor)]. *)
Definition fixup_after_insertion (n : ptr) (cursor : TtreeCursor) (m : mem)
  : option (mem * TtreeCursor * list fixup_event) :=
  nn ← load m n;
  let bfc_delta := get_bfc_delta nn in
  m ← __add_successor n m;
  fixup_insertion_walk (walk_fuel m) n bfc_delta cursor m.

(** The [while (node)] loop of [fixup_after_deletion]. *)
Fixpoint fixup_deletion_walk (fuel : nat) (node : ptr) (bfc_delta : Z)
    (cursor : option TtreeCursor) (m : mem) : option (mem * option TtreeCursor) :=
  if bool_decide (node = NULL) then Some (m, cursor) else
  match fuel with
  | O => None
  | S f =>
      nd ← load m node;
      (* node->bfc -= bfc_delta; *)
      m ← update node (set_bfc (bfc nd - bfc_delta)) m;
      nd ← load m node;
      if bool_decide (bfc nd + bfc_delta = 0) then Some (m, cursor)
      else
        let bfc_delta := get_bfc_delta nd in
        if subtree_is_unbalanced nd then
          '(m, tmp, cursor) ← rebalance node cursor m;
          td ← load m tmp;
          if bool_decide (bfc td ≠ 0) then Some (m, cursor)
          else fixup_deletion_walk f (parent td) bfc_delta cursor m
        else fixup_deletion_walk f (parent nd) bfc_delta cursor m
  end.

(** [fixup_after_deletion(ttree, n, cursor)]. *)
Definition fixup_after_deletion (n : ptr) (cursor : option TtreeCursor) (m : mem)
  : option (mem * option TtreeCursor) :=
  nn ← load m n;
  let node := parent nn in
  let bfc_delta := get_bfc_delta nn in
  m ← __remove_successor n m;
  fixup_deletion_walk (walk_fuel m) node bfc_delta cursor m.

(** ** Initialisation *)

(** [__ttree_init(ttree, num_keys, is_unique, cmpf, key_offs)].  [ttree] is
    what the pointer refers to ([None] for a null pointer) and [cmpf] the
    comparator ([None] for a null function pointer); the result is the
    return value, [errno] afterwards and the tree structure afterwards. *)
Definition __ttree_init (ttree : option Ttree) (num_keys : Z) (is_unique : bool)
    (cmpf : option (Z → Z → Z)) (key_offs_ : Z) (errno : Z)
  : Z * Z * option Ttree :=
  match ttree, cmpf with
  | Some _, Some f =>
      if bool_decide (num_keys < TNODE_ITEMS_MIN) || bool_decide (num_keys > TNODE_ITEMS_MAX)
      then (-1, EINVAL, ttree)
      else (0, errno, Some (mkTtree NULL f key_offs_ num_keys is_unique))
  | _, _ => (-1, EINVAL, ttree)
  end.

(** ** Cursors *)

(** [ttree_cursor_open_on_node(cursor, tree, tnode, seek)]: the return value
    and the cursor written. *)
Definition ttree_cursor_open_on_node (m : mem) (tn : ptr) (seek : tnode_seek)
  : option (Z * TtreeCursor) :=
  if bool_decide (tn ≠ NULL) then
    n ← load m tn;
    let i := match seek with
             | TNODE_SEEK_START => min_idx n
             | TNODE_SEEK_END => max_idx n
             end in
    Some (0, mkTtreeCursor tn i TNODE_BOUND CURSOR_OPENED)
  else
    _ ← TTREE_ASSERT (bool_decide (root (tree m) = NULL));
    Some (0, mkTtreeCursor tn (first_tnode_idx (tree m)) TNODE_BOUND CURSOR_PENDING).

Definition ttree_cursor_open (m : mem) : option (Z * TtreeCursor) :=
  ttree_cursor_open_on_node m (root (tree m)) TNODE_SEEK_START.

(** [ttree_key_from_cursor(cursor)]. *)
Definition ttree_key_from_cursor (m : mem) (cursor : TtreeCursor) : option Z :=
  if bool_decide (state cursor = CURSOR_OPENED) then
    n ← load m (tnode cursor);
    Some (tnode_key n (idx cursor))
  else Some NULL.

(** [ttree_item_from_cursor(cursor)]. *)
Definition ttree_item_from_cursor (m : mem) (cursor : TtreeCursor) : option Z :=
  key ← ttree_key_from_cursor m cursor;
  if bool_decide (key = NULL) then Some NULL
  else Some (ttree_key2item (tree m) key).

(** ** Lookup *)

(** How the descent of [ttree_lookup] ends: on a node whose minimum key
    equals the search key, or at a null child with the values of [target],
    [marked_tn], [side] and [cmp_res] at that point. *)
Inductive descent :=
  | Found (n : ptr)
  | Ended (target marked_tn : ptr) (sd cmp_res : Z).

(** The [while (n)] loop of [ttree_lookup]. *)
Fixpoint lookup_descend (fuel : nat) (m : mem) (key : Z) (n target marked_tn : ptr)
    (sd cmp_res : Z) : option descent :=
  if bool_decide (n = NULL) then Some (Ended target marked_tn sd cmp_res) else
  match fuel with
  | O => None
  | S f =>
      nd ← load m n;
      let cmp_res := cmp_func (tree m) key (tnode_key_min nd) in
      if bool_decide (cmp_res < 0) then
        lookup_descend f m key (left nd) n marked_tn TNODE_LEFT cmp_res
      else if bool_decide (cmp_res > 0) then
        lookup_descend f m key (right nd) n n TNODE_RIGHT cmp_res
      else Some (Found n)
  end.

(** [ttree_lookup(ttree, key, cursor)]: the item returned ([NULL] when the
    key is absent) and the cursor the function fills in when it is given
    one. *)
Definition ttree_lookup (m : mem) (key : Z) : option (Z * TtreeCursor) :=
  let t := tree m in
  let n := root t in
  if bool_decide (n = NULL) then
    Some (NULL, mkTtreeCursor n (first_tnode_idx t) TNODE_BOUND CURSOR_PENDING)
  else
    d ← lookup_descend (walk_fuel m) m key n n NULL TNODE_BOUND 0;
    match d with
    | Found n =>
        nd ← load m n;
        Some (ttree_key2item t (tnode_key_min nd),
              mkTtreeCursor n (min_idx nd) TNODE_BOUND CURSOR_OPENED)
    | Ended target marked_tn sd cmp_res =>
        let last_resort :=
          td ← load m target;
          if negb (tnode_is_full t td) then
            let i := if bool_decide (marked_tn ≠ target) || bool_decide (cmp_res < 0)
                     then min_idx td else max_idx td + 1 in
            Some (NULL, mkTtreeCursor target i TNODE_BOUND CURSOR_PENDING)
          else Some (NULL, mkTtreeCursor target (first_tnode_idx t) sd CURSOR_PENDING) in
        if bool_decide (marked_tn ≠ NULL) then
          md ← load m marked_tn;
          let c := cmp_func t key (tnode_key_max md) in
          if bool_decide (c ≤ 0) then
            if bool_decide (c = 0) then
              Some (ttree_key2item t (tnode_key_max md),
                    mkTtreeCursor marked_tn (max_idx md) TNODE_BOUND CURSOR_OPENED)
            else
              '(item, i) ← lookup_inside_tnode t md key (min_idx md + 1) (max_idx md - 1);
              Some (item, mkTtreeCursor marked_tn i TNODE_BOUND
                            (if bool_decide (item ≠ NULL) then CURSOR_OPENED
                             else CURSOR_PENDING))
          else last_resort
        else last_resort
    end.

(** ** Insertion *)

(** [allocate_ttree_node(ttree)]: [malloc] of a node with [keys_per_tnode]
    key slots, the header cleared by [memset].  The key slots are not
    initialised by the C code; they hold 0 here. *)
Definition allocate_ttree_node (m : mem) : mem * ptr :=
  let fresh := mkTtreeNode NULL NULL NULL NULL 0 0 0 0
                 (replicate (Z.to_nat (keys_per_tnode (tree m))) 0) in
  (mkMem (tree m) (<[brk m := fresh]> (nodes m)) (brk m + 1), brk m).

(** The code from the label [create_new_node] of [ttree_insert_at_cursor]
    to the end of the function. *)
Definition create_new_node (cursor : TtreeCursor) (at_node : ptr) (key : Z) (m : mem)
  : option (mem * TtreeCursor * list fixup_event) :=
  let '(m, n) := allocate_ttree_node m in
  m ← update_opt n (set_key (idx cursor) key) m;
  (* n->min_idx = n->max_idx = cursor->idx; *)
  m ← update n (set_max_idx (idx cursor)) m;
  nn ← load m n;
  m ← update n (set_min_idx (max_idx nn)) m;
  m ← update n (set_parent at_node) m;
  m ← update_opt at_node (set_sides (side cursor) n) m;
  m ← update n (tnode_set_side (side cursor)) m;
  let cursor := set_state CURSOR_OPENED (set_tnode n cursor) in
  fixup_after_insertion n cursor m.

(** [ttree_insert_at_cursor(cursor, item)]: the memory and the caller's
    cursor afterwards, and the record of the fix-up walk when one ran.
    When the bound node is full the function goes on with a private copy
    of the cursor, and the caller's cursor keeps the index stored before
    the copy was made. *)
Definition ttree_insert_at_cursor_ev (cursor : TtreeCursor) (item : Z) (m : mem)
  : option (mem * TtreeCursor * list fixup_event) :=
  let t := tree m in
  let key := ttree_item2key t item in
  let at_node := tnode cursor in
  if bool_decide (root t = NULL) then
    let '(m, at_node) := allocate_ttree_node m in
    m ← update_opt at_node (set_key (first_tnode_idx t) key) m;
    (* at_node->min_idx = at_node->max_idx = first_tnode_idx(ttree); *)
    m ← update at_node (set_max_idx (first_tnode_idx t)) m;
    an ← load m at_node;
    m ← update at_node (set_min_idx (max_idx an)) m;
    let m := with_root at_node m in
    m ← update at_node (tnode_set_side TNODE_ROOT) m;
    '(_, c) ← ttree_cursor_open_on_node m at_node TNODE_SEEK_START;
    Some (m, c, [])
  else if bool_decide (side cursor = TNODE_BOUND) then
    n ← load m (tnode cursor);
    if tnode_is_full t n then
      (* void *tmp = n->keys[n->max_idx--]; *)
      let tmp := tnode_key n (max_idx n) in
      let n1 := set_max_idx (max_idx n - 1) n in
      '(n2, i) ← increase_tnode_window t n1 (idx cursor);
      n3 ← set_key i key n2;
      let m := store (tnode cursor) n3 m in
      let cursor := set_idx i cursor in
      let key := tmp in
      let tmp_cursor := cursor in
      if bool_decide (successor n3 = NULL) || bool_decide (right n3 = NULL) then
        let tmp_cursor := set_idx (first_tnode_idx t) (set_side TNODE_RIGHT tmp_cursor) in
        '(m, _, evs) ← create_new_node tmp_cursor at_node key m;
        Some (m, cursor, evs)
      else
        let at_node := successor n3 in
        an ← load m at_node;
        if tnode_is_full t an then
          let tmp_cursor := set_idx (first_tnode_idx t) (set_side TNODE_LEFT tmp_cursor) in
          '(m, _, evs) ← create_new_node tmp_cursor at_node key m;
          Some (m, cursor, evs)
        else
          let tmp_cursor := set_tnode at_node (set_idx (min_idx an) tmp_cursor) in
          '(an1, i) ← increase_tnode_window t an (idx tmp_cursor);
          an2 ← set_key i key an1;
          Some (store at_node an2 m, cursor, [])
    else
      '(n1, i) ← increase_tnode_window t n (idx cursor);
      n2 ← set_key i key n1;
      Some (store at_node n2 m, set_state CURSOR_OPENED (set_idx i cursor), [])
  else create_new_node cursor at_node key m.

Definition ttree_insert_at_cursor (cursor : TtreeCursor) (item : Z) (m : mem)
  : option (mem * TtreeCursor) :=
  '(m, c, _) ← ttree_insert_at_cursor_ev cursor item m;
  Some (m, c).

(** [ttree_insert(ttree, item)]: the return value and the memory. *)
Definition ttree_insert (item : Z) (m : mem) : option (Z * mem) :=
  '(found, cursor) ← ttree_lookup m (ttree_item2key (tree m) item);
  if bool_decide (found ≠ NULL) && keys_are_unique (tree m) then Some (-1, m)
  else
    '(m, _) ← ttree_insert_at_cursor cursor item m;
    Some (0, m).

(** ** Deletion *)

(** [ttree_delete_at_cursor], from the test [is_internal_node(tnode)] to the
    end: the node is at or below the low-water mark. *)
Definition delete_rebalance (cursor : TtreeCursor) (tnode_ : ptr) (m : mem)
  : option (mem * TtreeCursor) :=
  let t := tree m in
  tn ← load m tnode_;
  (* if (is_internal_node(tnode)) { ... } *)
  '(m, cursor, tnode_, done) ←
    (if is_internal_node tn then
       let n := successor tn in
       '(tn1, i) ← increase_tnode_window t tn (max_idx tn + 1);
       let m := store tnode_ tn1 m in
       (* tnode->keys[idx] = n->keys[n->min_idx++]; *)
       nn ← load m n;
       m ← update n (set_min_idx (min_idx nn + 1)) m;
       m ← update_opt tnode_ (set_key i (tnode_key nn (min_idx nn))) m;
       tn2 ← load m tnode_;
       let cursor := if bool_decide (idx cursor > max_idx tn2)
                     then set_idx (max_idx tn2) cursor else cursor in
       nn ← load m n;
       if negb (tnode_is_empty nn) && is_leaf_node nn then Some (m, cursor, n, true)
       else Some (m, cursor, n, false)
     else Some (m, cursor, tnode_, false));
  if done : bool then Some (m, cursor) else
  tn ← load m tnode_;
  (* if (!is_leaf_node(tnode)) { ... } *)
  '(m, cursor, tnode_, done) ←
    (if negb (is_leaf_node tn) then
       let n := if bool_decide (left tn ≠ NULL) then left tn else right tn in
       nn ← load m n;
       let items := tnode_num_keys nn in
       if bool_decide (items > keys_per_tnode t - tnode_num_keys tn) then
         Some (m, cursor, tnode_, true)
       else
         '(m, cursor) ←
           (if bool_decide (tnode_get_side nn = TNODE_RIGHT) then
              let diff := (keys_per_tnode t - max_idx tn - items) - 1 in
              '(m, cursor) ←
                (if bool_decide (diff < 0) then
                   tn1 ← memcpy_keys tn (min_idx tn + diff) tn (min_idx tn)
                                     (tnode_num_keys tn);
                   let tn1 := set_max_idx (max_idx tn1 + diff)
                                (set_min_idx (min_idx tn1 + diff) tn1) in
                   Some (store tnode_ tn1 m,
                         if bool_decide (tnode cursor = tnode_)
                         then set_idx (idx cursor + diff) cursor else cursor)
                 else Some (m, cursor));
              tn ← load m tnode_;
              nn ← load m n;
              tn1 ← memcpy_keys tn (max_idx tn + 1) nn (min_idx nn) items;
              Some (store tnode_ (set_max_idx (max_idx tn1 + items) tn1) m, cursor)
            else
              let diff := min_idx tn - items in
              '(m, cursor) ←
                (if bool_decide (diff < 0) then
                   (* for (i = tnode->max_idx; i >= tnode->min_idx; i--)
                        tnode->keys[i - diff] = tnode->keys[i]; *)
                   tn1 ← slide_keys (Z.to_nat (max_idx tn - min_idx tn + 1))
                                    (max_idx tn - diff) (-1) diff tn;
                   let tn1 := set_max_idx (max_idx tn1 - diff)
                                (set_min_idx (min_idx tn1 - diff) tn1) in
                   Some (store tnode_ tn1 m,
                         if bool_decide (tnode cursor = tnode_)
                         then set_idx (idx cursor - diff) cursor else cursor)
                 else Some (m, cursor));
              tn ← load m tnode_;
              nn ← load m n;
              tn1 ← memcpy_keys tn (min_idx tn - items) nn (min_idx nn) items;
              Some (store tnode_ (set_min_idx (min_idx tn1 - items) tn1) m, cursor));
         (* n->min_idx = 1; n->max_idx = 0; *)
         m ← update n (set_min_idx 1) m;
         m ← update n (set_max_idx 0) m;
         Some (m, cursor, n, false)
     else Some (m, cursor, tnode_, false));
  if done : bool then Some (m, cursor) else
  tn ← load m tnode_;
  if negb (tnode_is_empty tn) then Some (m, cursor) else
  (* if we're here, then current node will be removed from the tree. *)
  let n := parent tn in
  if bool_decide (n = NULL) then Some (free tnode_ (with_root NULL m), cursor)
  else
    m ← update_opt n (set_sides (tnode_get_side tn) NULL) m;
    '(m, _) ← fixup_after_deletion tnode_ None m;
    Some (free tnode_ m, cursor).

(** [ttree_delete_at_cursor(cursor)]: the memory, the item returned and the
    cursor afterwards. *)
Definition ttree_delete_at_cursor (cursor : TtreeCursor) (m : mem)
  : option (mem * Z * TtreeCursor) :=
  let t := tree m in
  _ ← TTREE_ASSERT (bool_decide (state cursor = CURSOR_OPENED));
  let tnode_ := tnode cursor in
  tn ← load m tnode_;
  let ret := ttree_key2item t (tnode_key tn (idx cursor)) in
  '(tn1, i) ← decrease_tnode_window t tn (idx cursor);
  let m := store tnode_ tn1 m in
  let cursor := set_state CURSOR_CLOSED (set_idx i cursor) in
  let cursor := if bool_decide (idx cursor > max_idx tn1)
                then set_idx (max_idx tn1) cursor else cursor in
  if bool_decide (tnode_num_keys tn1 > min_tnode_entries t) then Some (m, ret, cursor)
  else
    '(m, cursor) ← delete_rebalance cursor tnode_ m;
    Some (m, ret, cursor).

(** [ttree_delete(ttree, key)]: the item returned ([NULL] when the key is
    absent) and the memory. *)
Definition ttree_delete (key : Z) (m : mem) : option (Z * mem) :=
  '(ret, cursor) ← ttree_lookup m key;
  if bool_decide (ret = NULL) then Some (ret, m)
  else
    '(m, ret', _) ← ttree_delete_at_cursor cursor m;
    Some (ret, m).

(** [ttree_replace(ttree, key, new_item)].  The C function calls
    [ttree_lookup(ttree, &cursor, key)]: the address of its local cursor
    is passed as the search key and [key] as the cursor to fill in.  So the
    tree is searched for [cursor_addr], the address of the local, the
    result of the search is written to the memory [key] points to, and the
    local cursor is still uninitialised when it is dereferenced;
    [cursor_garbage] is what it holds then. *)
Definition ttree_replace (cursor_addr : Z) (cursor_garbage : TtreeCursor)
    (key new_item : Z) (m : mem) : option (Z * mem) :=
  '(found, _) ← ttree_lookup m cursor_addr;
  if bool_decide (found = NULL) then Some (-1, m)
  else
    m ← update_opt (tnode cursor_garbage)
          (set_key (idx cursor_garbage) (ttree_item2key (tree m) new_item)) m;
    Some (0, m).

(** ** Reading the tree in sorted order *)

(** The loop of [__tnode_sidemost]. *)
Fixpoint sidemost_walk (fuel : nat) (m : mem) (n : ptr) (sd : Z) : option ptr :=
  match fuel with
  | O => None
  | S f =>
      nd ← load m n;
      c ← sides nd sd;
      if bool_decide (c ≠ NULL) then sidemost_walk f m c sd else Some n
  end.

Definition __tnode_sidemost (m : mem) (tn : ptr) (sd : Z) : option ptr :=
  if bool_decide (tn = NULL) then Some NULL else sidemost_walk (walk_fuel m) m tn sd.

Definition ttree_node_leftmost (m : mem) (tn : ptr) : option ptr :=
  __tnode_sidemost m tn TNODE_LEFT.

(** The keys met by
    [for (tnode = leftmost; tnode; tnode = tnode->successor)
       tnode_for_each_index(tnode, i) ... tnode_key(tnode, i)],
    the way [ut_lookup] and [ttree_destroy] walk the tree. *)
Fixpoint successor_chain (fuel : nat) (m : mem) (n : ptr) : option (list (list Z)) :=
  if bool_decide (n = NULL) then Some [] else
  match fuel with
  | O => None
  | S f =>
      nd ← load m n;
      rest ← successor_chain f m (successor nd);
      Some (tnode_window nd :: rest)
  end.

Definition ttree_chain (m : mem) : option (list (list Z)) :=
  n ← ttree_node_leftmost m (root (tree m));
  successor_chain (walk_fuel m) m n.

Definition ttree_keys (m : mem) : option (list Z) :=
  ks ← ttree_chain m; Some (List.concat ks).

(** ** Running the public functions in sequence *)

Inductive op :=
  | Insert (item : Z)
  | Delete (key : Z).

Definition run_op (o : op) (m : mem) : option mem :=
  match o with
  | Insert item => snd <$> ttree_insert item m
  | Delete key => snd <$> ttree_delete key m
  end.

Fixpoint run_ops (os : list op) (m : mem) : option mem :=
  match os with
  | [] => Some m
  | o :: os' => m' ← run_op o m; run_ops os' m'
  end.

(** The memory right after a successful [__ttree_init] on a tree compared
    with [int] subtraction, as the unit tests do. *)
Definition int_cmp (k1 k2 : Z) : Z := k1 - k2.

Definition empty_mem (num_keys : Z) (is_unique : bool) : mem :=
  mkMem (mkTtree NULL int_cmp 0 num_keys is_unique) ∅ 1.

(** ** Scenarios used below *)

(** Eighteen calls that build, with four keys per node, a root holding four
    keys whose left child is a one-key leaf and whose right child is a
    two-key half-leaf with a one-key left leaf. *)
Definition lopsided_ops : list op :=
  [Insert 10; Insert 20; Insert 30; Insert 40; Insert 5;
   Insert 50; Insert 60; Insert 70; Insert 80;
   Insert 45; Insert 46; Insert 47; Insert 48;
   Delete 60; Delete 70; Delete 46; Delete 47; Delete 48].

(** One node holding the single key 10. *)
Definition single_key_ops : list op := [Insert 10].

(** The memory those calls leave: the root node at address 1 with the key
    in the middle slot. *)
Definition single_key_mem : mem :=
  mkMem (mkTtree 1 int_cmp 0 4 true)
        {[ 1 := mkTtreeNode NULL NULL NULL NULL 1 1 0 0 [0; 10; 0; 0] ]} 2.

(** [l] is strictly increasing / non-decreasing under the comparator [cmp]. *)
Fixpoint chain_increasing (cmp : Z → Z → Z) (strict : bool) (l : list Z) : bool :=
  match l with
  | [] => true
  | a :: l' =>
      match l' with
      | [] => true
      | b :: _ =>
          (if strict then bool_decide (cmp a b < 0) else bool_decide (cmp a b ≤ 0))
          && chain_increasing cmp strict l'
      end
  end.

(** The order invariant of the tree: the keys read along the successor
    chain are increasing, strictly so when keys are unique. *)
Definition ttree_ordered (m : mem) : option bool :=
  ks ← ttree_keys m;
  Some (chain_increasing (cmp_func (tree m)) (keys_are_unique (tree m)) ks).

(** ** Vocabulary of the statements *)

(** The fields of a node other than its window bounds and key array. *)
Definition links (n : TtreeNode) : ptr * ptr * ptr * ptr * Z * Z :=
  (parent n, successor n, left n, right n, bfc n, node_side n).

Definition bounds (n : TtreeNode) : Z * Z := (min_idx n, max_idx n).

(** [k] put in front of position [j] of [w]. *)
Definition insert_at (j : nat) (k : Z) (w : list Z) : list Z := take j w ++ k :: drop j w.

(** [w] without its element at position [j]. *)
Definition remove_at (j : nat) (w : list Z) : list Z := take j w ++ drop (S j) w.

(** A node as the tree code keeps it: an array of [keys_per_tnode] slots
    and a window inside the array.  The slot indices are stored in 12-bit
    signed fields, so they are below 2048. *)
Record tnode_wf (t : Ttree) (n : TtreeNode) : Prop := mk_tnode_wf {
  wf_length : Z.of_nat (length (keys n)) = keys_per_tnode t;
  wf_min : 0 ≤ min_idx n;
  wf_max : max_idx n < keys_per_tnode t;
  wf_window : min_idx n ≤ max_idx n + 1;
  wf_fits : keys_per_tnode t ≤ 2048
}.

(** The root after [Insert 10; Insert 20] with four keys per node: the
    window is slots 1 and 2, one slot is free on each side. *)
Definition tree4 : Ttree := mkTtree 1 int_cmp 0 4 true.
Definition tie_node : TtreeNode := mkTtreeNode NULL NULL NULL NULL 1 2 0 0 [0; 10; 20; 0].

(** The root left by eight insertions with eight keys per node: a full
    node. *)
Definition full8_ops : list op :=
  [Insert 10; Insert 20; Insert 30; Insert 40; Insert 50; Insert 60; Insert 70; Insert 80].
Definition tree8 : Ttree := mkTtree 1 int_cmp 0 8 true.
Definition full8_node : TtreeNode :=
  mkTtreeNode NULL NULL NULL NULL 0 7 0 0 [10; 20; 30; 40; 50; 60; 70; 80].
Definition full8_mem : mem := mkMem tree8 {[ 1 := full8_node ]} 2.

(** [w] without its last element. *)
Definition drop_last (w : list Z) : list Z := take (length w - 1) w.

(** [m2] is [m1] with one more node, allocated at [brk m1]: a childless
    node whose window is the single key [key], linked as the [sd] child of
    [at_node].  Nothing else differs. *)
Definition new_leaf_linked (m1 m2 : mem) (at_node : ptr) (sd key : Z) : Prop :=
  tree m2 = tree m1
  ∧ brk m2 = brk m1 + 1
  ∧ (∃ leaf, load m2 (brk m1) = Some leaf
             ∧ parent leaf = at_node ∧ left leaf = NULL ∧ right leaf = NULL
             ∧ tnode_get_side leaf = sd ∧ bfc leaf = 0
             ∧ tnode_window leaf = [key])
  ∧ (∃ an, load m1 at_node = Some an ∧ load m2 at_node = set_sides sd (brk m1) an)
  ∧ (∀ p, p ≠ brk m1 → p ≠ at_node → load m2 p = load m1 p).

(** How [ttree_insert_at_cursor] ends once a leaf has been linked at
    address [leaf] as the [sd] child of its parent: the fix-up walk runs
    from the leaf with the private copy of the cursor, and the caller gets
    its own cursor [c] back. *)
Definition finish_insert (leaf : ptr) (sd : Z) (c : TtreeCursor) (m2 : mem)
  : option (mem * TtreeCursor) :=
  '(m', _, _) ← fixup_after_insertion leaf
                  (mkTtreeCursor leaf (first_tnode_idx (tree m2)) sd CURSOR_OPENED) m2;
  Some (m', c).

(** Eighteen calls that build, with eight keys per node, a root holding
    seven keys between a full left leaf and a one-key right leaf. *)
Definition roomy_successor_ops : list op :=
  [Insert 100; Insert 200; Insert 300; Insert 400;
   Insert 500; Insert 600; Insert 700; Insert 800;
   Insert 80; Insert 900;
   Insert 70; Insert 60; Insert 50; Insert 40; Insert 30; Insert 20; Insert 10;
   Delete 200].

(** A root with a right child just linked, before the fix-up walk: the
    memory [ttree_insert_at_cursor] builds when 45 is inserted in
    [full8_mem]. *)
Definition linked_leaf_mem : mem :=
  mkMem tree8
        {[ 1 := mkTtreeNode NULL NULL NULL 2 0 7 0 0 [10; 20; 30; 40; 45; 50; 60; 70];
           2 := mkTtreeNode 1 NULL NULL NULL 3 3 0 2 [0; 0; 0; 80; 0; 0; 0; 0] ]} 3.

(** The windows of the new subtree root and of the donor after the key
    migration, from the window [wt] of the root (its one key) and the
    window [wd] of the donor before.  From the right child the root takes
    all keys but the last; from the left child it takes all keys but the
    first when [rebalance] was given a cursor, and all keys but the last
    when the cursor was [NULL]. *)
Definition migration_windows (right_donor has_cursor : bool) (wt wd : list Z)
  : list Z * list Z :=
  if right_donor then (wt ++ drop_last wd, drop (length wd - 1) wd)
  else if has_cursor then (drop 1 wd ++ wt, take 1 wd)
  else (drop_last wd ++ wt, drop (length wd - 1) wd).

(** The memory at the moment [fixup_after_deletion] calls [rebalance] on the
    root in the run of [lopsided_ops] followed by [Delete 5]: the emptied
    leaf (address 2) is detached, the root (address 1) has balance factor
    2, its right child (address 3) is left-heavy. *)
Definition zigzag_mem : mem :=
  mkMem (mkTtree 1 int_cmp 0 4 true)
        {[ 1 := mkTtreeNode NULL 4 NULL 3 0 3 2 0 [10; 20; 30; 40];
           2 := mkTtreeNode 1 1 NULL NULL 2 1 0 1 [0; 5; 5; 0];
           3 := mkTtreeNode 1 NULL 4 NULL 1 2 (-1) 2 [50; 50; 80; 80];
           4 := mkTtreeNode 3 3 NULL NULL 1 1 0 1 [45; 45; 48; 48] ]} 5.

(** The comparator is a strict total order in the C sense: negative,
    zero or positive, with the signs of [cmp a b] and [cmp b a] opposed. *)
Record cmp_order (cmp : Z → Z → Z) : Prop := mk_cmp_order {
  cmp_refl : ∀ a, cmp a a = 0;
  cmp_flip : ∀ a b, cmp a b < 0 ↔ cmp b a > 0;
  cmp_trans : ∀ a b c, cmp a b < 0 → cmp b c < 0 → cmp a c < 0
}.

(** [w] is strictly increasing under [cmp]. *)
Definition window_sorted (cmp : Z → Z → Z) (w : list Z) : Prop :=
  ∀ (i j : nat) (a b : Z), (i < j)%nat → w !! i = Some a → w !! j = Some b → cmp a b < 0.

(** No key of [w] compares equal to [k]. *)
Definition key_absent (cmp : Z → Z → Z) (k : Z) (w : list Z) : Prop :=
  ∀ a, a ∈ w → cmp k a ≠ 0.

(** The root left by seven insertions with eight keys per node: one slot
    is free at the upper end. *)
Definition seven_key_ops : list op :=
  [Insert 10; Insert 20; Insert 30; Insert 40; Insert 50; Insert 60; Insert 70].
Definition seven_key_node : TtreeNode :=
  mkTtreeNode NULL NULL NULL NULL 0 6 0 0 [10; 20; 30; 40; 50; 60; 70; 0].
Definition seven_key_mem : mem := mkMem tree8 {[ 1 := seven_key_node ]} 2.

(** ** The rest of the cursor interface *)

(** [__tnode_get_bound(tnode, side)]: the far end of the [side] subtree of
    [tnode], or [NULL] when there is no such subtree. *)
Definition __tnode_get_bound (m : mem) (tn : ptr) (sd : Z) : option ptr :=
  if bool_decide (tn = NULL) then Some NULL
  else
    nd ← load m tn;
    c ← sides nd sd;
    if bool_decide (c = NULL) then Some NULL
    else sidemost_walk (walk_fuel m) m c (lnot sd).

Definition ttree_node_glb (m : mem) (tn : ptr) : option ptr :=
  __tnode_get_bound m tn TNODE_LEFT.

Definition ttree_node_lub (m : mem) (tn : ptr) : option ptr :=
  __tnode_get_bound m tn TNODE_RIGHT.

Definition ttree_node_rightmost (m : mem) (tn : ptr) : option ptr :=
  __tnode_sidemost m tn TNODE_RIGHT.

(** [ttree_cursor_first(cursor)]: the return value and the cursor. *)
Definition ttree_cursor_first (m : mem) (cursor : TtreeCursor) : option (Z * TtreeCursor) :=
  let t := tree m in
  let cursor := set_state CURSOR_OPENED (set_side TNODE_BOUND cursor) in
  tn ← ttree_node_leftmost m (root t);
  if bool_decide (tn = NULL) then
    if bool_decide (root t ≠ NULL) then
      rn ← load m (root t);
      Some (0, set_tnode (root t) (set_idx (min_idx rn) cursor))
    else
      Some (-1, set_tnode NULL (set_state CURSOR_PENDING
                                  (set_idx (first_tnode_idx t) cursor)))
  else
    n ← load m tn;
    Some (0, set_idx (min_idx n) (set_tnode tn cursor)).

(** [ttree_cursor_last(cursor)]. *)
Definition ttree_cursor_last (m : mem) (cursor : TtreeCursor) : option (Z * TtreeCursor) :=
  let t := tree m in
  let cursor := set_side TNODE_BOUND (set_state CURSOR_OPENED cursor) in
  tn ← ttree_node_rightmost m (root t);
  if bool_decide (tn = NULL) then
    if bool_decide (root t ≠ NULL) then
      rn ← load m (root t);
      Some (0, set_idx (max_idx rn) (set_tnode (root t) cursor))
    else
      Some (-1, set_tnode NULL (set_state CURSOR_PENDING
                                  (set_idx (first_tnode_idx t) cursor)))
  else
    n ← load m tn;
    Some (0, set_idx (max_idx n) (set_tnode tn cursor)).

(** [ttree_cursor_next] from the line [cursor->side = TNODE_BOUND] on: one
    step forward from a slot of the window. *)
Definition cursor_step_forward (m : mem) (cursor : TtreeCursor) : option (Z * TtreeCursor) :=
  let cursor := set_side TNODE_BOUND cursor in
  n ← load m (tnode cursor);
  if bool_decide (idx cursor = max_idx n) then
    if bool_decide (successor n ≠ NULL) then
      sn ← load m (successor n);
      Some (TCSR_OK, set_idx (min_idx sn) (set_tnode (successor n) cursor))
    else Some (TCSR_END, cursor)
  else Some (TCSR_OK, set_idx (idx cursor + 1) cursor).

(** [ttree_cursor_next(cursor)]: the return value and the cursor. *)
Definition ttree_cursor_next (m : mem) (cursor : TtreeCursor) : option (Z * TtreeCursor) :=
  _ ← TTREE_ASSERT (bool_decide (tnode cursor ≠ NULL));
  match state cursor with
  | CURSOR_CLOSED => Some (TCSR_END, cursor)
  | CURSOR_PENDING =>
      let cursor := set_state CURSOR_OPENED cursor in
      n ← load m (tnode cursor);
      if bool_decide (side cursor = TNODE_LEFT) || bool_decide (idx cursor < min_idx n) then
        Some (TCSR_OK, set_idx (min_idx n) (set_side TNODE_BOUND cursor))
      else if bool_decide (side cursor = TNODE_BOUND) then Some (TCSR_OK, cursor)
      else if bool_decide (side cursor = TNODE_RIGHT) || bool_decide (idx cursor > max_idx n)
      then cursor_step_forward m (set_idx (max_idx n) cursor)
      else cursor_step_forward m cursor
  | CURSOR_OPENED => cursor_step_forward m cursor
  end.

(** The loop
    [for (n = cursor->tnode; n->parent && n->parent->left == n; n = n->parent);]
    of [ttree_cursor_prev]. *)
Fixpoint left_spine_walk (fuel : nat) (m : mem) (n : ptr) : option ptr :=
  match fuel with
  | O => None
  | S f =>
      nd ← load m n;
      if bool_decide (parent nd ≠ NULL) then
        pn ← load m (parent nd);
        if bool_decide (left pn = n) then left_spine_walk f m (parent nd) else Some n
      else Some n
  end.

(** [ttree_cursor_prev] from the second [cursor->side = TNODE_BOUND] on:
    one step backward from a slot of the window. *)
Definition cursor_step_backward (m : mem) (cursor : TtreeCursor) : option (Z * TtreeCursor) :=
  let cursor := set_side TNODE_BOUND cursor in
  tn ← load m (tnode cursor);
  if bool_decide (idx cursor = min_idx tn) then
    g ← ttree_node_glb m (tnode cursor);
    if bool_decide (g = NULL) then
      a ← left_spine_walk (walk_fuel m) m (tnode cursor);
      an ← load m a;
      if bool_decide (parent an = NULL) then Some (TCSR_END, cursor)
      else
        pn ← load m (parent an);
        Some (TCSR_OK, set_idx (max_idx pn) (set_tnode (parent an) cursor))
    else
      gn ← load m g;
      Some (TCSR_OK, set_idx (max_idx gn) (set_tnode g cursor))
  else Some (TCSR_OK, set_idx (idx cursor - 1) (set_state CURSOR_OPENED cursor)).

(** [ttree_cursor_prev(cursor)].  Unlike [ttree_cursor_next] it has no
    assertion on [cursor->tnode]; a null node is dereferenced. *)
Definition ttree_cursor_prev (m : mem) (cursor : TtreeCursor) : option (Z * TtreeCursor) :=
  match state cursor with
  | CURSOR_CLOSED => Some (TCSR_END, cursor)
  | CURSOR_PENDING =>
      let cursor := set_state CURSOR_OPENED cursor in
      n ← load m (tnode cursor);
      if bool_decide (side cursor = TNODE_RIGHT) || bool_decide (idx cursor > max_idx n) then
        Some (TCSR_OK, set_idx (max_idx n) (set_side TNODE_BOUND cursor))
      else if bool_decide (side cursor = TNODE_LEFT) || bool_decide (idx cursor < min_idx n)
      then cursor_step_backward m (set_idx (min_idx n) (set_side TNODE_BOUND cursor))
      else cursor_step_backward m cursor
  | CURSOR_OPENED => cursor_step_backward m cursor
  end.

(** The forward iteration of [ut_cursor_move],
    [ret = ttree_cursor_first(&cursor);
     while (ret == TCSR_OK) { ... the slot under the cursor ...;
                              ret = ttree_cursor_next(&cursor); }],
    as the list of the keys [ttree_key_from_cursor] reads at each round
    (the test reads the item, which is the key minus the key offset). *)
Fixpoint cursor_scan (fuel : nat) (m : mem) (ret : Z) (cursor : TtreeCursor)
  : option (list Z) :=
  if bool_decide (ret = TCSR_OK) then
    match fuel with
    | O => None
    | S f =>
        key ← ttree_key_from_cursor m cursor;
        '(ret, cursor) ← ttree_cursor_next m cursor;
        rest ← cursor_scan f m ret cursor;
        Some (key :: rest)
    end
  else Some [].

Definition cursor_scan_all (fuel : nat) (m : mem) (cursor : TtreeCursor)
  : option (list Z) :=
  '(ret, cursor) ← ttree_cursor_first m cursor;
  cursor_scan fuel m ret cursor.

(** ** Destruction and depth *)

(** The loop of [ttree_destroy]:
    [for (...; tnode; tnode = next) { next = tnode->successor; free(tnode); }]. *)
Fixpoint destroy_walk (fuel : nat) (tn : ptr) (m : mem) : option mem :=
  if bool_decide (tn = NULL) then Some m else
  match fuel with
  | O => None
  | S f =>
      nd ← load m tn;
      destroy_walk f (successor nd) (free tn m)
  end.

(** [ttree_destroy(ttree)]. *)
Definition ttree_destroy (m : mem) : option mem :=
  if bool_decide (root (tree m) = NULL) then Some m
  else
    tn ← ttree_node_leftmost m (root (tree m));
    m' ← destroy_walk (walk_fuel m) tn m;
    Some (with_root NULL m').

(** [__ttree_get_depth(tnode)]. *)
Fixpoint __ttree_get_depth (fuel : nat) (m : mem) (tn : ptr) : option Z :=
  if bool_decide (tn = NULL) then Some 0 else
  match fuel with
  | O => None
  | S f =>
      nd ← load m tn;
      l ← __ttree_get_depth f m (left nd);
      r ← __ttree_get_depth f m (right nd);
      let l := if bool_decide (left nd ≠ NULL) then l + 1 else l in
      let r := if bool_decide (right nd ≠ NULL) then r + 1 else r in
      Some (if bool_decide (r > l) then r else l)
  end.

Definition ttree_get_depth (m : mem) : option Z :=
  __ttree_get_depth (walk_fuel m) m (root (tree m)).

(** The nodes met by the walk [for (; tnode; tnode = tnode->successor)]
    from [n], in the order met. *)
Fixpoint chain_nodes (fuel : nat) (m : mem) (n : ptr) : option (list ptr) :=
  if bool_decide (n = NULL) then Some [] else
  match fuel with
  | O => None
  | S f =>
      nd ← load m n;
      rest ← chain_nodes f m (successor nd);
      Some (n :: rest)
  end.

(** The part of a node that holds its keys: the bounds of the window and
    the key array. *)
Definition slots (n : TtreeNode) : Z * Z * list Z := (min_idx n, max_idx n, keys n).

(** The fields of [struct ttree] that [__ttree_init] fixes. *)
Definition tree_params (t : Ttree) : (Z → Z → Z) * Z * Z * bool :=
  (cmp_func t, key_offs t, keys_per_tnode t, keys_are_unique t).

(** From [m] to [m'] no key moved: the same addresses are allocated, each
    node has its window and key array as before, and the tree structure
    and the allocator are as before.  Links, balance factors and sides of
    the nodes may differ. *)
Definition keys_untouched (m m' : mem) : Prop :=
  tree m' = tree m
  ∧ brk m' = brk m
  ∧ ∀ p, slots <$> load m' p = slots <$> load m p.

(** From [m] to [m'] no node was allocated or freed, and the parameters
    of the tree are as before. *)
Definition nodes_kept (m m' : mem) : Prop :=
  tree_params (tree m') = tree_params (tree m)
  ∧ brk m' = brk m
  ∧ dom (nodes m') = dom (nodes m).

(** ** The post-insert fix-up as a whole *)

(** [ups] is a chain of parent links of [m] that starts above [node]: its
    first element is the parent of [node], every further element is the
    parent of the one before, and none of them is null. *)
Fixpoint parent_chain (m : mem) (node : ptr) (ups : list ptr) : Prop :=
  match ups with
  | [] => True
  | a :: ups' =>
      a ≠ NULL ∧ parent <$> load m node = Some a ∧ parent_chain m a ups'
  end.

(** The steps of the post-insert fix-up in the words of the specification:
    the balance factors of the nodes [ups] are adjusted in turn, the first
    by [bfc_delta], every further one by the delta of the node before it
    (-1 when that node is a left child, +1 when it is a right child).  The
    result is the memory and the balance factors stored, in order. *)
Fixpoint adjust_balances (bfc_delta : Z) (ups : list ptr) (m : mem)
  : option (mem * list Z) :=
  match ups with
  | [] => Some (m, [])
  | a :: ups' =>
      an ← load m a;
      let an' := set_bfc (bfc an + bfc_delta) an in
      '(m', bs) ← adjust_balances (get_bfc_delta an') ups' (store a an' m);
      Some (m', bfc an' :: bs)
  end.

(** How the post-insert fix-up ends, in the words of the specification,
    once the ancestors [ups] of [n] have been adjusted, which stored the
    balance factors [bs] and gave the memory [m2]:
    - every ancestor got -1 or +1 and the last node reached has no
      parent: nothing more is done;
    - every ancestor but the last got -1 or +1 and the last got 0: nothing
      more is done;
    - every ancestor but the last got -1 or +1 and the last got a balance
      factor outside [-1, 1]: [rebalance] is called on the last one, once,
      and its memory and cursor are the result. *)
Inductive fixup_ending (n : ptr) (ups : list ptr) (bs : list Z) (c : TtreeCursor) (m2 : mem)
  : mem → TtreeCursor → Prop :=
  | ends_at_root (top : ptr) (tn : TtreeNode) :
      last (n :: ups) = Some top → load m2 top = Some tn → parent tn = NULL →
      Forall (λ b, b = -1 ∨ b = 1) bs →
      fixup_ending n ups bs c m2 m2 c
  | ends_balanced (bs0 : list Z) :
      bs = bs0 ++ [0] → Forall (λ b, b = -1 ∨ b = 1) bs0 →
      fixup_ending n ups bs c m2 m2 c
  | ends_rotated (bs0 : list Z) (b : Z) (a top : ptr) (m' : mem) (oc : option TtreeCursor) :
      bs = bs0 ++ [b] → Forall (λ b, b = -1 ∨ b = 1) bs0 → b < -1 ∨ 1 < b →
      last ups = Some a →
      rebalance a (Some c) m2 = Some (m', top, oc) →
      fixup_ending n ups bs c m2 m' (default c oc).

(** From [m] to [m'] no node was relinked: the same parameters of the
    tree and the same allocator, and every node has its parent, successor,
    children, balance factor and side as before.  Windows, key arrays and
    the root pointer of the tree may differ. *)
Definition links_kept (m m' : mem) : Prop :=
  tree_params (tree m') = tree_params (tree m)
  ∧ brk m' = brk m
  ∧ ∀ p, links <$> load m' p = links <$> load m p.

(** The memory in which [ttree_insert_at_cursor] calls the fix-up when 90
    is inserted after 10, 20, ..., 80 with four keys per node: the root
    (address 1) is full and right-heavy, its right child (address 2) is
    full, and the new leaf (address 3) has just been linked as the right
    child of that child. *)
Definition eight_key_ops : list op :=
  [Insert 10; Insert 20; Insert 30; Insert 40; Insert 50; Insert 60; Insert 70; Insert 80].
Definition right_spine_mem : mem :=
  mkMem tree4
        {[ 1 := mkTtreeNode NULL 2 NULL 2 0 3 1 0 [10; 20; 30; 40];
           2 := mkTtreeNode 1 NULL NULL 3 0 3 0 2 [50; 60; 70; 80];
           3 := mkTtreeNode 2 NULL NULL NULL 1 1 0 2 [0; 90; 0; 0] ]} 4.

(** The memory in which the fix-up is called when 85 is inserted after
    10, 20, ..., 130: the root (address 2) is right-heavy, its right child
    (address 3) has a right leaf (address 4), and the new leaf (address 5)
    has just been linked as the left child of address 3. *)
Definition thirteen_key_ops : list op :=
  eight_key_ops ++ [Insert 90; Insert 100; Insert 110; Insert 120; Insert 130].
Definition second_child_mem : mem :=
  mkMem (mkTtree 2 int_cmp 0 4 true)
        {[ 1 := mkTtreeNode 2 2 NULL NULL 0 3 0 1 [10; 20; 30; 40];
           2 := mkTtreeNode NULL 3 1 3 0 3 1 0 [50; 60; 70; 80];
           3 := mkTtreeNode 2 4 5 4 0 3 1 2 [90; 100; 110; 120];
           4 := mkTtreeNode 3 NULL NULL NULL 1 1 0 2 [0; 130; 0; 0];
           5 := mkTtreeNode 3 NULL NULL NULL 1 1 0 1 [0; 85; 0; 0] ]} 6.

(** [right_spine_mem] after the fix-up: the old root has been rotated to
    the left, and its former right child is the root. *)
Definition rotated_mem : mem :=
  mkMem (mkTtree 2 int_cmp 0 4 true)
        {[ 1 := mkTtreeNode 2 2 NULL NULL 0 3 0 1 [10; 20; 30; 40];
           2 := mkTtreeNode NULL 3 1 3 0 3 0 0 [50; 60; 70; 80];
           3 := mkTtreeNode 2 NULL NULL NULL 1 1 0 2 [0; 90; 0; 0] ]} 4.

(** [second_child_mem] after the fix-up: the new leaf is in the successor
    chain and the balance factor of its parent (address 3) is 0; the root
    keeps its balance factor 1. *)
Definition balanced_mem : mem :=
  mkMem (mkTtree 2 int_cmp 0 4 true)
        {[ 1 := mkTtreeNode 2 2 NULL NULL 0 3 0 1 [10; 20; 30; 40];
           2 := mkTtreeNode NULL 5 1 3 0 3 1 0 [50; 60; 70; 80];
           3 := mkTtreeNode 2 4 5 4 0 3 0 2 [90; 100; 110; 120];
           4 := mkTtreeNode 3 NULL NULL NULL 1 1 0 2 [0; 130; 0; 0];
           5 := mkTtreeNode 3 3 NULL NULL 1 1 0 1 [0; 85; 0; 0] ]} 6.

(** One node of a tree whose keys lie 8 bytes into their items: the item
    at address 10 has its key at address 18, in slot 1; slots 0, 2 and 3
    hold null pointers. *)
Definition offset_key_mem : mem :=
  mkMem (mkTtree 1 int_cmp 8 4 true)
        {[ 1 := mkTtreeNode NULL NULL NULL NULL 1 1 0 0 [0; 18; 0; 0] ]} 2.

(** * Theorems *)

(** ** Initialisation and cursor accessors *)

(** C9. [__ttree_init] fails with -1 and [errno = EINVAL], leaving the
    tree structure as it was, when the number of keys per node is below
    [TNODE_ITEMS_MIN] or above [TNODE_ITEMS_MAX] or when the tree pointer or
    the comparator is null; otherwise it returns 0, leaves [errno] alone
    and stores an empty tree (null root) with exactly the given number of
    keys per node, comparator, key offset and uniqueness flag. *)
Theorem ttree_init_spec (ttree : option Ttree) (num_keys : Z) (is_unique : bool)
    (cmpf : option (Z → Z → Z)) (offs errno : Z) :
  (num_keys < TNODE_ITEMS_MIN ∨ TNODE_ITEMS_MAX < num_keys ∨ ttree = None ∨ cmpf = None →
   __ttree_init ttree num_keys is_unique cmpf offs errno = (-1, EINVAL, ttree))
  ∧ (∀ t0 f, TNODE_ITEMS_MIN ≤ num_keys ≤ TNODE_ITEMS_MAX →
       ttree = Some t0 → cmpf = Some f →
       __ttree_init ttree num_keys is_unique cmpf offs errno
       = (0, errno, Some (mkTtree NULL f offs num_keys is_unique))).
Proof.
  split.
  - intros Hbad. unfold __ttree_init.
    destruct ttree as [t0|]; [|done]. destruct cmpf as [f|]; [|done].
    destruct Hbad as [H|[H|[H|H]]]; try done.
    + rewrite bool_decide_eq_true_2 by done. done.
    + rewrite (bool_decide_eq_true_2 (num_keys > TNODE_ITEMS_MAX)) by lia.
      by rewrite orb_true_r.
  - intros t0 f [Hlo Hhi] -> ->. unfold __ttree_init.
    rewrite bool_decide_eq_false_2 by lia.
    rewrite bool_decide_eq_false_2 by lia. done.
Qed.

Lemma ttree_init_spec_witness :
  __ttree_init None 8 true (Some int_cmp) 0 0 = (-1, EINVAL, None)
  ∧ __ttree_init (Some (mkTtree 77 int_cmp 3 5 false)) 8 true (Some int_cmp) 16 0
    = (0, 0, Some (mkTtree NULL int_cmp 16 8 true)).
Proof.
  split.
  - apply (proj1 (ttree_init_spec None 8 true (Some int_cmp) 0 0)).
    right; right; left; reflexivity.
  - apply (proj2 (ttree_init_spec (Some (mkTtree 77 int_cmp 3 5 false)) 8 true
                                  (Some int_cmp) 16 0)
                  (mkTtree 77 int_cmp 3 5 false) int_cmp).
    + unfold TNODE_ITEMS_MIN, TNODE_ITEMS_MAX; lia.
    + reflexivity.
    + reflexivity.
Defined.

(** C10 (as amended).  For a cursor that is not [CURSOR_OPENED],
    [ttree_key_from_cursor] and [ttree_item_from_cursor] return [NULL]
    whatever the memory holds, so no key slot is read.  For a
    [CURSOR_OPENED] cursor on an allocated node and on a slot of its key
    array, the key returned is the content of the slot [(tnode, idx)];
    the item is that key minus the key offset when the key is not null,
    and [NULL] when it is. *)
Theorem cursor_accessors_spec (m : mem) (c : TtreeCursor) :
  (state c ≠ CURSOR_OPENED →
     ttree_key_from_cursor m c = Some NULL ∧ ttree_item_from_cursor m c = Some NULL)
  ∧ (∀ n key, state c = CURSOR_OPENED → load m (tnode c) = Some n →
       0 ≤ idx c → keys n !! Z.to_nat (idx c) = Some key →
       ttree_key_from_cursor m c = Some key
       ∧ (key ≠ NULL → ttree_item_from_cursor m c = Some (key - key_offs (tree m)))
       ∧ (key = NULL → ttree_item_from_cursor m c = Some NULL)).
Proof.
  split.
  - intros Hst. unfold ttree_item_from_cursor, ttree_key_from_cursor.
    rewrite (bool_decide_eq_false_2 _ Hst). done.
  - intros n key Hst Hn Hidx Hkey.
    assert (ttree_key_from_cursor m c = Some key) as Hk.
    { unfold ttree_key_from_cursor. rewrite (bool_decide_eq_true_2 _ Hst). rewrite Hn.
      simpl. unfold tnode_key. rewrite (bool_decide_eq_true_2 _ Hidx). by rewrite Hkey. }
    split; [done|]. unfold ttree_item_from_cursor. rewrite Hk. simpl. split.
    + intros Hnz. by rewrite (bool_decide_eq_false_2 _ Hnz).
    + intros Hz. by rewrite (bool_decide_eq_true_2 _ Hz).
Qed.

Lemma cursor_accessors_spec_witness :
  (ttree_key_from_cursor offset_key_mem (mkTtreeCursor 1 1 TNODE_BOUND CURSOR_PENDING)
   = Some NULL
   ∧ ttree_item_from_cursor offset_key_mem (mkTtreeCursor 1 1 TNODE_BOUND CURSOR_PENDING)
     = Some NULL)
  ∧ (ttree_key_from_cursor offset_key_mem (mkTtreeCursor 1 1 TNODE_BOUND CURSOR_OPENED)
     = Some 18
     ∧ ttree_item_from_cursor offset_key_mem (mkTtreeCursor 1 1 TNODE_BOUND CURSOR_OPENED)
       = Some 10).
Proof.
  split.
  - apply (proj1 (cursor_accessors_spec offset_key_mem
                    (mkTtreeCursor 1 1 TNODE_BOUND CURSOR_PENDING))).
    simpl; discriminate.
  - destruct (proj2 (cursor_accessors_spec offset_key_mem
                       (mkTtreeCursor 1 1 TNODE_BOUND CURSOR_OPENED))
                    (mkTtreeNode NULL NULL NULL NULL 1 1 0 0 [0; 18; 0; 0]) 18)
      as (Hkey & Hitem & _).
    + reflexivity.
    + reflexivity.
    + simpl. lia.
    + reflexivity.
    + split; [exact Hkey|]. apply Hitem. unfold NULL. lia.
Defined.

(** C10 as stated fails for an opened cursor on a slot that holds a null
    key, when the key offset of the tree is not 0: [ttree_item_from_cursor]
    returns [NULL], not the key minus the key offset. *)
Lemma opened_cursor_on_null_slot :
  state (mkTtreeCursor 1 0 TNODE_BOUND CURSOR_OPENED) = CURSOR_OPENED
  ∧ ttree_key_from_cursor offset_key_mem (mkTtreeCursor 1 0 TNODE_BOUND CURSOR_OPENED)
    = Some NULL
  ∧ ttree_item_from_cursor offset_key_mem (mkTtreeCursor 1 0 TNODE_BOUND CURSOR_OPENED)
    = Some NULL
  ∧ ttree_item_from_cursor offset_key_mem (mkTtreeCursor 1 0 TNODE_BOUND CURSOR_OPENED)
    ≠ Some (NULL - key_offs (tree offset_key_mem))
  ∧ NULL - key_offs (tree offset_key_mem) = -8.
Proof.
  split; [reflexivity|]. split; [reflexivity|]. split; [reflexivity|].
  split; [|reflexivity]. vm_compute. discriminate.
Qed.

(** ** Replacement *)

Lemma single_key_ops_mem : run_ops single_key_ops (empty_mem 4 true) = Some single_key_mem.
Proof. vm_compute. reflexivity. Qed.

(** C4. [ttree_replace] does not look its [key] argument up: the result is
    the same for every [key].  On the tree that holds the single key 10,
    where a lookup of 10 succeeds, replacing key 10 returns -1 and leaves
    the slot as it was whenever the address of the local cursor compares
    different from 10 (here the local lives at address 7000). *)
Theorem ttree_replace_misses_present_key :
  (∀ a g k k' item m, ttree_replace a g k item m = ttree_replace a g k' item m)
  ∧ fst <$> ttree_lookup single_key_mem 10 = Some 10
  ∧ (∀ g, ttree_replace 7000 g 10 10 single_key_mem = Some (-1, single_key_mem)).
Proof.
  split; [reflexivity|]. split; [vm_compute; reflexivity|].
  intros g. vm_compute. reflexivity.
Qed.

(** ** Order along the successor chain *)

(** C1. With four keys per node and unique keys, the eighteen calls of
    [lopsided_ops] leave the keys 5 10 20 30 40 45 50 80 in increasing
    order along the successor chain.  [ttree_delete] of key 5 then returns
    the item, and the chain reads 40 10 20 30 45 50 80: the double rotation
    run by the deletion fix-up refills the new subtree root from its left
    child with a null cursor, and the child keeps its largest key instead
    of its smallest. *)
Theorem delete_breaks_order :
  (m ← run_ops lopsided_ops (empty_mem 4 true); ttree_keys m)
  = Some [5; 10; 20; 30; 40; 45; 50; 80]
  ∧ (m ← run_ops lopsided_ops (empty_mem 4 true); ttree_ordered m) = Some true
  ∧ (m ← run_ops lopsided_ops (empty_mem 4 true); fst <$> ttree_delete 5 m) = Some 5
  ∧ (m ← run_ops lopsided_ops (empty_mem 4 true);
     '(_, m') ← ttree_delete 5 m; ttree_keys m')
    = Some [40; 10; 20; 30; 45; 50; 80]
  ∧ (m ← run_ops lopsided_ops (empty_mem 4 true);
     '(_, m') ← ttree_delete 5 m; ttree_ordered m')
    = Some false.
Proof. repeat split; vm_compute; reflexivity. Qed.

(** ** Bit-fields and key slots *)

Lemma sbf_id (w v : Z) : 0 < w → - 2 ^ (w - 1) ≤ v < 2 ^ (w - 1) → sbf w v = v.
Proof.
  intros Hw Hv. unfold sbf.
  assert (2 ^ w = 2 * 2 ^ (w - 1)) as ->.
  { replace w with (Z.succ (w - 1)) at 1 by lia. rewrite Z.pow_succ_r by lia. done. }
  rewrite Z.mod_small by lia. lia.
Qed.

Lemma sbf12_id (v : Z) : -2048 ≤ v ≤ 2047 → sbf 12 v = v.
Proof. intros. apply sbf_id; [lia|]. change (2 ^ (12 - 1)) with 2048. lia. Qed.

Lemma sbf4_id (v : Z) : -8 ≤ v ≤ 7 → sbf 4 v = v.
Proof. intros. apply sbf_id; [lia|]. change (2 ^ (4 - 1)) with 8. lia. Qed.

Lemma set_key_Some (i v : Z) (n : TtreeNode) :
  0 ≤ i < Z.of_nat (length (keys n)) →
  set_key i v n = Some (set_keys (<[Z.to_nat i := v]> (keys n)) n).
Proof. intros. unfold set_key. by rewrite bool_decide_eq_true_2. Qed.

Lemma set_key_inv (i v : Z) (n n' : TtreeNode) :
  set_key i v n = Some n' →
  0 ≤ i < Z.of_nat (length (keys n))
  ∧ links n' = links n ∧ bounds n' = bounds n
  ∧ length (keys n') = length (keys n)
  ∧ ∀ p, tnode_key n' p = if bool_decide (p = i) then v else tnode_key n p.
Proof.
  unfold set_key. case_bool_decide as Hi; [|done]. intros [= <-].
  split; [done|]. split; [done|]. split; [done|].
  split; [simpl; by rewrite length_insert|].
  intros p. unfold tnode_key. simpl.
  case_bool_decide as Hp.
  - case_bool_decide as Hpi.
    + subst p. rewrite list_lookup_insert_eq by lia. done.
    + rewrite list_lookup_insert_ne by lia. done.
  - rewrite bool_decide_eq_false_2 by lia. done.
Qed.

Lemma slide_keys_up (cnt : nat) (i : Z) (n : TtreeNode) :
  0 ≤ i → i + Z.of_nat cnt ≤ Z.of_nat (length (keys n)) →
  ∃ n', slide_keys cnt i 1 1 n = Some n'
        ∧ links n' = links n ∧ bounds n' = bounds n
        ∧ length (keys n') = length (keys n)
        ∧ ∀ p, tnode_key n' p
               = if bool_decide (i ≤ p < i + Z.of_nat cnt) then tnode_key n (p + 1)
                 else tnode_key n p.
Proof.
  revert i n. induction cnt as [|cnt IH]; intros i n Hi Hlen.
  - exists n. repeat split; try done. intros p.
    rewrite bool_decide_eq_false_2 by lia. done.
  - simpl. rewrite set_key_Some by lia. simpl.
    destruct (set_key_inv i (tnode_key n (i + 1)) n _ (set_key_Some i _ n ltac:(lia)))
      as (_ & Hl1 & Hb1 & Hlen1 & Hk1).
    destruct (IH (i + 1) (set_keys (<[Z.to_nat i:=tnode_key n (i + 1)]> (keys n)) n))
      as (n' & Hs & Hl & Hb & Hlen' & Hk); [lia|rewrite Hlen1; lia|].
    exists n'. split; [done|]. split; [congruence|]. split; [congruence|].
    split; [congruence|]. intros p. rewrite Hk, !Hk1.
    repeat case_bool_decide; try lia; try done.
    f_equal; lia.
Qed.

Lemma slide_keys_down (cnt : nat) (i : Z) (n : TtreeNode) :
  0 ≤ i - Z.of_nat cnt + 1 → i < Z.of_nat (length (keys n)) →
  ∃ n', slide_keys cnt i (-1) (-1) n = Some n'
        ∧ links n' = links n ∧ bounds n' = bounds n
        ∧ length (keys n') = length (keys n)
        ∧ ∀ p, tnode_key n' p
               = if bool_decide (i - Z.of_nat cnt < p ≤ i) then tnode_key n (p + -1)
                 else tnode_key n p.
Proof.
  revert i n. induction cnt as [|cnt IH]; intros i n Hi Hlen.
  - exists n. repeat split; try done. intros p.
    rewrite bool_decide_eq_false_2 by lia. done.
  - simpl. rewrite set_key_Some by lia. simpl.
    destruct (set_key_inv i (tnode_key n (i + -1)) n _ (set_key_Some i _ n ltac:(lia)))
      as (_ & Hl1 & Hb1 & Hlen1 & Hk1).
    destruct (IH (i + -1) (set_keys (<[Z.to_nat i:=tnode_key n (i + -1)]> (keys n)) n))
      as (n' & Hs & Hl & Hb & Hlen' & Hk); [lia|rewrite Hlen1; lia|].
    exists n'. split; [done|]. split; [congruence|]. split; [congruence|].
    split; [congruence|]. intros p. rewrite Hk, !Hk1.
    repeat case_bool_decide; try lia; try done.
    f_equal; lia.
Qed.

(** ** Growing and shrinking the window *)

Lemma key_slice_lookup (n : TtreeNode) (a : Z) (cnt q : nat) :
  key_slice n a cnt !! q
  = if bool_decide (q < cnt)%nat then Some (tnode_key n (a + Z.of_nat q)) else None.
Proof.
  unfold key_slice. rewrite list_lookup_fmap.
  case_bool_decide as Hq.
  - rewrite lookup_seq_lt by done. done.
  - rewrite lookup_seq_ge by lia. done.
Qed.

Lemma key_slice_length (n : TtreeNode) (a : Z) (cnt : nat) :
  length (key_slice n a cnt) = cnt.
Proof. unfold key_slice. by rewrite length_fmap, length_seq. Qed.

Lemma increase_tnode_window_grow (t : Ttree) (n : TtreeNode) (i : Z) :
  tnode_wf t n →
  tnode_num_keys n < keys_per_tnode t →
  min_idx n ≤ i ≤ max_idx n + 1 →
  ∃ n' i',
    increase_tnode_window t n i = Some (n', i')
    ∧ links n' = links n
    ∧ length (keys n') = length (keys n)
    ∧ (keys_per_tnode t - 1 - max_idx n > min_idx n →
         bounds n' = (min_idx n, max_idx n + 1) ∧ i' = i
         ∧ ∀ p, p ≠ i' →
             tnode_key n' p = if bool_decide (i < p ≤ max_idx n + 1)
                              then tnode_key n (p - 1) else tnode_key n p)
    ∧ (keys_per_tnode t - 1 - max_idx n ≤ min_idx n →
         bounds n' = (min_idx n - 1, max_idx n) ∧ i' = i - 1
         ∧ ∀ p, p ≠ i' →
             tnode_key n' p = if bool_decide (min_idx n - 1 ≤ p < i - 1)
                              then tnode_key n (p + 1) else tnode_key n p).
Proof.
  intros [Hlen Hmin Hmax Hwin Hfit] Hroom Hi.
  unfold tnode_num_keys in Hroom. unfold increase_tnode_window.
  case_bool_decide as Hside.
  - (* more free slots on the right *)
    assert (sbf 12 (max_idx n + 1) = max_idx n + 1) as Hsbf by (apply sbf12_id; lia).
    simpl. rewrite Hsbf.
    destruct (slide_keys_down (Z.to_nat (max_idx n + 1 - (i - 1))) (max_idx n + 1)
                (set_max_idx (max_idx n + 1) n))
      as (n' & Hs & Hl & Hb & Hlen' & Hk); [lia|simpl; lia|].
    rewrite Hs. simpl. exists n', i. split; [done|]. split; [done|]. split; [done|].
    split; [|lia]. intros _. split.
    { rewrite Hb. unfold bounds. simpl. by rewrite Hsbf. }
    split; [done|]. intros p Hp. rewrite Hk.
    replace (p + -1) with (p - 1) by lia.
    repeat case_bool_decide; try lia; done.
  - (* otherwise *)
    assert (sbf 12 (min_idx n - 1) = min_idx n - 1) as Hsbf by (apply sbf12_id; lia).
    simpl. rewrite Hsbf.
    destruct (slide_keys_up (Z.to_nat (i - 1 - (min_idx n - 1))) (min_idx n - 1)
                (set_min_idx (min_idx n - 1) n))
      as (n' & Hs & Hl & Hb & Hlen' & Hk); [lia|simpl; lia|].
    rewrite Hs. simpl. exists n', (i - 1). split; [done|]. split; [done|]. split; [done|].
    split; [lia|]. intros _. split.
    { rewrite Hb. unfold bounds. simpl. by rewrite Hsbf. }
    split; [done|]. intros p Hp. rewrite Hk.
    repeat case_bool_decide; try lia; done.
Qed.

Lemma insert_at_lookup (j : nat) (k : Z) (w : list Z) (q : nat) :
  (j ≤ length w)%nat →
  insert_at j k w !! q
  = if bool_decide (q < j)%nat then w !! q
    else if bool_decide (q = j) then Some k else w !! (q - 1)%nat.
Proof.
  intros Hj. unfold insert_at.
  case_bool_decide as Hq.
  - rewrite lookup_app_l by (rewrite length_take; lia).
    by rewrite lookup_take_lt.
  - rewrite lookup_app_r by (rewrite length_take; lia).
    rewrite length_take, Nat.min_l by lia.
    case_bool_decide as Hqj.
    + subst q. by rewrite Nat.sub_diag.
    + destruct (q - j)%nat as [|r] eqn:Hr; [lia|]. simpl.
      rewrite lookup_drop. f_equal. lia.
Qed.

Lemma remove_at_lookup (j : nat) (w : list Z) (q : nat) :
  (j < length w)%nat →
  remove_at j w !! q = if bool_decide (q < j)%nat then w !! q else w !! (S q).
Proof.
  intros Hj. unfold remove_at.
  case_bool_decide as Hq.
  - rewrite lookup_app_l by (rewrite length_take; lia).
    by rewrite lookup_take_lt.
  - rewrite lookup_app_r by (rewrite length_take; lia).
    rewrite length_take, Nat.min_l by lia.
    rewrite lookup_drop. f_equal. lia.
Qed.

Lemma tnode_window_lookup (n : TtreeNode) (q : nat) :
  tnode_window n !! q
  = if bool_decide (Z.of_nat q < tnode_num_keys n)
    then Some (tnode_key n (min_idx n + Z.of_nat q)) else None.
Proof.
  unfold tnode_window. rewrite key_slice_lookup.
  repeat case_bool_decide; try lia; done.
Qed.

Lemma tnode_window_length (n : TtreeNode) :
  length (tnode_window n) = Z.to_nat (tnode_num_keys n).
Proof. apply key_slice_length. Qed.

(** Growing the window and storing a key in the slot made free puts the
    key at logical position [i - min_idx] of the window. *)
Lemma increase_then_store (t : Ttree) (n : TtreeNode) (i k : Z) :
  tnode_wf t n →
  tnode_num_keys n < keys_per_tnode t →
  min_idx n ≤ i ≤ max_idx n + 1 →
  ∃ n' i' n'',
    increase_tnode_window t n i = Some (n', i')
    ∧ set_key i' k n' = Some n''
    ∧ links n'' = links n
    ∧ tnode_wf t n''
    ∧ tnode_num_keys n'' = tnode_num_keys n + 1
    ∧ i' - min_idx n'' = i - min_idx n
    ∧ tnode_window n'' = insert_at (Z.to_nat (i - min_idx n)) k (tnode_window n).
Proof.
  intros Hwf Hroom Hi.
  destruct (increase_tnode_window_grow t n i Hwf Hroom Hi)
    as (n' & i' & Hinc & Hl & Hlen & Hright & Hleft).
  destruct Hwf as [Hwl Hmin Hmax Hwin Hfit].
  unfold tnode_num_keys in Hroom.
  assert (∃ n'', set_key i' k n' = Some n'') as [n'' Hset].
  { eexists. apply set_key_Some. rewrite Hlen.
    destruct (decide (keys_per_tnode t - 1 - max_idx n > min_idx n)) as [Hs|Hs].
    - destruct (Hright Hs) as (_ & -> & _). lia.
    - destruct (Hleft ltac:(lia)) as (_ & -> & _). lia. }
  destruct (set_key_inv _ _ _ _ Hset) as (Hir & Hl2 & Hb2 & Hlen2 & Hk2).
  exists n', i', n''. split; [done|]. split; [done|]. split; [congruence|].
  unfold bounds in *.
  destruct (decide (keys_per_tnode t - 1 - max_idx n > min_idx n)) as [Hs|Hs].
  - destruct (Hright Hs) as (Hb & -> & Hk). injection Hb as Hb1 Hb3.
    injection Hb2 as Hb21 Hb22.
    split; [constructor; lia|]. unfold tnode_num_keys.
    split; [lia|]. split; [lia|].
    apply list_eq. intros q.
    rewrite insert_at_lookup by (rewrite tnode_window_length; unfold tnode_num_keys; lia).
    rewrite !tnode_window_lookup. unfold tnode_num_keys.
    rewrite Hb21, Hb22, Hb1, Hb3.
    rewrite Hk2.
    repeat case_bool_decide; try lia; try done.
    + rewrite Hk by lia. rewrite bool_decide_eq_false_2 by lia. done.
    + rewrite Hk by lia. rewrite bool_decide_eq_true_2 by lia. do 2 f_equal. lia.
  - destruct (Hleft ltac:(lia)) as (Hb & -> & Hk). injection Hb as Hb1 Hb3.
    injection Hb2 as Hb21 Hb22.
    split; [constructor; lia|]. unfold tnode_num_keys.
    split; [lia|]. split; [lia|].
    apply list_eq. intros q.
    rewrite insert_at_lookup by (rewrite tnode_window_length; unfold tnode_num_keys; lia).
    rewrite !tnode_window_lookup. unfold tnode_num_keys.
    rewrite Hb21, Hb22, Hb1, Hb3.
    rewrite Hk2.
    repeat case_bool_decide; try lia; try done.
    + rewrite Hk by lia. rewrite bool_decide_eq_true_2 by lia. do 2 f_equal. lia.
    + rewrite Hk by lia. rewrite bool_decide_eq_false_2 by lia. do 2 f_equal. lia.
Qed.

Lemma tnode_key_set_min_idx (v : Z) (n : TtreeNode) (p : Z) :
  tnode_key (set_min_idx v n) p = tnode_key n p.
Proof. reflexivity. Qed.

Lemma tnode_key_set_max_idx (v : Z) (n : TtreeNode) (p : Z) :
  tnode_key (set_max_idx v n) p = tnode_key n p.
Proof. reflexivity. Qed.

(** Shrinking the window at slot [i] removes the key at logical position
    [i - min_idx]. *)
Lemma decrease_tnode_window_shrink (t : Ttree) (n : TtreeNode) (i : Z) :
  tnode_wf t n →
  min_idx n ≤ i ≤ max_idx n →
  ∃ n' i',
    decrease_tnode_window t n i = Some (n', i')
    ∧ links n' = links n
    ∧ tnode_wf t n'
    ∧ tnode_num_keys n' = tnode_num_keys n - 1
    ∧ tnode_window n' = remove_at (Z.to_nat (i - min_idx n)) (tnode_window n).
Proof.
  intros [Hwl Hmin Hmax Hwin Hfit] Hi. unfold decrease_tnode_window.
  case_bool_decide as Hside.
  - assert (sbf 12 (max_idx n - 1) = max_idx n - 1) as Hsbf by (apply sbf12_id; lia).
    simpl. rewrite Hsbf.
    destruct (slide_keys_up (Z.to_nat (max_idx n - 1 - i + 1)) i
                (set_max_idx (max_idx n - 1) n))
      as (n' & Hs & Hl & Hb & Hlen' & Hk); [lia|simpl; lia|].
    rewrite Hs. simpl. exists n', i. split; [done|]. split; [done|].
    unfold bounds in Hb. simpl in Hb. rewrite Hsbf in Hb. injection Hb as Hb1 Hb2.
    simpl in Hlen'.
    split; [constructor; lia|]. unfold tnode_num_keys. split; [lia|].
    apply list_eq. intros q.
    rewrite remove_at_lookup by (rewrite tnode_window_length; unfold tnode_num_keys; lia).
    rewrite !tnode_window_lookup. unfold tnode_num_keys. rewrite Hb1, Hb2, !Hk.
    rewrite !tnode_key_set_max_idx.
    repeat case_bool_decide; try lia; try done.
    do 2 f_equal. lia.
  - assert (sbf 12 (min_idx n + 1) = min_idx n + 1) as Hsbf by (apply sbf12_id; lia).
    simpl. rewrite Hsbf.
    destruct (slide_keys_down (Z.to_nat (i - (min_idx n + 1) + 1)) i
                (set_min_idx (min_idx n + 1) n))
      as (n' & Hs & Hl & Hb & Hlen' & Hk); [lia|simpl; lia|].
    rewrite Hs. simpl. exists n', (i + 1). split; [done|]. split; [done|].
    unfold bounds in Hb. simpl in Hb. rewrite Hsbf in Hb. injection Hb as Hb1 Hb2.
    simpl in Hlen'.
    split; [constructor; lia|]. unfold tnode_num_keys. split; [lia|].
    apply list_eq. intros q.
    rewrite remove_at_lookup by (rewrite tnode_window_length; unfold tnode_num_keys; lia).
    rewrite !tnode_window_lookup. unfold tnode_num_keys. rewrite Hb1, Hb2, !Hk.
    rewrite !tnode_key_set_min_idx.
    repeat case_bool_decide; try lia; try done.
    all: do 2 f_equal; lia.
Qed.

(** C5 (as amended).  In a well-formed node that is not full, growing the
    window for an insertion at slot [i] adds one slot on the right when the
    right side has strictly more free slots than the left, and one slot on
    the left otherwise, a tie included.  Growing to the right moves the
    keys of slots [i .. max_idx] up by one; growing to the left moves the
    keys of slots [min_idx .. i - 1] down by one and the insertion slot
    becomes [i - 1].  Every other slot keeps its key, so a key stored in
    the insertion slot ends up at position [i - min_idx] of the old
    window, and the window is one key longer. *)
Theorem increase_tnode_window_spec (t : Ttree) (n : TtreeNode) (i : Z) :
  tnode_wf t n →
  tnode_num_keys n < keys_per_tnode t →
  min_idx n ≤ i ≤ max_idx n + 1 →
  ∃ n' i',
    increase_tnode_window t n i = Some (n', i')
    ∧ links n' = links n
    ∧ length (keys n') = length (keys n)
    ∧ (keys_per_tnode t - 1 - max_idx n > min_idx n →
         bounds n' = (min_idx n, max_idx n + 1) ∧ i' = i
         ∧ ∀ p, p ≠ i' →
             tnode_key n' p = if bool_decide (i < p ≤ max_idx n + 1)
                              then tnode_key n (p - 1) else tnode_key n p)
    ∧ (keys_per_tnode t - 1 - max_idx n ≤ min_idx n →
         bounds n' = (min_idx n - 1, max_idx n) ∧ i' = i - 1
         ∧ ∀ p, p ≠ i' →
             tnode_key n' p = if bool_decide (min_idx n - 1 ≤ p < i - 1)
                              then tnode_key n (p + 1) else tnode_key n p)
    ∧ (∀ k, ∃ n'',
         set_key i' k n' = Some n''
         ∧ tnode_num_keys n'' = tnode_num_keys n + 1
         ∧ tnode_window n'' = insert_at (Z.to_nat (i - min_idx n)) k (tnode_window n)).
Proof.
  intros Hwf Hlt Hi.
  destruct (increase_tnode_window_grow t n i Hwf Hlt Hi)
    as (n' & i' & Hinc & Hl & Hlen & Hright & Hleft).
  exists n', i'. do 5 (split; [done|]).
  intros k.
  destruct (increase_then_store t n i k Hwf Hlt Hi)
    as (n0 & i0 & n'' & Hinc' & Hset & _ & _ & Hnk & _ & Hw).
  rewrite Hinc in Hinc'. injection Hinc' as <- <-.
  by exists n''.
Qed.

Lemma tie_node_wf : tnode_wf tree4 tie_node.
Proof. constructor; simpl; lia. Qed.

Lemma increase_tnode_window_spec_witness :
  ∃ n' i',
    increase_tnode_window tree4 tie_node 3 = Some (n', i')
    ∧ links n' = links tie_node
    ∧ length (keys n') = length (keys tie_node)
    ∧ (keys_per_tnode tree4 - 1 - max_idx tie_node > min_idx tie_node →
         bounds n' = (min_idx tie_node, max_idx tie_node + 1) ∧ i' = 3
         ∧ ∀ p, p ≠ i' →
             tnode_key n' p = if bool_decide (3 < p ≤ max_idx tie_node + 1)
                              then tnode_key tie_node (p - 1) else tnode_key tie_node p)
    ∧ (keys_per_tnode tree4 - 1 - max_idx tie_node ≤ min_idx tie_node →
         bounds n' = (min_idx tie_node - 1, max_idx tie_node) ∧ i' = 3 - 1
         ∧ ∀ p, p ≠ i' →
             tnode_key n' p = if bool_decide (min_idx tie_node - 1 ≤ p < 3 - 1)
                              then tnode_key tie_node (p + 1) else tnode_key tie_node p)
    ∧ (∀ k, ∃ n'',
         set_key i' k n' = Some n''
         ∧ tnode_num_keys n'' = tnode_num_keys tie_node + 1
         ∧ tnode_window n''
           = insert_at (Z.to_nat (3 - min_idx tie_node)) k (tnode_window tie_node)).
Proof.
  apply (increase_tnode_window_spec tree4 tie_node 3).
  - exact tie_node_wf.
  - unfold tnode_num_keys; simpl; lia.
  - simpl; lia.
Defined.

(** C5 as stated fails on a tie: the root left by [Insert 10; Insert 20]
    has one free slot on each side, and growing it for an insertion after
    its last key extends the window to slot 0, not to slot 3. *)
Lemma increase_tnode_window_tie_grows_left :
  (m ← run_ops [Insert 10; Insert 20] (empty_mem 4 true); load m 1) = Some tie_node
  ∧ keys_per_tnode tree4 - 1 - max_idx tie_node = min_idx tie_node
  ∧ ∃ n' i', increase_tnode_window tree4 tie_node 3 = Some (n', i')
             ∧ bounds n' = (0, 2)
             ∧ bounds n' ≠ (min_idx tie_node, max_idx tie_node + 1).
Proof.
  split; [vm_compute; reflexivity|]. split; [reflexivity|].
  eexists _, _. split; [vm_compute; reflexivity|]. split; [reflexivity|].
  simpl. intros [=].
Qed.

(** ** Deletion above the low-water mark *)

Lemma slide_keys_links (cnt : nat) (i step off : Z) (n n' : TtreeNode) :
  slide_keys cnt i step off n = Some n' →
  links n' = links n ∧ bounds n' = bounds n ∧ length (keys n') = length (keys n).
Proof.
  revert i n. induction cnt as [|cnt IH]; intros i n; simpl.
  - by intros [= <-].
  - destruct (set_key i (tnode_key n (i + off)) n) as [n1|] eqn:Hset; [|done]. simpl.
    intros Hs. destruct (IH _ _ Hs) as (Hl & Hb & Hlen).
    destruct (set_key_inv _ _ _ _ Hset) as (_ & Hl1 & Hb1 & Hlen1 & _).
    split; [congruence|]. split; congruence.
Qed.

Lemma decrease_tnode_window_links (t : Ttree) (n n' : TtreeNode) (i i' : Z) :
  decrease_tnode_window t n i = Some (n', i') → links n' = links n.
Proof.
  unfold decrease_tnode_window. case_bool_decide.
  - destruct (slide_keys _ _ _ _ _) as [n2|] eqn:Hs; [|done]. simpl. intros [= <- <-].
    by destruct (slide_keys_links _ _ _ _ _ _ Hs) as (-> & _).
  - destruct (slide_keys _ _ _ _ _) as [n2|] eqn:Hs; [|done]. simpl. intros [= <- <-].
    by destruct (slide_keys_links _ _ _ _ _ _ Hs) as (-> & _).
Qed.

Lemma min_tnode_entries_div (t : Ttree) :
  min_tnode_entries t = keys_per_tnode t - keys_per_tnode t / 4.
Proof. unfold min_tnode_entries. by rewrite Z.shiftr_div_pow2. Qed.

Lemma load_store (p q : ptr) (n : TtreeNode) (m : mem) :
  load (store p n m) q = if decide (p = q) then Some n else load m q.
Proof. unfold load, store. simpl. apply lookup_insert. Qed.

Lemma load_store_eq (p : ptr) (n : TtreeNode) (m : mem) : load (store p n m) p = Some n.
Proof. rewrite load_store. by rewrite decide_True. Qed.

Lemma load_store_ne (p q : ptr) (n : TtreeNode) (m : mem) :
  p ≠ q → load (store p n m) q = load m q.
Proof. intros. rewrite load_store. by rewrite decide_False. Qed.

Lemma dom_store (p : ptr) (n n0 : TtreeNode) (m : mem) :
  load m p = Some n0 → dom (nodes (store p n m)) = dom (nodes m).
Proof.
  intros Hp. unfold store. simpl. rewrite dom_insert_L.
  apply subseteq_union_1_L, singleton_subseteq_l, elem_of_dom. by exists n0.
Qed.

(** C7.  When [ttree_delete_at_cursor] has contracted the window of the
    cursor's node and the node still holds more than
    [keys_per_tnode - keys_per_tnode / 4] keys, the call returns there:
    the tree handle, the set of allocated nodes and every other node are
    as before, and the node itself differs from what it was only in its
    window (bounds and key slots): no key was borrowed, nothing was
    merged, freed or rotated.  The cursor is left closed. *)
Theorem delete_above_low_water (c : TtreeCursor) (m : mem) (tn tn1 : TtreeNode) (i : Z) :
  state c = CURSOR_OPENED →
  load m (tnode c) = Some tn →
  decrease_tnode_window (tree m) tn (idx c) = Some (tn1, i) →
  tnode_num_keys tn1 > keys_per_tnode (tree m) - keys_per_tnode (tree m) / 4 →
  ∃ m' c',
    ttree_delete_at_cursor c m
    = Some (m', ttree_key2item (tree m) (tnode_key tn (idx c)), c')
    ∧ state c' = CURSOR_CLOSED
    ∧ tree m' = tree m
    ∧ brk m' = brk m
    ∧ dom (nodes m') = dom (nodes m)
    ∧ (∀ p, p ≠ tnode c → load m' p = load m p)
    ∧ load m' (tnode c) = Some tn1
    ∧ links tn1 = links tn.
Proof.
  intros Hst Hload Hdec Hkeys. unfold ttree_delete_at_cursor.
  rewrite (bool_decide_eq_true_2 _ Hst). simpl. rewrite Hload. simpl.
  rewrite Hdec. simpl.
  rewrite min_tnode_entries_div, (bool_decide_eq_true_2 _ Hkeys).
  eexists _, _. split; [reflexivity|].
  split. { by case_bool_decide. }
  split; [done|]. split; [done|].
  split. { by eapply dom_store. }
  split. { intros p Hp. by apply load_store_ne. }
  split. { apply load_store_eq. }
  by eapply decrease_tnode_window_links.
Qed.

Lemma delete_above_low_water_witness :
  ∃ m' c',
    ttree_delete_at_cursor (mkTtreeCursor 1 4 TNODE_BOUND CURSOR_OPENED) full8_mem
    = Some (m', 50, c')
    ∧ state c' = CURSOR_CLOSED
    ∧ tree m' = tree8
    ∧ brk m' = 2
    ∧ dom (nodes m') = dom (nodes full8_mem)
    ∧ (∀ p, p ≠ 1 → load m' p = load full8_mem p)
    ∧ load m' 1
      = Some (mkTtreeNode NULL NULL NULL NULL 0 6 0 0 [10; 20; 30; 40; 60; 70; 80; 80])
    ∧ links (mkTtreeNode NULL NULL NULL NULL 0 6 0 0 [10; 20; 30; 40; 60; 70; 80; 80])
      = links full8_node.
Proof.
  apply (delete_above_low_water (mkTtreeCursor 1 4 TNODE_BOUND CURSOR_OPENED)
           full8_mem full8_node
           (mkTtreeNode NULL NULL NULL NULL 0 6 0 0 [10; 20; 30; 40; 60; 70; 80; 80]) 4).
  - reflexivity.
  - reflexivity.
  - vm_compute. reflexivity.
  - vm_compute. reflexivity.
Defined.

(** ** Insertion into a full node *)

Lemma first_tnode_idx_range (t : Ttree) :
  2 ≤ keys_per_tnode t →
  0 ≤ first_tnode_idx t < keys_per_tnode t
  ∧ 2 * first_tnode_idx t ≤ keys_per_tnode t.
Proof.
  intros HM. unfold first_tnode_idx. rewrite Z.shiftr_div_pow2 by lia.
  change (2 ^ 1) with 2.
  pose proof (Z.div_mod (keys_per_tnode t) 2 ltac:(lia)).
  pose proof (Z.mod_pos_bound (keys_per_tnode t) 2 ltac:(lia)). lia.
Qed.

Lemma update_Some (p : ptr) (f : TtreeNode → TtreeNode) (m : mem) (n : TtreeNode) :
  load m p = Some n → update p f m = Some (store p (f n) m).
Proof. intros H. unfold update. by rewrite H. Qed.

Lemma update_opt_Some (p : ptr) (f : TtreeNode → option TtreeNode) (m : mem)
    (n n' : TtreeNode) :
  load m p = Some n → f n = Some n' → update_opt p f m = Some (store p n' m).
Proof. intros H Hf. unfold update_opt. rewrite H. simpl. by rewrite Hf. Qed.

Lemma tnode_get_set_side (sd : Z) (n : TtreeNode) :
  node_side n = 0 → sd = 0 ∨ sd = 1 → tnode_get_side (tnode_set_side sd n) = sd.
Proof. intros Hn [-> | ->]; unfold tnode_get_side, tnode_set_side; simpl; rewrite Hn; done. Qed.

Lemma create_new_node_spec (cur : TtreeCursor) (at_node : ptr) (key : Z) (m : mem)
    (an : TtreeNode) :
  2 ≤ keys_per_tnode (tree m) ≤ 2048 →
  load m at_node = Some an →
  load m (brk m) = None →
  side cur = TNODE_LEFT ∨ side cur = TNODE_RIGHT →
  idx cur = first_tnode_idx (tree m) →
  ∃ m2, new_leaf_linked m m2 at_node (side cur) key
        ∧ create_new_node cur at_node key m
          = fixup_after_insertion (brk m) (set_state CURSOR_OPENED (set_tnode (brk m) cur)) m2.
Proof.
  intros HM Han Hfresh Hsd Hidx.
  destruct (first_tnode_idx_range (tree m) ltac:(lia)) as [Hf1 Hf2].
  assert (at_node ≠ brk m) as Hne by (intros ->; congruence).
  unfold create_new_node, allocate_ttree_node.
  set (fresh := mkTtreeNode NULL NULL NULL NULL 0 0 0 0
                  (replicate (Z.to_nat (keys_per_tnode (tree m))) 0)).
  set (m0 := mkMem (tree m) (<[brk m:=fresh]> (nodes m)) (brk m + 1)).
  assert (load m0 (brk m) = Some fresh) as H0 by apply lookup_insert_eq.
  assert (∀ p, p ≠ brk m → load m0 p = load m p) as H0ne.
  { intros p Hp. unfold load, m0. simpl. by rewrite lookup_insert_ne. }
  assert (∃ an', set_sides (side cur) (brk m) an = Some an') as [an' Han'].
  { destruct Hsd as [-> | ->]; eexists; reflexivity. }
  eexists. split; cycle 1.
  { rewrite Hidx.
    erewrite update_opt_Some;
      [|exact H0|apply set_key_Some; simpl; rewrite length_replicate; lia].
    simpl. erewrite update_Some by apply load_store_eq. simpl.
    rewrite load_store_eq. simpl.
    erewrite update_Some by apply load_store_eq. simpl.
    erewrite update_Some by apply load_store_eq. simpl.
    rewrite sbf12_id by lia.
    erewrite update_opt_Some;
      [| rewrite !load_store_ne by done; rewrite H0ne by done; exact Han | exact Han'].
    simpl. erewrite update_Some by (rewrite load_store_ne by done; apply load_store_eq).
    simpl. reflexivity. }
  split; [done|]. split; [done|].
  split.
  { eexists. split; [apply load_store_eq|].
    split; [done|]. split; [done|]. split; [done|].
    split. { apply tnode_get_set_side; [done|]. exact Hsd. }
    split; [done|].
    unfold tnode_window, tnode_num_keys, key_slice. simpl.
    rewrite sbf12_id by lia.
    replace (first_tnode_idx (tree m) - first_tnode_idx (tree m) + 1) with 1 by lia.
    simpl. unfold tnode_key. simpl. rewrite bool_decide_eq_true_2 by lia.
    rewrite Z.add_0_r, list_lookup_insert_eq by (rewrite length_replicate; lia). done. }
  split.
  { exists an. split; [done|].
    rewrite load_store_ne by done. rewrite load_store_eq. done. }
  intros p Hp1 Hp2. rewrite !load_store_ne by done. by apply H0ne.
Qed.

Lemma full_node_bounds (t : Ttree) (n : TtreeNode) :
  tnode_wf t n → tnode_is_full t n = true →
  min_idx n = 0 ∧ max_idx n = keys_per_tnode t - 1.
Proof.
  intros [Hl Hmin Hmax Hwin Hfit] Hfull. unfold tnode_is_full in Hfull.
  apply bool_decide_eq_true in Hfull. unfold tnode_num_keys in Hfull. lia.
Qed.

(** Dropping the maximum key of a window. *)
Lemma drop_max_window (t : Ttree) (n : TtreeNode) :
  tnode_wf t n → min_idx n ≤ max_idx n →
  tnode_wf t (set_max_idx (max_idx n - 1) n)
  ∧ tnode_num_keys (set_max_idx (max_idx n - 1) n) = tnode_num_keys n - 1
  ∧ min_idx (set_max_idx (max_idx n - 1) n) = min_idx n
  ∧ max_idx (set_max_idx (max_idx n - 1) n) = max_idx n - 1
  ∧ tnode_window (set_max_idx (max_idx n - 1) n) = drop_last (tnode_window n).
Proof.
  intros [Hl Hmin Hmax Hwin Hfit] Hne.
  assert (sbf 12 (max_idx n - 1) = max_idx n - 1) as Hsbf by (apply sbf12_id; lia).
  assert (max_idx (set_max_idx (max_idx n - 1) n) = max_idx n - 1) as Hmx by done.
  split. { constructor; simpl; rewrite ?Hsbf; lia. }
  unfold tnode_num_keys. rewrite Hmx. simpl.
  split; [lia|]. split; [done|]. split; [done|].
  apply list_eq. intros q. unfold drop_last.
  rewrite tnode_window_lookup, tnode_window_length. unfold tnode_num_keys. rewrite Hmx.
  simpl min_idx. rewrite tnode_key_set_max_idx.
  case_bool_decide as Hq.
  - rewrite lookup_take_lt by lia. rewrite tnode_window_lookup. unfold tnode_num_keys.
    rewrite bool_decide_eq_true_2 by lia. done.
  - rewrite lookup_take_ge by lia. done.
Qed.

(** C2 (as amended).  A bound insertion into a full, well-formed node
    drops the node's maximum key from the window and puts the new key at
    the cursor's position; the node is full again.  The displaced maximum
    goes to a new leaf linked as the right child of the node when the node
    has no right child or no successor; otherwise to a new leaf linked as
    the left child of the successor when the successor is full; otherwise
    in front of the successor's window.  After a new leaf is linked the
    fix-up walk runs from it. *)
Theorem insert_into_full_node (c : TtreeCursor) (item : Z) (m : mem) (n : TtreeNode) :
  root (tree m) ≠ NULL →
  side c = TNODE_BOUND →
  load m (tnode c) = Some n →
  tnode_wf (tree m) n →
  2 ≤ keys_per_tnode (tree m) →
  tnode_is_full (tree m) n = true →
  min_idx n ≤ idx c ≤ max_idx n →
  load m (brk m) = None →
  ∃ n3,
    links n3 = links n
    ∧ tnode_num_keys n3 = keys_per_tnode (tree m)
    ∧ tnode_window n3
      = insert_at (Z.to_nat (idx c - min_idx n)) (ttree_item2key (tree m) item)
                  (drop_last (tnode_window n))
    ∧ (right n = NULL ∨ successor n = NULL →
         ∃ m2, new_leaf_linked (store (tnode c) n3 m) m2 (tnode c) TNODE_RIGHT
                               (tnode_key_max n)
               ∧ ttree_insert_at_cursor c item m = finish_insert (brk m) TNODE_RIGHT c m2)
    ∧ (right n ≠ NULL → successor n ≠ NULL →
         ∀ sn, load (store (tnode c) n3 m) (successor n) = Some sn →
           (tnode_is_full (tree m) sn = true →
              ∃ m2, new_leaf_linked (store (tnode c) n3 m) m2 (successor n) TNODE_LEFT
                                    (tnode_key_max n)
                    ∧ ttree_insert_at_cursor c item m
                      = finish_insert (brk m) TNODE_LEFT c m2)
           ∧ (tnode_is_full (tree m) sn = false → tnode_wf (tree m) sn →
                ∃ sn', links sn' = links sn
                       ∧ tnode_window sn' = tnode_key_max n :: tnode_window sn
                       ∧ ttree_insert_at_cursor c item m
                         = Some (store (successor n) sn' (store (tnode c) n3 m), c))).
Proof.
  intros Hroot Hside Hload Hwf HM Hfull Hidx Hfresh.
  destruct (full_node_bounds _ _ Hwf Hfull) as [Hmin0 HmaxM].
  pose proof (wf_fits _ _ Hwf) as Hfit.
  destruct (drop_max_window _ _ Hwf ltac:(lia)) as (Hwf1 & Hnk1 & Hmin1 & Hmax1 & Hw1).
  set (n1 := set_max_idx (max_idx n - 1) n) in *.
  assert (tnode_num_keys n1 < keys_per_tnode (tree m)) as Hroom1.
  { rewrite Hnk1. unfold tnode_num_keys. lia. }
  destruct (increase_then_store (tree m) n1 (idx c) (ttree_item2key (tree m) item)
              Hwf1 Hroom1 ltac:(lia))
    as (n2 & i' & n3 & Hinc & Hset & Hl3 & Hwf3 & Hnk3 & Hi' & Hw3).
  assert (tnode_num_keys n3 = keys_per_tnode (tree m)) as Hnk3'.
  { rewrite Hnk3, Hnk1. unfold tnode_num_keys. lia. }
  assert (i' = idx c) as ->.
  { destruct Hwf3 as [? ? ? ? ?]. unfold tnode_num_keys in Hnk3'. lia. }
  assert (links n3 = links n) as Hl by (rewrite Hl3; done).
  assert (successor n3 = successor n ∧ right n3 = right n) as [Hsucc Hright].
  { unfold links in Hl. by injection Hl as _ -> _ -> _ _. }
  exists n3. split; [done|]. split; [done|].
  split. { rewrite Hw3, Hw1, Hmin1. done. }
  assert (tnode c ≠ brk m) as Hne by (intros Heq; rewrite Heq in Hload; congruence).
  assert (∀ r : option (mem * TtreeCursor * list fixup_event),
            (r ≫= (λ '(m', c0, _), Some (m', c0))) = r ≫= (λ '(m', c0, _), Some (m', c0)))
    as _ by done.
  assert (ttree_insert_at_cursor c item m
          = if bool_decide (successor n = NULL) || bool_decide (right n = NULL) then
              '(m', _, _) ← create_new_node
                  (mkTtreeCursor (tnode c) (first_tnode_idx (tree m)) TNODE_RIGHT (state c))
                  (tnode c) (tnode_key_max n) (store (tnode c) n3 m);
              Some (m', c)
            else
              an ← load (store (tnode c) n3 m) (successor n);
              if tnode_is_full (tree m) an then
                '(m', _, _) ← create_new_node
                    (mkTtreeCursor (tnode c) (first_tnode_idx (tree m)) TNODE_LEFT (state c))
                    (successor n) (tnode_key_max n) (store (tnode c) n3 m);
                Some (m', c)
              else
                '(an1, i) ← increase_tnode_window (tree m) an (min_idx an);
                an2 ← set_key i (tnode_key_max n) an1;
                Some (store (successor n) an2 (store (tnode c) n3 m), c)) as Hunf.
  { unfold ttree_insert_at_cursor, ttree_insert_at_cursor_ev, tnode_key_max.
    rewrite (bool_decide_eq_false_2 _ Hroot), (bool_decide_eq_true_2 _ Hside).
    simpl. rewrite Hload. simpl. rewrite Hfull. fold n1. rewrite Hinc. simpl.
    rewrite Hset. simpl. rewrite Hsucc, Hright.
    destruct c as [ctn cidx cside cstate]; simpl in *.
    destruct (bool_decide (successor n = NULL) || bool_decide (right n = NULL)).
    - unfold set_idx, set_side; simpl.
      destruct (create_new_node _ _ _ _) as [[[? ?] ?]|]; done.
    - destruct (load _ (successor n)) as [an|]; [|done]. simpl.
      destruct (tnode_is_full (tree m) an).
      + unfold set_idx, set_side; simpl.
        destruct (create_new_node _ _ _ _) as [[[? ?] ?]|]; done.
      + unfold set_idx, set_tnode; simpl.
        destruct (increase_tnode_window (tree m) an (min_idx an)) as [[an1 i]|]; [|done].
        simpl. destruct (set_key i (tnode_key n (max_idx n)) an1) as [an2|]; done. }
  split.
  - intros Hno. rewrite Hunf.
    assert (bool_decide (successor n = NULL) || bool_decide (right n = NULL) = true) as ->.
    { destruct Hno as [H|H].
      - rewrite (bool_decide_eq_true_2 _ H). apply orb_true_r.
      - by rewrite (bool_decide_eq_true_2 _ H). }
    destruct (create_new_node_spec
                (mkTtreeCursor (tnode c) (first_tnode_idx (tree m)) TNODE_RIGHT (state c))
                (tnode c) (tnode_key_max n) (store (tnode c) n3 m) n3)
      as (m2 & Hlinked & Hcreate);
      [simpl; lia | apply load_store_eq | by rewrite load_store_ne | by right | done |].
    exists m2. split; [done|]. rewrite Hcreate. unfold finish_insert.
      destruct Hlinked as (-> & _). done.
  - intros Hr Hs sn Hsn. rewrite Hunf.
    rewrite (bool_decide_eq_false_2 _ Hs), (bool_decide_eq_false_2 _ Hr). simpl.
    rewrite Hsn. simpl. split.
    + intros Hsfull. rewrite Hsfull.
      destruct (create_new_node_spec
                  (mkTtreeCursor (tnode c) (first_tnode_idx (tree m)) TNODE_LEFT (state c))
                  (successor n) (tnode_key_max n) (store (tnode c) n3 m) sn)
        as (m2 & Hlinked & Hcreate);
        [simpl; lia | done | by rewrite load_store_ne | by left | done |].
      exists m2. split; [done|]. rewrite Hcreate. unfold finish_insert.
        destruct Hlinked as (-> & _). done.
    + intros Hsroom Hwfs. rewrite Hsroom.
      assert (tnode_num_keys sn < keys_per_tnode (tree m)) as Hroom.
      { unfold tnode_is_full in Hsroom. apply bool_decide_eq_false in Hsroom.
        destruct Hwfs as [? ? ? ? ?]. unfold tnode_num_keys in *. lia. }
      destruct (increase_then_store (tree m) sn (min_idx sn) (tnode_key_max n)
                  Hwfs Hroom)
        as (sn1 & j & sn2 & Hinc2 & Hset2 & Hl2 & _ & _ & _ & Hw2).
      { destruct Hwfs as [? ? ? ? ?]. lia. }
      rewrite Hinc2. simpl. rewrite Hset2. simpl.
      exists sn2. split; [done|]. split; [|done].
      rewrite Hw2, Z.sub_diag. done.
Qed.

Lemma insert_into_full_node_witness :
  ∃ n3 m2,
    tnode_window n3 = [10; 20; 30; 40; 45; 50; 60; 70]
    ∧ new_leaf_linked (store 1 n3 full8_mem) m2 1 TNODE_RIGHT 80
    ∧ ttree_insert_at_cursor (mkTtreeCursor 1 4 TNODE_BOUND CURSOR_PENDING) 45 full8_mem
      = finish_insert 2 TNODE_RIGHT (mkTtreeCursor 1 4 TNODE_BOUND CURSOR_PENDING) m2.
Proof.
  destruct (insert_into_full_node (mkTtreeCursor 1 4 TNODE_BOUND CURSOR_PENDING) 45
              full8_mem full8_node)
    as (n3 & _ & _ & Hw & Hleaf & _).
  - simpl. discriminate.
  - reflexivity.
  - reflexivity.
  - constructor; simpl; lia.
  - simpl. lia.
  - reflexivity.
  - simpl. lia.
  - reflexivity.
  - destruct (Hleaf (or_introl eq_refl)) as (m2 & Hlinked & Hins).
    exists n3, m2. split; [|split].
    + rewrite Hw. reflexivity.
    + exact Hlinked.
    + exact Hins.
Defined.

(** C2 as stated fails when the full node has a successor with room but
    no right child.  After [roomy_successor_ops] the lookup of 25 binds to
    the full left leaf; its successor is the root, which holds seven keys
    out of eight.  Inserting 25 leaves the root's keys as they were and
    puts the displaced key 80 in a new right child of the leaf. *)
Lemma displaced_key_skips_roomy_successor :
  ∃ m c n s m' c' leaf,
    run_ops roomy_successor_ops (empty_mem 8 true) = Some m
    ∧ ttree_lookup m 25 = Some (NULL, c)
    ∧ side c = TNODE_BOUND
    ∧ load m (tnode c) = Some n
    ∧ tnode_is_full (tree m) n = true
    ∧ successor n ≠ NULL
    ∧ load m (successor n) = Some s
    ∧ tnode_is_full (tree m) s = false
    ∧ ttree_insert_at_cursor c 25 m = Some (m', c')
    ∧ tnode_window <$> load m' (successor n) = Some (tnode_window s)
    ∧ load m (brk m) = None
    ∧ load m' (brk m) = Some leaf
    ∧ parent leaf = tnode c
    ∧ tnode_get_side leaf = TNODE_RIGHT
    ∧ tnode_window leaf = [80].
Proof.
  eexists _, _, _, _, _, _, _.
  split; [vm_compute; reflexivity|].
  split; [vm_compute; reflexivity|].
  split; [reflexivity|].
  split; [vm_compute; reflexivity|].
  split; [vm_compute; reflexivity|].
  split; [discriminate|].
  split; [vm_compute; reflexivity|].
  split; [vm_compute; reflexivity|].
  split; [vm_compute; reflexivity|].
  repeat split; vm_compute; reflexivity.
Qed.

Lemma full8_ops_mem : run_ops full8_ops (empty_mem 8 true) = Some full8_mem.
Proof. vm_compute. reflexivity. Qed.

(** ** Key migration after a double rotation *)

Lemma write_keys_spec (vs : list Z) (at_ : Z) (n : TtreeNode) :
  0 ≤ at_ → at_ + Z.of_nat (length vs) ≤ Z.of_nat (length (keys n)) →
  ∃ n', write_keys at_ vs n = Some n'
        ∧ links n' = links n ∧ bounds n' = bounds n
        ∧ length (keys n') = length (keys n)
        ∧ ∀ p, tnode_key n' p
               = if bool_decide (at_ ≤ p < at_ + Z.of_nat (length vs))
                 then default 0 (vs !! Z.to_nat (p - at_)) else tnode_key n p.
Proof.
  revert at_ n. induction vs as [|v vs IH]; intros at_ n Hat Hlen; simpl in *.
  - exists n. repeat split; try done. intros p.
    rewrite bool_decide_eq_false_2 by lia. done.
  - rewrite set_key_Some by lia. simpl.
    destruct (set_key_inv at_ v n _ (set_key_Some at_ v n ltac:(lia)))
      as (_ & Hl1 & Hb1 & Hlen1 & Hk1).
    destruct (IH (at_ + 1) (set_keys (<[Z.to_nat at_:=v]> (keys n)) n))
      as (n' & Hw & Hl & Hb & Hlen' & Hk); [lia|rewrite Hlen1; lia|].
    exists n'. split; [done|]. split; [congruence|]. split; [congruence|].
    split; [congruence|]. intros p. rewrite Hk, Hk1.
    repeat case_bool_decide; try lia; try done.
    + replace (Z.to_nat (p - at_)) with (S (Z.to_nat (p - (at_ + 1)))) by lia. done.
    + subst p. by rewrite Z.sub_diag.
Qed.

Lemma memcpy_keys_spec (dst src : TtreeNode) (at_ from cnt : Z) :
  0 ≤ cnt → 0 ≤ at_ → at_ + cnt ≤ Z.of_nat (length (keys dst)) →
  ∃ n', memcpy_keys dst at_ src from cnt = Some n'
        ∧ links n' = links dst ∧ bounds n' = bounds dst
        ∧ length (keys n') = length (keys dst)
        ∧ ∀ p, tnode_key n' p
               = if bool_decide (at_ ≤ p < at_ + cnt)
                 then tnode_key src (from + (p - at_)) else tnode_key dst p.
Proof.
  intros Hcnt Hat Hlen. unfold memcpy_keys. rewrite bool_decide_eq_true_2 by done.
  destruct (write_keys_spec (key_slice src from (Z.to_nat cnt)) at_ dst)
    as (n' & Hw & Hl & Hb & Hlen' & Hk); [done|rewrite key_slice_length; lia|].
  exists n'. split; [done|]. split; [done|]. split; [done|]. split; [done|].
  intros p. rewrite Hk, key_slice_length, Z2Nat.id by done.
  case_bool_decide as Hp; [|done].
  rewrite key_slice_lookup, bool_decide_eq_true_2 by lia. simpl.
  f_equal. lia.
Qed.

Lemma migrate_copy_spec (node n : ptr) (nkeys offs : Z) (m : mem) (dn sn : TtreeNode) :
  node ≠ n →
  load m node = Some dn → load m n = Some sn →
  2 ≤ keys_per_tnode (tree m) ≤ 2048 →
  Z.of_nat (length (keys sn)) = keys_per_tnode (tree m) →
  1 ≤ nkeys → 0 ≤ offs → offs + (nkeys - 1) ≤ Z.of_nat (length (keys dn)) →
  ∃ m' dn' sn',
    migrate_copy node n nkeys offs m = Some m'
    ∧ tree m' = tree m
    ∧ (∀ p, p ≠ node → p ≠ n → load m' p = load m p)
    ∧ load m' node = Some dn' ∧ load m' n = Some sn'
    ∧ links dn' = links dn ∧ bounds dn' = bounds dn
    ∧ (∀ p, tnode_key dn' p
            = if bool_decide (offs ≤ p < offs + (nkeys - 1))
              then tnode_key sn (min_idx sn + (p - offs)) else tnode_key dn p)
    ∧ links sn' = links sn
    ∧ bounds sn' = (first_tnode_idx (tree m), first_tnode_idx (tree m))
    ∧ tnode_key sn' (first_tnode_idx (tree m)) = tnode_key sn (max_idx sn).
Proof.
  intros Hne Hdn Hsn HM Hlen Hnk Hoffs Hfit.
  destruct (first_tnode_idx_range (tree m) ltac:(lia)) as [Hf1 Hf2].
  destruct (memcpy_keys_spec dn sn offs (min_idx sn) (nkeys - 1))
    as (dn' & Hcp & Hl & Hb & Hlen' & Hk); [lia|done|lia|].
  unfold migrate_copy. rewrite Hdn. simpl. rewrite Hsn. simpl. rewrite Hcp. simpl.
  rewrite load_store_ne by done. rewrite Hsn. simpl.
  erewrite update_opt_Some;
    [| rewrite load_store_ne by done; exact Hsn | apply set_key_Some; lia].
  simpl. erewrite update_Some by apply load_store_eq. simpl.
  rewrite load_store_eq. simpl.
  erewrite update_Some by apply load_store_eq.
  rewrite !sbf12_id by lia.
  eexists _, dn', _. split; [reflexivity|]. split; [done|].
  split. { intros p Hp1 Hp2. by rewrite !load_store_ne. }
  split. { rewrite !load_store_ne by done. apply load_store_eq. }
  split. { apply load_store_eq. }
  split; [done|]. split; [done|]. split; [done|].
  split; [done|].
  split. { unfold bounds. simpl. by rewrite !sbf12_id by lia. }
  unfold tnode_key at 1. simpl. rewrite bool_decide_eq_true_2 by lia.
  rewrite list_lookup_insert_eq by lia. done.
Qed.

Lemma set_sides_links_keys (sd : Z) (v : ptr) (n n' : TtreeNode) :
  set_sides sd v n = Some n' → bounds n' = bounds n ∧ keys n' = keys n.
Proof.
  unfold set_sides. repeat case_bool_decide; intros [= <-]; done.
Qed.

(** What [migrate_prepare] leaves: the donor, the count and offset handed
    to the copy, the root's window laid out around its own key, and, on
    the left with a cursor, the donor's bounds stepped past its first key. *)
Lemma migrate_prepare_spec (T : ptr) (cursor : option TtreeCursor) (m : mem)
    (tn ln rn : TtreeNode) :
  load m T = Some tn → load m (left tn) = Some ln → load m (right tn) = Some rn →
  left tn ≠ T → right tn ≠ T →
  2 ≤ keys_per_tnode (tree m) →
  tnode_wf (tree m) tn → tnode_wf (tree m) ln → tnode_wf (tree m) rn →
  1 ≤ tnode_num_keys ln → 1 ≤ tnode_num_keys rn →
  let rd := bool_decide (tnode_num_keys ln ≤ tnode_num_keys rn) in
  let donor := if rd then right tn else left tn in
  let dn := if rd then rn else ln in
  let M := keys_per_tnode (tree m) in
  ∃ mP cursor' tnP dnP offs,
    migrate_prepare T cursor m = Some (mP, donor, tnode_num_keys dn, offs, cursor')
    ∧ tree mP = tree m
    ∧ (∀ p, p ≠ T → p ≠ donor → load mP p = load m p)
    ∧ load mP T = Some tnP ∧ load mP donor = Some dnP
    ∧ links tnP = links tn ∧ length (keys tnP) = length (keys tn)
    ∧ links dnP = links dn ∧ keys dnP = keys dn
    ∧ (if rd then
         offs = 1 ∧ bounds tnP = (0, tnode_num_keys dn - 1)
         ∧ tnode_key tnP 0 = tnode_key tn (min_idx tn)
         ∧ bounds dnP = bounds dn
       else
         offs = M - tnode_num_keys dn
         ∧ bounds tnP = (M - tnode_num_keys dn, M - 1)
         ∧ tnode_key tnP (M - 1) = tnode_key tn (min_idx tn)
         ∧ bounds dnP = match cursor with
                        | Some _ => (min_idx dn + 1, min_idx dn)
                        | None => bounds dn
                        end).
Proof.
  intros HT Hln Hrn HlT HrT HM Hwt Hwl Hwr Hnl Hnr rd donor dn M.
  destruct Hwt as [Htl Htmin Htmax Htwin Hfit].
  destruct Hwl as [Hll Hlmin Hlmax Hlwin _].
  destruct Hwr as [Hrl Hrmin Hrmax Hrwin _].
  unfold tnode_num_keys in *.
  unfold migrate_prepare. rewrite HT. simpl. rewrite Hrn. simpl. rewrite Hln. simpl.
  subst rd donor dn. unfold tnode_num_keys. case_bool_decide as Hrd.
  - (* the right child gives *)
    erewrite update_opt_Some; [|exact HT|apply set_key_Some; lia]. simpl.
    erewrite update_Some by apply load_store_eq. simpl.
    erewrite update_Some by apply load_store_eq. simpl.
    set (tnP := set_max_idx _ _).
    set (mP := store T tnP _).
    assert (load mP T = Some tnP) as HPT by apply load_store_eq.
    assert (∀ p, p ≠ T → load mP p = load m p) as HPne.
    { intros p Hp. unfold mP. by rewrite !load_store_ne. }
    assert (∃ cursor', match cursor with
                       | None => Some (mP, right tn, max_idx rn - min_idx rn + 1, 1, None)
                       | Some c =>
                           if bool_decide (tnode c = right tn) then
                             nn ← load mP (right tn);
                             if bool_decide (idx c < max_idx nn) then
                               tn' ← load mP T;
                               Some (mP, right tn, max_idx rn - min_idx rn + 1, 1,
                                     Some (set_idx (min_idx tn' + (idx c - min_idx nn + 1))
                                             (set_tnode T c)))
                             else Some (mP, right tn, max_idx rn - min_idx rn + 1, 1,
                                        Some (set_idx (first_tnode_idx (tree m)) c))
                           else Some (mP, right tn, max_idx rn - min_idx rn + 1, 1, Some c)
                       end = Some (mP, right tn, max_idx rn - min_idx rn + 1, 1, cursor'))
      as [cursor' ->].
    { destruct cursor as [c|]; [|by eexists].
      case_bool_decide; [|by eexists].
      rewrite (HPne (right tn)), Hrn by done. simpl. case_bool_decide; [|by eexists].
      rewrite HPT. simpl. by eexists. }
    exists mP, cursor', tnP, rn, 1. split; [done|]. split; [done|].
    split. { intros p Hp _. by apply HPne. }
    split; [done|]. split. { by rewrite HPne. }
    split; [done|]. split. { simpl. by rewrite length_insert. }
    split; [done|]. split; [done|].
    split; [done|]. split. { unfold bounds, tnP. simpl. by rewrite !sbf12_id by lia. }
    split; [|done].
    unfold tnode_key at 1. simpl. rewrite list_lookup_insert_eq by lia. done.
  - (* the left child gives *)
    erewrite update_opt_Some; [|exact HT|apply set_key_Some; lia]. simpl.
    erewrite update_Some by apply load_store_eq. simpl.
    erewrite update_Some by apply load_store_eq. simpl.
    set (tnP := set_max_idx _ _).
    set (mP := store T tnP _).
    assert (load mP T = Some tnP) as HPT by apply load_store_eq.
    assert (∀ p, p ≠ T → load mP p = load m p) as HPne.
    { intros p Hp. unfold mP. by rewrite !load_store_ne. }
    assert (links tnP = links tn) as HlP by done.
    assert (length (keys tnP) = length (keys tn)) as HlenP.
    { simpl. by rewrite length_insert. }
    assert (bounds tnP = (M - (max_idx ln - min_idx ln + 1), M - 1)) as HbP.
    { unfold bounds, tnP. simpl. by rewrite !sbf12_id by (unfold M; lia). }
    assert (tnode_key tnP (M - 1) = tnode_key tn (min_idx tn)) as HkP.
    { unfold tnode_key at 1. simpl. rewrite bool_decide_eq_true_2 by (unfold M; lia).
      rewrite list_lookup_insert_eq by (unfold M; lia). done. }
    destruct cursor as [c|].
    + assert (∃ c', (if bool_decide (tnode c = left tn) then
                       nn ← load mP (left tn);
                       if bool_decide (idx c > min_idx nn) then
                         tn' ← load mP T;
                         Some (set_idx (min_idx tn' + (idx c - min_idx nn)) (set_tnode T c))
                       else Some (set_idx (first_tnode_idx (tree m)) c)
                     else Some c) = Some c') as [c' ->].
      { case_bool_decide; [|by eexists].
        rewrite (HPne (left tn)), Hln by done. simpl. case_bool_decide; [|by eexists].
        rewrite HPT. simpl. by eexists. }
      simpl. rewrite (HPne (left tn)), Hln by done. simpl.
      erewrite update_Some by (rewrite HPne by done; exact Hln). simpl.
      erewrite update_Some by apply load_store_eq. simpl.
      eexists _, (Some c'), tnP, _, _. split; [reflexivity|]. split; [done|].
      split. { intros p Hp1 Hp2. rewrite !load_store_ne by done. by apply HPne. }
      split. { by rewrite !load_store_ne. }
      split. { apply load_store_eq. }
      split; [done|]. split; [done|]. split; [done|]. split; [done|].
      split; [done|]. split; [done|]. split; [done|].
      unfold bounds. simpl. by rewrite !sbf12_id by lia.
    + exists mP, None, tnP, ln, (M - (max_idx ln - min_idx ln + 1)).
      split; [done|]. split; [done|].
      split. { intros p Hp _. by apply HPne. }
      split; [done|]. split. { by rewrite HPne. }
      done.
Qed.

Lemma tnode_key_ext (a b : TtreeNode) (p : Z) : keys a = keys b → tnode_key a p = tnode_key b p.
Proof. intros H. unfold tnode_key. by rewrite H. Qed.

Lemma tnode_window_intro (n : TtreeNode) (w : list Z) :
  Z.of_nat (length w) = tnode_num_keys n →
  (∀ q : nat, (q < length w)%nat → w !! q = Some (tnode_key n (min_idx n + Z.of_nat q))) →
  tnode_window n = w.
Proof.
  intros Hlen Hw. apply list_eq. intros q. rewrite tnode_window_lookup.
  case_bool_decide as Hq.
  - symmetry. apply Hw. lia.
  - symmetry. apply lookup_ge_None. lia.
Qed.

Lemma drop_last_length (w : list Z) : length (drop_last w) = (length w - 1)%nat.
Proof. unfold drop_last. rewrite length_take. lia. Qed.

Lemma drop_last_lookup (w : list Z) (q : nat) :
  (q < length w - 1)%nat → drop_last w !! q = w !! q.
Proof. intros. unfold drop_last. by rewrite lookup_take_lt. Qed.

Lemma tnode_window_single (n : TtreeNode) :
  tnode_num_keys n = 1 → tnode_window n = [tnode_key n (min_idx n)].
Proof.
  intros H. apply tnode_window_intro; [simpl; lia|].
  intros [|q] Hq; simpl in *; [|lia]. by rewrite Z.add_0_r.
Qed.

Lemma rebalance_migrate_spec (T : ptr) (cursor : option TtreeCursor) (m : mem)
    (tn ln rn : TtreeNode) :
  load m T = Some tn → load m (left tn) = Some ln → load m (right tn) = Some rn →
  left tn ≠ T → right tn ≠ T →
  2 ≤ keys_per_tnode (tree m) →
  tnode_wf (tree m) tn → tnode_wf (tree m) ln → tnode_wf (tree m) rn →
  tnode_num_keys tn = 1 → 1 ≤ tnode_num_keys ln → 1 ≤ tnode_num_keys rn →
  let rd := bool_decide (tnode_num_keys ln ≤ tnode_num_keys rn) in
  let donor := if rd then right tn else left tn in
  let dn := if rd then rn else ln in
  ∃ m' cursor' tn' dn',
    rebalance_migrate T cursor m = Some (m', cursor')
    ∧ tree m' = tree m
    ∧ (∀ p, p ≠ T → p ≠ donor → load m' p = load m p)
    ∧ load m' T = Some tn' ∧ load m' donor = Some dn'
    ∧ links tn' = links tn ∧ links dn' = links dn
    ∧ tnode_num_keys tn' = tnode_num_keys dn
    ∧ bounds dn' = (first_tnode_idx (tree m), first_tnode_idx (tree m))
    ∧ (tnode_window tn', tnode_window dn')
      = migration_windows rd (bool_decide (is_Some cursor))
                          (tnode_window tn) (tnode_window dn).
Proof.
  intros HT Hln Hrn HlT HrT HM Hwt Hwl Hwr Hnt Hnl Hnr rd donor dn.
  destruct (migrate_prepare_spec T cursor m tn ln rn HT Hln Hrn HlT HrT HM Hwt Hwl Hwr
              Hnl Hnr)
    as (mP & cursor' & tnP & dnP & offs & Hprep & HtP & HPne & HPT & HPd & HlP & HlenP
        & HldP & HkdP & Hcase).
  fold rd donor dn in Hprep, HPne, HPd, HldP, HkdP, Hcase.
  assert (tnode_wf (tree m) dn ∧ 1 ≤ tnode_num_keys dn ∧ donor ≠ T) as (Hwd & Hnd & HdT).
  { unfold dn, donor. destruct rd; done. }
  pose proof (wf_fits _ _ Hwt) as Hfit.
  destruct Hwt as [Htl Htmin Htmax Htwin _].
  destruct Hwd as [Hdl Hdmin Hdmax Hdwin _].
  assert (0 ≤ offs ∧ offs + (tnode_num_keys dn - 1) ≤ Z.of_nat (length (keys tnP)))
    as [Hoffs Hroom].
  { rewrite HlenP. unfold tnode_num_keys in *.
    destruct rd; destruct Hcase as (-> & _); lia. }
  destruct (migrate_copy_spec T donor (tnode_num_keys dn) offs mP tnP dnP)
    as (m' & tn' & dn' & Hcopy & Ht' & Hne' & HT' & Hd' & Hl' & Hb' & Hk' & Hld' & Hbd'
        & Hkd'); try done.
  { by rewrite HtP. }
  { by rewrite HtP, HkdP. }
  rewrite HtP in *.
  exists m', cursor', tn', dn'.
  split. { unfold rebalance_migrate. rewrite Hprep. simpl. rewrite Hcopy. done. }
  split; [done|].
  split. { intros p Hp1 Hp2. rewrite Hne' by done. by apply HPne. }
  split; [done|]. split; [done|]. split; [congruence|]. split; [congruence|].
  pose proof (tnode_window_single tn Hnt) as Hwt1.
  assert (∀ p, tnode_key dnP p = tnode_key dn p) as HkP by (intros; by apply tnode_key_ext).
  unfold bounds in *. injection Hb' as Hb1' Hb2'. injection Hbd' as Hbd1' Hbd2'.
  assert (tnode_window dn' = [tnode_key dnP (max_idx dnP)]) as Hwd'.
  { rewrite <- Hkd'. rewrite <- Hbd1'. apply tnode_window_single.
    unfold tnode_num_keys. lia. }
  unfold migration_windows.
  assert (length (tnode_window dn) = Z.to_nat (tnode_num_keys dn)) as Hlenwd
    by apply tnode_window_length.
  unfold tnode_num_keys in *.
  destruct rd.
  - destruct Hcase as (-> & HbP & Hk0 & HbdP).
    injection HbP as HbP1 HbP2. injection HbdP as HbdP1 HbdP2.
    split; [lia|]. split; [congruence|]. f_equal.
    + apply tnode_window_intro.
      * rewrite length_app, drop_last_length, Hwt1. simpl. unfold tnode_num_keys. lia.
      * intros q Hq. rewrite length_app, drop_last_length, Hwt1 in Hq. simpl in Hq.
        rewrite Hk', Hwt1. destruct q as [|q].
        -- rewrite bool_decide_eq_false_2 by lia.
           replace (min_idx tn' + Z.of_nat 0) with 0 by lia. by rewrite Hk0.
        -- rewrite bool_decide_eq_true_2 by lia.
           change (([tnode_key tn (min_idx tn)] ++ drop_last (tnode_window dn)) !! S q)
             with (drop_last (tnode_window dn) !! q).
           rewrite drop_last_lookup by lia. rewrite tnode_window_lookup.
           unfold tnode_num_keys. rewrite bool_decide_eq_true_2 by lia.
           rewrite HkP. do 2 f_equal. lia.
    + rewrite Hwd'. apply list_eq. intros q. rewrite lookup_drop, tnode_window_lookup.
      unfold tnode_num_keys. destruct q as [|q].
      * rewrite bool_decide_eq_true_2 by lia. rewrite HkP.
        change ([tnode_key dn (max_idx dnP)] !! 0%nat) with (Some (tnode_key dn (max_idx dnP))).
        do 2 f_equal. lia.
      * rewrite bool_decide_eq_false_2 by lia. done.
  - destruct Hcase as (-> & HbP & HkM & HbdP).
    injection HbP as HbP1 HbP2.
    split; [lia|]. split; [congruence|].
    destruct cursor as [c|].
    + rewrite bool_decide_eq_true_2 by eauto.
      injection HbdP as HbdP1 HbdP2. f_equal.
      * apply tnode_window_intro.
        -- rewrite length_app, length_drop, Hwt1. simpl. unfold tnode_num_keys. lia.
        -- intros q Hq. rewrite length_app, length_drop, Hwt1 in Hq. simpl in Hq.
           rewrite Hk', Hwt1.
           destruct (decide (q < length (tnode_window dn) - 1)%nat) as [Hlt|Hge].
           ++ rewrite bool_decide_eq_true_2 by lia.
              rewrite lookup_app_l by (rewrite length_drop; lia).
              rewrite lookup_drop, tnode_window_lookup.
              unfold tnode_num_keys. rewrite bool_decide_eq_true_2 by lia.
              rewrite HkP. do 2 f_equal. lia.
           ++ rewrite bool_decide_eq_false_2 by lia.
              rewrite lookup_app_r by (rewrite length_drop; lia).
              rewrite length_drop.
              replace (q - (length (tnode_window dn) - 1))%nat with 0%nat by lia.
              change ([tnode_key tn (min_idx tn)] !! 0%nat)
                with (Some (tnode_key tn (min_idx tn))).
              rewrite <- HkM. do 2 f_equal. lia.
      * rewrite Hwd'. apply list_eq. intros q. destruct q as [|q].
        -- rewrite lookup_take_lt by lia. rewrite tnode_window_lookup.
           unfold tnode_num_keys. rewrite bool_decide_eq_true_2 by lia.
           rewrite HkP.
           change ([tnode_key dn (max_idx dnP)] !! 0%nat)
             with (Some (tnode_key dn (max_idx dnP))).
           do 2 f_equal. lia.
        -- rewrite lookup_take_ge by lia. done.
    + rewrite bool_decide_eq_false_2 by (intros [? ?]; done).
      injection HbdP as HbdP1 HbdP2. f_equal.
      * apply tnode_window_intro.
        -- rewrite length_app, drop_last_length, Hwt1. simpl. unfold tnode_num_keys. lia.
        -- intros q Hq. rewrite length_app, drop_last_length, Hwt1 in Hq. simpl in Hq.
           rewrite Hk', Hwt1.
           destruct (decide (q < length (tnode_window dn) - 1)%nat) as [Hlt|Hge].
           ++ rewrite bool_decide_eq_true_2 by lia.
              rewrite lookup_app_l by (rewrite drop_last_length; lia).
              rewrite drop_last_lookup by lia. rewrite tnode_window_lookup.
              unfold tnode_num_keys. rewrite bool_decide_eq_true_2 by lia.
              rewrite HkP. do 2 f_equal. lia.
           ++ rewrite bool_decide_eq_false_2 by lia.
              rewrite lookup_app_r by (rewrite drop_last_length; lia).
              rewrite drop_last_length.
              replace (q - (length (tnode_window dn) - 1))%nat with 0%nat by lia.
              change ([tnode_key tn (min_idx tn)] !! 0%nat)
                with (Some (tnode_key tn (min_idx tn))).
              rewrite <- HkM. do 2 f_equal. lia.
      * rewrite Hwd'. apply list_eq. intros q. rewrite lookup_drop, tnode_window_lookup.
        unfold tnode_num_keys. destruct q as [|q].
        -- rewrite bool_decide_eq_true_2 by lia. rewrite HkP.
           change ([tnode_key dn (max_idx dnP)] !! 0%nat)
             with (Some (tnode_key dn (max_idx dnP))).
           do 2 f_equal. lia.
        -- rewrite bool_decide_eq_false_2 by lia. done.
Qed.

Lemma migration_windows_order (rd hc : bool) (wt wd : list Z) :
  (migration_windows rd hc wt wd).1 `sublist_of` (if rd then wt ++ wd else wd ++ wt).
Proof.
  unfold migration_windows, drop_last. destruct rd.
  - cbn [fst]. apply sublist_app; [done|apply sublist_take].
  - destruct hc; cbn [fst].
    + apply sublist_app.
      * apply sublist_drop.
      * done.
    + apply sublist_app.
      * apply sublist_take.
      * done.
Qed.

Lemma migration_windows_perm (rd hc : bool) (wt wd : list Z) :
  (migration_windows rd hc wt wd).1 ++ (migration_windows rd hc wt wd).2 ≡ₚ wt ++ wd.
Proof.
  unfold migration_windows, drop_last.
  destruct rd; [|destruct hc]; cbn [fst snd].
  - by rewrite <- app_assoc, take_drop.
  - transitivity (wt ++ take 1 wd ++ drop 1 wd); [|by rewrite take_drop].
    solve_Permutation.
  - transitivity (wt ++ take (length wd - 1) wd ++ drop (length wd - 1) wd);
      [|by rewrite take_drop].
    solve_Permutation.
Qed.

(** C3.  When [rebalance] runs a double rotation ([rotate_double]) that
    leaves the new subtree root [T] with exactly one key and two children
    that are not internal, the child holding more keys, the right one on a
    tie, is the donor.  Afterwards [T] holds as many keys as the donor
    held: all of the donor's keys except one, in the order they had in the
    donor, after [T]'s own key when the donor is the right child and before
    it when the donor is the left child.  The donor is left with exactly
    one key, in slot [keys_per_tnode / 2 - 1].  No key is lost or
    duplicated, and no other node changes. *)
Theorem rebalance_refills_root (node c T : ptr) (cursor : option TtreeCursor)
    (m m1 : mem) (nn cn tn ln rn : TtreeNode) :
  (* [rebalance] takes the double rotation *)
  load m node = Some nn →
  sides nn (opposite_side (left_heavy nn)) = Some c →
  load m c = Some cn →
  Z.abs (bfc nn + bfc cn) < 2 →
  rotate_double node (opposite_side (left_heavy nn)) m = Some (m1, T) →
  (* which leaves a root [T] with one key between two children that are
     not internal *)
  load m1 T = Some tn → load m1 (left tn) = Some ln → load m1 (right tn) = Some rn →
  tnode_num_keys tn = 1 → is_half_leaf ln = true → is_half_leaf rn = true →
  (* in a well-formed tree *)
  left tn ≠ T → right tn ≠ T →
  2 ≤ keys_per_tnode (tree m1) →
  tnode_wf (tree m1) tn → tnode_wf (tree m1) ln → tnode_wf (tree m1) rn →
  1 ≤ tnode_num_keys ln → 1 ≤ tnode_num_keys rn →
  is_Some (load m1 (root (tree m1))) →
  let rd := bool_decide (tnode_num_keys ln ≤ tnode_num_keys rn) in
  let donor := if rd then right tn else left tn in
  let dn := if rd then rn else ln in
  ∃ m2 cursor' tn' dn',
    rebalance node cursor m = Some (m2, T, cursor')
    ∧ (∀ p, p ≠ T → p ≠ donor → load m2 p = load m1 p)
    ∧ load m2 T = Some tn' ∧ load m2 donor = Some dn'
    ∧ links tn' = links tn ∧ links dn' = links dn
    ∧ tnode_num_keys tn' = tnode_num_keys dn
    ∧ tnode_num_keys dn' = 1
    ∧ min_idx dn' = keys_per_tnode (tree m1) / 2 - 1
    ∧ (tnode_window tn', tnode_window dn')
      = migration_windows rd (bool_decide (is_Some cursor))
                          (tnode_window tn) (tnode_window dn)
    ∧ tnode_window tn' `sublist_of`
        (if rd then tnode_window tn ++ tnode_window dn
         else tnode_window dn ++ tnode_window tn)
    ∧ tnode_window tn' ++ tnode_window dn' ≡ₚ tnode_window tn ++ tnode_window dn.
Proof.
  intros Hnn Hc Hcn Hsum Hrot HT Hln Hrn Hnt Hhl Hhr HlT HrT HM Hwt Hwl Hwr Hnl Hnr Hroot
         rd donor dn.
  subst rd donor dn.
  destruct (rebalance_migrate_spec T cursor m1 tn ln rn HT Hln Hrn HlT HrT HM Hwt Hwl Hwr
              Hnt Hnl Hnr)
    as (m' & cursor' & tn' & dn' & Hmig & Ht' & Hne' & HT' & Hd' & Hl' & Hld' & Hnk' & Hbd'
        & Hw').
  simpl in Hne', Hd', Hld', Hnk', Hw'.
  assert (∃ r, load m' (root (tree m')) = Some r) as [r Hr].
  { rewrite Ht'. destruct Hroot as [r0 Hr0].
    destruct (decide (root (tree m1) = T)) as [->|HneT]; [by eexists|].
    destruct (decide (root (tree m1)
                      = if bool_decide (tnode_num_keys ln ≤ tnode_num_keys rn)
                        then right tn else left tn)) as [->|Hned]; [by eexists|].
    exists r0. by rewrite Hne'. }
  exists (if bool_decide (parent r ≠ NULL) then with_root T m' else m'), cursor', tn', dn'.
  split.
  { unfold rebalance. rewrite Hnn. simpl. rewrite Hc. simpl. rewrite Hcn. simpl.
    rewrite bool_decide_eq_false_2 by lia. rewrite Hrot. simpl.
    unfold migration_due. rewrite HT. simpl.
    rewrite (bool_decide_eq_true_2 _ Hnt). rewrite Hln. simpl. rewrite Hhl.
    rewrite Hrn. simpl. rewrite Hhr. rewrite Hmig. simpl. rewrite Hr. done. }
  assert (∀ p, load (if bool_decide (parent r ≠ NULL) then with_root T m' else m') p
               = load m' p) as Hsame.
  { intros p. destruct (bool_decide (parent r ≠ NULL)); reflexivity. }
  split. { intros p Hp1 Hp2. rewrite Hsame. by apply Hne'. }
  split. { by rewrite Hsame. }
  split. { by rewrite Hsame. }
  split; [done|]. split; [done|]. split; [done|].
  unfold bounds in Hbd'. injection Hbd' as Hb1 Hb2.
  split. { unfold tnode_num_keys. lia. }
  split. { rewrite Hb1. unfold first_tnode_idx. by rewrite Z.shiftr_div_pow2. }
  split; [done|].
  pose proof (migration_windows_order
                (bool_decide (tnode_num_keys ln ≤ tnode_num_keys rn))
                (bool_decide (is_Some cursor)) (tnode_window tn)
                (tnode_window (if bool_decide (tnode_num_keys ln ≤ tnode_num_keys rn)
                               then rn else ln))) as Hord.
  pose proof (migration_windows_perm
                (bool_decide (tnode_num_keys ln ≤ tnode_num_keys rn))
                (bool_decide (is_Some cursor)) (tnode_window tn)
                (tnode_window (if bool_decide (tnode_num_keys ln ≤ tnode_num_keys rn)
                               then rn else ln))) as Hperm.
  rewrite <- Hw' in Hord, Hperm. done.
Qed.

Lemma rebalance_refills_root_witness :
  ∃ m2 cursor' tn' dn',
    rebalance 1 None zigzag_mem = Some (m2, 4, cursor')
    ∧ load m2 4 = Some tn' ∧ load m2 1 = Some dn'
    ∧ tnode_num_keys dn' = 1 ∧ min_idx dn' = 1
    ∧ tnode_window tn' = [10; 20; 30; 45] ∧ tnode_window dn' = [40].
Proof.
  edestruct (rebalance_refills_root 1 3 4 None zigzag_mem)
    as (m2 & cursor' & tn' & dn' & Hreb & _ & HT & Hd & _ & _ & _ & Hnk & Hmin & Hw & _).
  - reflexivity.
  - reflexivity.
  - reflexivity.
  - simpl. lia.
  - vm_compute. reflexivity.
  - vm_compute. reflexivity.
  - vm_compute. reflexivity.
  - vm_compute. reflexivity.
  - reflexivity.
  - reflexivity.
  - reflexivity.
  - simpl. discriminate.
  - simpl. discriminate.
  - simpl. lia.
  - constructor; simpl; lia.
  - constructor; simpl; lia.
  - constructor; simpl; lia.
  - unfold tnode_num_keys. simpl. lia.
  - unfold tnode_num_keys. simpl. lia.
  - eexists. vm_compute. reflexivity.
  - exists m2, cursor', tn', dn'.
    injection Hw as Hw1 Hw2.
    split; [exact Hreb|]. split; [exact HT|]. split; [exact Hd|].
    split; [exact Hnk|]. split; [exact Hmin|]. split; [exact Hw1|exact Hw2].
Defined.

(** ** Insertion followed by deletion *)

Lemma int_cmp_order : cmp_order int_cmp.
Proof. constructor; unfold int_cmp; intros; lia. Qed.

Section lookup_inside.
Variable t : Ttree.
Variable n : TtreeNode.
Variable k : Z.
Hypothesis Hcmp : cmp_order (cmp_func t).

Lemma shiftr_mid (lo hi : Z) :
  0 ≤ lo → lo ≤ hi → lo ≤ Z.shiftr (lo + hi) 1 ≤ hi.
Proof.
  intros. rewrite Z.shiftr_div_pow2 by lia. change (2 ^ 1) with 2.
  pose proof (Z.div_mod (lo + hi) 2 ltac:(lia)).
  pose proof (Z.mod_pos_bound (lo + hi) 2 ltac:(lia)). lia.
Qed.

(** A search for a key that is in no slot of a sorted range ends on the
    slot where the key belongs. *)
Lemma lookup_inside_loop_miss (fuel : nat) (lo hi : Z) :
  (∀ i j, lo ≤ i → i < j → j ≤ hi → cmp_func t (tnode_key n i) (tnode_key n j) < 0) →
  (∀ i, lo ≤ i ≤ hi → cmp_func t k (tnode_key n i) ≠ 0) →
  0 ≤ lo → hi - lo + 1 ≤ Z.of_nat fuel →
  ∃ f, lookup_inside_loop fuel t n k lo hi = (NULL, f)
       ∧ lo ≤ f ∧ (lo ≤ hi + 1 → f ≤ hi + 1)
       ∧ (∀ i, lo ≤ i < f → cmp_func t k (tnode_key n i) > 0)
       ∧ (∀ i, f ≤ i ≤ hi → cmp_func t k (tnode_key n i) < 0).
Proof.
  revert lo hi. induction fuel as [|fuel IH]; intros lo hi Hsorted Habs Hlo Hfuel.
  - simpl. exists lo. split; [done|]. repeat split; intros; lia.
  - simpl. case_bool_decide as Hrange.
    + destruct (shiftr_mid lo hi Hlo Hrange) as [Hm1 Hm2].
      set (mid := Z.shiftr (lo + hi) 1) in *.
      case_bool_decide as Hlt.
      * destruct (IH lo (mid - 1)) as (f & Hf & Hf1 & Hf2 & Hbelow & Habove).
        { intros i j ? ? ?. apply Hsorted; lia. }
        { intros i ?. apply Habs. lia. }
        { done. }
        { lia. }
        exists f. split; [done|]. split; [done|]. split; [lia|]. split; [done|].
        intros i Hi. destruct (decide (i ≤ mid - 1)) as [?|?]; [apply Habove; lia|].
        destruct (decide (i = mid)) as [->|?]; [done|].
        assert (cmp_func t (tnode_key n mid) (tnode_key n i) < 0) as Hmi by (apply Hsorted; lia).
        exact (cmp_trans _ Hcmp _ _ _ Hlt Hmi).
      * case_bool_decide as Hgt.
        -- destruct (IH (mid + 1) hi) as (f & Hf & Hf1 & Hf2 & Hbelow & Habove).
           { intros i j ? ? ?. apply Hsorted; lia. }
           { intros i ?. apply Habs. lia. }
           { lia. }
           { lia. }
           exists f. split; [done|]. split; [lia|]. split; [lia|]. split; [|done].
           intros i Hi. destruct (decide (mid + 1 ≤ i)) as [?|?]; [apply Hbelow; lia|].
           destruct (decide (i = mid)) as [->|?]; [done|].
           assert (cmp_func t (tnode_key n i) (tnode_key n mid) < 0) as Him by (apply Hsorted; lia).
           apply (cmp_flip _ Hcmp).
           apply (cmp_trans _ Hcmp _ (tnode_key n mid)); [done|].
           by apply (cmp_flip _ Hcmp).
        -- exfalso. apply (Habs mid); lia.
    + exists lo. split; [done|]. split; [lia|]. split; [lia|].
      split; intros; lia.
Qed.

(** A search for a key that sits in slot [s] of a sorted range finds
    slot [s]. *)
Lemma lookup_inside_loop_hit (fuel : nat) (lo hi s : Z) :
  (∀ i j, lo ≤ i → i < j → j ≤ hi → cmp_func t (tnode_key n i) (tnode_key n j) < 0) →
  lo ≤ s ≤ hi → tnode_key n s = k →
  0 ≤ lo → hi - lo + 1 ≤ Z.of_nat fuel →
  lookup_inside_loop fuel t n k lo hi = (ttree_key2item t k, s).
Proof.
  revert lo hi. induction fuel as [|fuel IH]; intros lo hi Hsorted Hs Hk Hlo Hfuel.
  - lia.
  - simpl. rewrite bool_decide_eq_true_2 by lia.
    destruct (shiftr_mid lo hi Hlo ltac:(lia)) as [Hm1 Hm2].
    set (mid := Z.shiftr (lo + hi) 1) in *.
    destruct (Z.lt_trichotomy mid s) as [Hms|[Hms|Hms]].
    + assert (cmp_func t (tnode_key n mid) (tnode_key n s) < 0) as Hlt by (apply Hsorted; lia).
      rewrite Hk in Hlt.
      apply (cmp_flip _ Hcmp) in Hlt.
      rewrite bool_decide_eq_false_2 by lia. rewrite bool_decide_eq_true_2 by lia.
      apply IH; try lia. intros i j ? ? ?. apply Hsorted; lia.
    + subst s. rewrite Hk, (cmp_refl _ Hcmp).
      rewrite !bool_decide_eq_false_2 by lia. done.
    + assert (cmp_func t (tnode_key n s) (tnode_key n mid) < 0) as Hlt by (apply Hsorted; lia).
      rewrite Hk in Hlt.
      rewrite bool_decide_eq_true_2 by lia.
      apply IH; try lia. intros i j ? ? ?. apply Hsorted; lia.
Qed.
End lookup_inside.

Lemma remove_insert_at (j : nat) (k : Z) (w : list Z) :
  (j ≤ length w)%nat → remove_at j (insert_at j k w) = w.
Proof.
  intros Hj. unfold remove_at, insert_at.
  rewrite take_app_length' by (rewrite length_take; lia).
  rewrite drop_app_ge by (rewrite length_take; lia).
  rewrite length_take. replace (S j - j `min` length w)%nat with 1%nat by lia.
  simpl. rewrite drop_0. apply take_drop.
Qed.

Lemma walk_fuel_store (p : ptr) (n n0 : TtreeNode) (m : mem) :
  load m p = Some n0 → walk_fuel (store p n m) = walk_fuel m.
Proof.
  intros Hp. unfold walk_fuel, store. simpl. f_equal.
  by eapply map_size_insert_Some.
Qed.

(** The descent looks at the child links and the minimum key of each
    node only. *)
Lemma lookup_descend_ext (fuel : nat) (m m1 : mem) (k : Z) (x tg mk : ptr) (sd cr : Z) :
  tree m1 = tree m →
  (∀ p a, load m p = Some a →
     ∃ b, load m1 p = Some b ∧ left b = left a ∧ right b = right a
          ∧ tnode_key_min b = tnode_key_min a) →
  (∀ p, load m p = None → load m1 p = None) →
  lookup_descend fuel m1 k x tg mk sd cr = lookup_descend fuel m k x tg mk sd cr.
Proof.
  intros Ht Hsome Hnone. revert x tg mk sd cr.
  induction fuel as [|fuel IH]; intros x tg mk sd cr; simpl; [done|].
  case_bool_decide; [done|].
  destruct (load m x) as [a|] eqn:Hx.
  - destruct (Hsome _ _ Hx) as (b & -> & Hl & Hr & Hk). simpl.
    rewrite Ht, Hk, Hl, Hr. repeat case_bool_decide; auto.
  - by rewrite (Hnone _ Hx).
Qed.

(** Once the search key is the minimum key of the node the descent used
    to end on, the descent stops on that node. *)
Lemma lookup_descend_new_min (fuel : nat) (m m1 : mem) (k : Z) (x tg mk : ptr)
    (sd cr : Z) (target mk' : ptr) (sd' cr' : Z) (n1 : TtreeNode) :
  tree m1 = tree m →
  (∀ p, p ≠ target → load m1 p = load m p) →
  load m1 target = Some n1 →
  cmp_func (tree m) k (tnode_key_min n1) = 0 →
  x ≠ NULL →
  lookup_descend fuel m k x tg mk sd cr = Some (Ended target mk' sd' cr') →
  lookup_descend fuel m1 k x tg mk sd cr = Some (Found target).
Proof.
  intros Ht Hne Hn1 Hk0. revert x tg mk sd cr.
  induction fuel as [|fuel IH]; intros x tg mk sd cr Hx; simpl.
  { rewrite bool_decide_eq_false_2 by done. done. }
  rewrite bool_decide_eq_false_2 by done.
  destruct (decide (x = target)) as [->|Hxt].
  - intros _. rewrite Hn1. simpl. rewrite Ht, Hk0.
    rewrite !bool_decide_eq_false_2 by lia. done.
  - rewrite Hne by done. destruct (load m x) as [nd|]; [|done]. simpl. rewrite Ht.
    case_bool_decide.
    + destruct (decide (left nd = NULL)) as [Hnull|Hnn].
      * rewrite Hnull. destruct fuel; simpl; intros [= ? ? ? ?]; done.
      * by apply IH.
    + case_bool_decide; [|done].
      destruct (decide (right nd = NULL)) as [Hnull|Hnn].
      * rewrite Hnull. destruct fuel; simpl; intros [= ? ? ? ?]; done.
      * by apply IH.
Qed.

(** What the descent knows when it ends at a null child: the last node
    visited is allocated, and so is the marked node, whose minimum key is
    below the search key. *)
Lemma lookup_descend_ended (fuel : nat) (m : mem) (k : Z) (x tg mk : ptr) (sd cr : Z)
    (target marked : ptr) (sd' cr' : Z) :
  lookup_descend fuel m k x tg mk sd cr = Some (Ended target marked sd' cr') →
  x ≠ NULL →
  (mk = NULL ∨ ∃ md, load m mk = Some md ∧ cmp_func (tree m) k (tnode_key_min md) > 0) →
  (∃ td, load m target = Some td)
  ∧ (marked = NULL
     ∨ ∃ md, load m marked = Some md ∧ cmp_func (tree m) k (tnode_key_min md) > 0)
  ∧ (marked = target → cr' > 0)
  ∧ (cr' < 0 ∨ marked = target).
Proof.
  revert x tg mk sd cr. induction fuel as [|fuel IH]; intros x tg mk sd cr; simpl.
  { case_bool_decide; [|done]. intros _ Hx. done. }
  case_bool_decide; [intros _ Hx; done|].
  destruct (load m x) as [nd|] eqn:Hnd; [|done]. simpl.
  intros Hrun _ Hmk.
  assert (∀ y tg2 mk2 sd2 cr2,
            lookup_descend fuel m k y tg2 mk2 sd2 cr2
            = Some (Ended target marked sd' cr') →
            y = NULL → target = tg2 ∧ marked = mk2 ∧ cr' = cr2) as Hstop.
  { intros y tg2 mk2 sd2 cr2 Hy ->. destruct fuel; simpl in Hy; by injection Hy as -> -> _ ->. }
  case_bool_decide as Hlt.
  - destruct (decide (left nd = NULL)) as [Hnull|Hnn].
    + destruct (Hstop _ _ _ _ _ Hrun Hnull) as (-> & -> & ->).
      split; [by eexists|]. split; [done|]. split; [|by left].
      intros ->. destruct Hmk as [->|(md & Hmd & Hgt)]; [done|].
      rewrite Hnd in Hmd. injection Hmd as <-. lia.
    + by eapply IH.
  - case_bool_decide as Hgt; [|done].
    destruct (decide (right nd = NULL)) as [Hnull|Hnn].
    + destruct (Hstop _ _ _ _ _ Hrun Hnull) as (-> & -> & ->).
      split; [by eexists|]. split; [right; by eexists|]. split; [done|]. by right.
    + eapply IH; [exact Hrun|done|]. right. by eexists.
Qed.

(** What a lookup that leaves a pending cursor on a node with room has
    established. *)
Lemma ttree_lookup_pending (m : mem) (k it : Z) (c : TtreeCursor) (n : TtreeNode) :
  load m NULL = None →
  ttree_lookup m k = Some (it, c) →
  state c = CURSOR_PENDING →
  load m (tnode c) = Some n →
  tnode_is_full (tree m) n = false →
  ∃ target marked sd cr,
    lookup_descend (walk_fuel m) m k (root (tree m)) (root (tree m)) NULL TNODE_BOUND 0
    = Some (Ended target marked sd cr)
    ∧ root (tree m) ≠ NULL ∧ side c = TNODE_BOUND ∧ it = NULL
    ∧ ((marked ≠ NULL ∧ tnode c = marked
        ∧ cmp_func (tree m) k (tnode_key_max n) < 0
        ∧ lookup_inside_tnode (tree m) n k (min_idx n + 1) (max_idx n - 1)
          = Some (NULL, idx c))
       ∨ (tnode c = target
          ∧ idx c = if bool_decide (marked ≠ target) || bool_decide (cr < 0)
                    then min_idx n else max_idx n + 1)).
Proof.
  intros Hnull Hlook Hst Hn Hroom. unfold ttree_lookup in Hlook.
  case_bool_decide as Hroot.
  { injection Hlook as <- <-. simpl in Hn. rewrite Hroot in Hn. congruence. }
  destruct (lookup_descend _ _ _ _ _ _ _ _) as [[x|target marked sd cr]|] eqn:Hdesc;
    [| |done].
  - simpl in Hlook. destruct (load m x) as [nd|]; [|done]. simpl in Hlook.
    injection Hlook as <- <-. done.
  - exists target, marked, sd, cr. split; [done|]. split; [done|].
    simpl in Hlook.
    assert (∀ it0 c0,
              (td ← load m target;
               if negb (tnode_is_full (tree m) td)
               then Some (NULL, mkTtreeCursor target
                                  (if bool_decide (marked ≠ target) || bool_decide (cr < 0)
                                   then min_idx td else max_idx td + 1)
                                  TNODE_BOUND CURSOR_PENDING)
               else Some (NULL, mkTtreeCursor target (first_tnode_idx (tree m)) sd
                                  CURSOR_PENDING)) = Some (it0, c0) →
              load m (tnode c0) = Some n →
              side c0 = TNODE_BOUND ∧ it0 = NULL
              ∧ tnode c0 = target
              ∧ idx c0 = if bool_decide (marked ≠ target) || bool_decide (cr < 0)
                         then min_idx n else max_idx n + 1) as Hlast.
    { intros it0 c0 H0 Hn0. destruct (load m target) as [td|] eqn:Htd; [|done].
      simpl in H0. destruct (tnode_is_full (tree m) td) eqn:Hfull; simpl in H0;
        injection H0 as <- <-; simpl in *.
      - rewrite Htd in Hn0. injection Hn0 as ->. congruence.
      - rewrite Htd in Hn0. by injection Hn0 as ->. }
    destruct (decide (marked = NULL)) as [Hmk|Hmk].
    { rewrite bool_decide_eq_false_2 in Hlook by (intros ?; done).
      destruct (Hlast _ _ Hlook Hn) as (? & ? & ? & ?). split; [done|]. split; [done|].
      by right. }
    rewrite (bool_decide_eq_true_2 _ Hmk) in Hlook.
    destruct (load m marked) as [md|] eqn:Hmd; [|by simpl in Hlook]. simpl in Hlook.
    destruct (decide (cmp_func (tree m) k (tnode_key_max md) ≤ 0)) as [Hle|Hle].
    + rewrite (bool_decide_eq_true_2 _ Hle) in Hlook.
      destruct (decide (cmp_func (tree m) k (tnode_key_max md) = 0)) as [Hz|Hz].
      * rewrite (bool_decide_eq_true_2 _ Hz) in Hlook. injection Hlook as <- <-. done.
      * rewrite (bool_decide_eq_false_2 _ Hz) in Hlook.
        destruct (lookup_inside_tnode _ _ _ _ _) as [[item i]|] eqn:Hin;
          [|by simpl in Hlook].
        simpl in Hlook. injection Hlook as <- <-. simpl in *.
        rewrite Hmd in Hn. injection Hn as ->.
        destruct (decide (item = NULL)) as [->|Hitem].
        -- split; [done|]. split; [done|].
           left. split; [done|]. split; [done|]. split; [lia|done].
        -- rewrite (bool_decide_eq_true_2 _ Hitem) in Hst. done.
    + rewrite (bool_decide_eq_false_2 _ Hle) in Hlook.
      destruct (Hlast _ _ Hlook Hn) as (? & ? & ? & ?). split; [done|]. split; [done|].
      by right.
Qed.

Lemma tnode_window_slot (n : TtreeNode) (i : Z) :
  min_idx n ≤ i ≤ max_idx n →
  tnode_window n !! Z.to_nat (i - min_idx n) = Some (tnode_key n i).
Proof.
  intros Hi. rewrite tnode_window_lookup. unfold tnode_num_keys.
  rewrite bool_decide_eq_true_2 by lia. do 2 f_equal. lia.
Qed.

(** The lookup after the key became the minimum key of the node the
    descent ended on. *)
Lemma lookup_hit_at_min (m : mem) (k : Z) (tc : ptr) (n n1 : TtreeNode)
    (marked : ptr) (sd cr : Z) :
  root (tree m) ≠ NULL →
  load m tc = Some n →
  lookup_descend (walk_fuel m) m k (root (tree m)) (root (tree m)) NULL TNODE_BOUND 0
  = Some (Ended tc marked sd cr) →
  cmp_func (tree m) k (tnode_key_min n1) = 0 →
  ttree_lookup (store tc n1 m) k
  = Some (ttree_key2item (tree m) (tnode_key_min n1),
          mkTtreeCursor tc (min_idx n1) TNODE_BOUND CURSOR_OPENED).
Proof.
  intros Hroot Hn Hdesc Hk0. unfold ttree_lookup. simpl tree.
  rewrite (bool_decide_eq_false_2 _ Hroot).
  rewrite (walk_fuel_store _ _ _ _ Hn).
  erewrite lookup_descend_new_min; [| | |apply load_store_eq|exact Hk0|exact Hroot|exact Hdesc].
  - simpl. rewrite load_store_eq. done.
  - done.
  - intros p Hp. by apply load_store_ne.
Qed.

(** The lookup after an insertion behind the minimum key of the marked
    node: the descent is the one of before, and the search goes on in the
    marked node. *)
Lemma lookup_hit_in_marked (m : mem) (k : Z) (tc : ptr) (n n1 : TtreeNode)
    (target : ptr) (sd cr : Z) :
  root (tree m) ≠ NULL → tc ≠ NULL →
  load m tc = Some n →
  links n1 = links n → tnode_key_min n1 = tnode_key_min n →
  lookup_descend (walk_fuel m) m k (root (tree m)) (root (tree m)) NULL TNODE_BOUND 0
  = Some (Ended target tc sd cr) →
  cmp_func (tree m) k (tnode_key_max n1) ≤ 0 →
  ttree_lookup (store tc n1 m) k
  = if bool_decide (cmp_func (tree m) k (tnode_key_max n1) = 0) then
      Some (ttree_key2item (tree m) (tnode_key_max n1),
            mkTtreeCursor tc (max_idx n1) TNODE_BOUND CURSOR_OPENED)
    else
      '(item, i) ← lookup_inside_tnode (tree m) n1 k (min_idx n1 + 1) (max_idx n1 - 1);
      Some (item, mkTtreeCursor tc i TNODE_BOUND
                    (if bool_decide (item ≠ NULL) then CURSOR_OPENED else CURSOR_PENDING)).
Proof.
  intros Hroot Htc Hn Hl Hkmin Hdesc Hle. unfold ttree_lookup. simpl tree.
  rewrite (bool_decide_eq_false_2 _ Hroot).
  rewrite (walk_fuel_store _ _ _ _ Hn).
  rewrite (lookup_descend_ext _ m (store tc n1 m)), Hdesc; [|done| |].
  - simpl. rewrite (bool_decide_eq_true_2 _ Htc). rewrite load_store_eq. simpl.
    rewrite (bool_decide_eq_true_2 _ Hle). done.
  - intros p a Hp. destruct (decide (tc = p)) as [<-|Hne].
    + rewrite load_store_eq. exists n1. rewrite Hn in Hp. injection Hp as <-.
      unfold links in Hl. injection Hl as _ _ ? ? _ _. done.
    + rewrite load_store_ne by done. by exists a.
  - intros p Hp. rewrite load_store_ne; [done|]. intros ->. congruence.
Qed.

Lemma insert_at_sorted (cmp : Z → Z → Z) (j : nat) (k : Z) (w : list Z) :
  (j ≤ length w)%nat →
  window_sorted cmp w →
  (∀ q a, (q < j)%nat → w !! q = Some a → cmp a k < 0) →
  (∀ q a, (j ≤ q)%nat → w !! q = Some a → cmp k a < 0) →
  window_sorted cmp (insert_at j k w).
Proof.
  intros Hj Hs Hbelow Habove i i' a b Hii.
  rewrite !insert_at_lookup by done.
  repeat case_bool_decide; try lia.
  - by apply Hs.
  - intros Ha [= <-]. by eapply Hbelow.
  - intros Ha Hb. eapply Hs; [|exact Ha|exact Hb]. lia.
  - intros [= <-] Hb. eapply Habove; [|exact Hb]. lia.
  - intros Ha Hb. eapply Hs; [|exact Ha|exact Hb]. lia.
Qed.

Lemma window_sorted_slots (cmp : Z → Z → Z) (n : TtreeNode) (i j : Z) :
  window_sorted cmp (tnode_window n) →
  min_idx n ≤ i → i < j → j ≤ max_idx n →
  cmp (tnode_key n i) (tnode_key n j) < 0.
Proof.
  intros Hs Hi Hij Hj.
  eapply (Hs (Z.to_nat (i - min_idx n)) (Z.to_nat (j - min_idx n))).
  - lia.
  - apply tnode_window_slot. lia.
  - apply tnode_window_slot. lia.
Qed.


Lemma seven_key_ops_mem : run_ops seven_key_ops (empty_mem 8 true) = Some seven_key_mem.
Proof. vm_compute. reflexivity. Qed.

Lemma chain_increasing_head (cmp : Z → Z → Z) (a : Z) (w : list Z) :
  cmp_order cmp → chain_increasing cmp true (a :: w) = true → ∀ b, b ∈ w → cmp a b < 0.
Proof.
  intros Hc. revert a. induction w as [|x w IH]; intros a H b Hb.
  - inversion Hb.
  - change (chain_increasing cmp true (a :: x :: w))
      with (bool_decide (cmp a x < 0) && chain_increasing cmp true (x :: w)) in H.
    apply andb_true_iff in H as [H1 H2]. apply bool_decide_eq_true in H1.
    apply elem_of_cons in Hb as [->|Hb]; [done|].
    apply (cmp_trans _ Hc _ x); [done|]. by apply IH.
Qed.

(** The executable order check implies the order of the window. *)
Lemma window_sorted_chain (cmp : Z → Z → Z) (w : list Z) :
  cmp_order cmp → chain_increasing cmp true w = true → window_sorted cmp w.
Proof.
  intros Hc. induction w as [|a w IH]; intros H i j x y Hij Hi Hj.
  - done.
  - assert (chain_increasing cmp true w = true) as Hw.
    { destruct w as [|z w']; [done|].
      change (chain_increasing cmp true (a :: z :: w'))
        with (bool_decide (cmp a z < 0) && chain_increasing cmp true (z :: w')) in H.
      by apply andb_true_iff in H as [_ ?]. }
    destruct j as [|j]; [lia|]. simpl in Hj.
    destruct i as [|i]; simpl in Hi.
    + injection Hi as <-.
      eapply chain_increasing_head; [done..|]. by eapply list_elem_of_lookup_2.
    + apply (IH Hw i j); [lia|done..].
Qed.




(** Above 2048 keys per node the round trip fails before the deletion.
    With 4096 keys per node, which [__ttree_init] accepts, the first key
    goes to slot 2047; the insertion of a second key grows the window to
    the right, [++max_idx] leaves the 12-bit field and reads -2048, and no
    key is moved out of the way: 5 is stored over 10.  The node then
    counts as empty, 10 is no longer found, and the deletion of 5 stops
    at an assertion. *)
Lemma wide_node_insert_loses_key :
  TNODE_ITEMS_MIN ≤ 4096 ≤ TNODE_ITEMS_MAX
  ∧ ∃ m1 m2 c,
      run_ops [Insert 10] (empty_mem 4096 true) = Some m1
      ∧ bounds <$> load m1 1 = Some (2047, 2047)
      ∧ ttree_insert 5 m1 = Some (0, m2)
      ∧ bounds <$> load m2 1 = Some (2047, -2048)
      ∧ (λ n, tnode_key n 2047) <$> load m2 1 = Some 5
      ∧ ttree_lookup m2 10 = Some (NULL, c)
      ∧ ttree_keys m2 = Some []
      ∧ ttree_delete 5 m2 = None.
Proof.
  split; [unfold TNODE_ITEMS_MIN, TNODE_ITEMS_MAX; lia|].
  eexists _, _, _.
  split; [vm_compute; reflexivity|].
  split; [vm_compute; reflexivity|].
  split; [vm_compute; reflexivity|].
  split; [vm_compute; reflexivity|].
  split; [vm_compute; reflexivity|].
  split; [vm_compute; reflexivity|].
  split; vm_compute; reflexivity.
Qed.

(** * Further properties of the code *)

(** ** The side bits of a node *)

(** X1.  [tnode_set_side] followed by [tnode_get_side] gives back the side
    stored, for each of [TNODE_ROOT], [TNODE_LEFT] and [TNODE_RIGHT] and
    whatever the four-bit field held before.  Storing a side changes the
    two low bits of the field only: the two high bits and every other
    field of the node are kept. *)
Theorem tnode_side_round_trip (sd : Z) (n : TtreeNode) :
  sd = TNODE_ROOT ∨ sd = TNODE_LEFT ∨ sd = TNODE_RIGHT →
  0 ≤ node_side n < 16 →
  tnode_get_side (tnode_set_side sd n) = sd
  ∧ Z.land (node_side (tnode_set_side sd n)) 12 = Z.land (node_side n) 12
  ∧ 0 ≤ node_side (tnode_set_side sd n) < 16
  ∧ set_node_side (node_side n) (tnode_set_side sd n) = n.
Proof.
  intros Hsd Hns. destruct n as [p s l r mi ma b ns ks]. simpl in Hns.
  assert (ns = 0 ∨ ns = 1 ∨ ns = 2 ∨ ns = 3 ∨ ns = 4 ∨ ns = 5 ∨ ns = 6 ∨ ns = 7
          ∨ ns = 8 ∨ ns = 9 ∨ ns = 10 ∨ ns = 11 ∨ ns = 12 ∨ ns = 13 ∨ ns = 14
          ∨ ns = 15) as Hcases by lia.
  unfold tnode_get_side, tnode_set_side, set_node_side; simpl.
  destruct Hsd as [->| [->| ->]];
    repeat (destruct Hcases as [->|Hcases]; [vm_compute; repeat split; congruence|]);
    subst ns; vm_compute; repeat split; congruence.
Qed.

Lemma tnode_side_round_trip_witness :
  tnode_get_side (tnode_set_side TNODE_RIGHT seven_key_node) = TNODE_RIGHT.
Proof.
  apply (tnode_side_round_trip TNODE_RIGHT seven_key_node).
  - right. right. reflexivity.
  - simpl. lia.
Defined.

(** ** Binary search inside a node *)

Lemma lookup_inside_loop_spec (t : Ttree) (n : TtreeNode) (k : Z) (fuel : nat) (lo hi : Z) :
  cmp_order (cmp_func t) →
  (∀ i j, lo ≤ i → i < j → j ≤ hi → cmp_func t (tnode_key n i) (tnode_key n j) < 0) →
  0 ≤ lo → hi - lo + 1 ≤ Z.of_nat fuel →
  ∃ it f,
    lookup_inside_loop fuel t n k lo hi = (it, f)
    ∧ ((lo ≤ f ≤ hi ∧ cmp_func t k (tnode_key n f) = 0
        ∧ it = ttree_key2item t (tnode_key n f))
       ∨ (it = NULL ∧ lo ≤ f ∧ (lo ≤ hi + 1 → f ≤ hi + 1)
          ∧ (∀ i, lo ≤ i < f → cmp_func t k (tnode_key n i) > 0)
          ∧ (∀ i, f ≤ i ≤ hi → cmp_func t k (tnode_key n i) < 0))).
Proof.
  intros Hcmp. revert lo hi. induction fuel as [|fuel IH]; intros lo hi Hsorted Hlo Hfuel.
  - simpl. exists NULL, lo. split; [done|]. right. repeat split; intros; lia.
  - simpl. case_bool_decide as Hrange.
    + destruct (shiftr_mid lo hi Hlo Hrange) as [Hm1 Hm2].
      set (mid := Z.shiftr (lo + hi) 1) in *.
      case_bool_decide as Hlt.
      * destruct (IH lo (mid - 1)) as (it & f & Hf & Hres).
        { intros i j ? ? ?. apply Hsorted; lia. }
        { done. }
        { lia. }
        exists it, f. split; [done|].
        destruct Hres as [(Hr & Hc & Hit)|(Hit & Hf1 & Hf2 & Hbelow & Habove)].
        -- left. split; [lia|done].
        -- right. split; [done|]. split; [done|]. split; [lia|]. split; [done|].
           intros i Hi. destruct (decide (i ≤ mid - 1)) as [?|?]; [apply Habove; lia|].
           destruct (decide (i = mid)) as [->|?]; [done|].
           assert (cmp_func t (tnode_key n mid) (tnode_key n i) < 0) as Hmi
             by (apply Hsorted; lia).
           exact (cmp_trans _ Hcmp _ _ _ Hlt Hmi).
      * case_bool_decide as Hgt.
        -- destruct (IH (mid + 1) hi) as (it & f & Hf & Hres).
           { intros i j ? ? ?. apply Hsorted; lia. }
           { lia. }
           { lia. }
           exists it, f. split; [done|].
           destruct Hres as [(Hr & Hc & Hit)|(Hit & Hf1 & Hf2 & Hbelow & Habove)].
           ++ left. split; [lia|done].
           ++ right. split; [done|]. split; [lia|]. split; [lia|]. split; [|done].
              intros i Hi. destruct (decide (mid + 1 ≤ i)) as [?|?]; [apply Hbelow; lia|].
              destruct (decide (i = mid)) as [->|?]; [done|].
              assert (cmp_func t (tnode_key n i) (tnode_key n mid) < 0) as Him
                by (apply Hsorted; lia).
              apply (cmp_flip _ Hcmp).
              apply (cmp_trans _ Hcmp _ (tnode_key n mid)); [done|].
              by apply (cmp_flip _ Hcmp).
        -- exists (ttree_key2item t (tnode_key n mid)), mid. split; [done|].
           left. split; [lia|]. split; [lia|done].
    + exists NULL, lo. split; [done|]. right. split; [done|]. split; [lia|]. split; [lia|].
      split; intros; lia.
Qed.

(** X2.  [lookup_inside_tnode] on a range of slots inside the key array
    whose keys are strictly increasing returns without failing.  Either it
    returns the item of a slot of the range whose key compares equal to the
    search key, with the slot in [*out_idx]; or it returns [NULL] and
    [*out_idx] is the insertion point: every key of the range below it is
    smaller than the search key and every key from it on is greater. *)
Theorem lookup_inside_tnode_spec (t : Ttree) (n : TtreeNode) (k lo hi : Z) :
  cmp_order (cmp_func t) →
  0 ≤ lo → hi < keys_per_tnode t →
  (∀ i j, lo ≤ i → i < j → j ≤ hi → cmp_func t (tnode_key n i) (tnode_key n j) < 0) →
  ∃ it f,
    lookup_inside_tnode t n k lo hi = Some (it, f)
    ∧ ((lo ≤ f ≤ hi ∧ cmp_func t k (tnode_key n f) = 0
        ∧ it = ttree_key2item t (tnode_key n f))
       ∨ (it = NULL ∧ lo ≤ f ∧ (lo ≤ hi + 1 → f ≤ hi + 1)
          ∧ (∀ i, lo ≤ i < f → cmp_func t k (tnode_key n i) > 0)
          ∧ (∀ i, f ≤ i ≤ hi → cmp_func t k (tnode_key n i) < 0))).
Proof.
  intros Hcmp Hlo Hhi Hsorted. unfold lookup_inside_tnode.
  rewrite !bool_decide_eq_true_2 by lia. simpl.
  destruct (lookup_inside_loop_spec t n k (Z.to_nat (hi - lo + 1)) lo hi Hcmp Hsorted Hlo)
    as (it & f & Hloop & Hres); [lia|].
  exists it, f. by rewrite Hloop.
Qed.

Lemma lookup_inside_tnode_spec_witness :
  ∃ it f,
    lookup_inside_tnode tree8 seven_key_node 45 1 5 = Some (it, f)
    ∧ ((1 ≤ f ≤ 5 ∧ cmp_func tree8 45 (tnode_key seven_key_node f) = 0
        ∧ it = ttree_key2item tree8 (tnode_key seven_key_node f))
       ∨ (it = NULL ∧ 1 ≤ f ∧ (1 ≤ 5 + 1 → f ≤ 5 + 1)
          ∧ (∀ i, 1 ≤ i < f → cmp_func tree8 45 (tnode_key seven_key_node i) > 0)
          ∧ (∀ i, f ≤ i ≤ 5 → cmp_func tree8 45 (tnode_key seven_key_node i) < 0))).
Proof.
  apply (lookup_inside_tnode_spec tree8 seven_key_node 45 1 5).
  - exact int_cmp_order.
  - lia.
  - simpl. lia.
  - intros i j ? ? ?.
    assert (i = 1 ∨ i = 2 ∨ i = 3 ∨ i = 4) as Hi by lia.
    assert (j = 2 ∨ j = 3 ∨ j = 4 ∨ j = 5) as Hj by lia.
    destruct Hi as [->|[->|[->| ->]]]; destruct Hj as [->|[->|[->| ->]]];
      vm_compute; first [reflexivity | lia].
Defined.

(** ** What a lookup returns *)

Lemma lookup_inside_loop_found (t : Ttree) (n : TtreeNode) (k : Z) (fuel : nat)
    (lo hi it f : Z) :
  lookup_inside_loop fuel t n k lo hi = (it, f) → 0 ≤ lo → it ≠ NULL →
  lo ≤ f ≤ hi ∧ cmp_func t k (tnode_key n f) = 0 ∧ it = ttree_key2item t (tnode_key n f).
Proof.
  revert lo hi. induction fuel as [|fuel IH]; intros lo hi; simpl.
  - intros [= <- <-] _ Hit. done.
  - case_bool_decide as Hrange; [|intros [= <- <-] _ Hit; done].
    intros Hrun Hlo Hit.
    destruct (shiftr_mid lo hi Hlo Hrange) as [Hm1 Hm2].
    set (mid := Z.shiftr (lo + hi) 1) in *.
    case_bool_decide as Hlt.
    + destruct (IH _ _ Hrun Hlo Hit) as (? & ? & ?). split; [lia|done].
    + case_bool_decide as Hgt.
      * destruct (IH _ _ Hrun ltac:(lia) Hit) as (? & ? & ?). split; [lia|done].
      * injection Hrun as <- <-. split; [lia|]. split; [lia|done].
Qed.

Lemma lookup_descend_found (fuel : nat) (m : mem) (k : Z) (x tg mk : ptr) (sd cr : Z)
    (p : ptr) :
  lookup_descend fuel m k x tg mk sd cr = Some (Found p) →
  ∃ nd, load m p = Some nd ∧ cmp_func (tree m) k (tnode_key_min nd) = 0.
Proof.
  revert x tg mk sd cr. induction fuel as [|fuel IH]; intros x tg mk sd cr; simpl.
  - case_bool_decide; done.
  - case_bool_decide; [done|].
    destruct (load m x) as [nd|] eqn:Hnd; [|done]. simpl.
    case_bool_decide as Hlt; [apply IH|].
    case_bool_decide as Hgt; [apply IH|].
    intros [= <-]. exists nd. split; [done|lia].
Qed.

(** X3.  Whatever the shape of the tree, a cursor that [ttree_lookup]
    leaves in the state [CURSOR_OPENED] stands, with side [TNODE_BOUND], on
    a slot of an allocated node whose key compares equal to the search
    key; the slot is the first or the last of the node's window or lies
    strictly between them; the item returned is that key minus the key
    offset, and [ttree_key_from_cursor] reads that key.  A non-null item
    is returned with an opened cursor only, a cursor left pending comes
    with a null item, and the cursor is never left closed. *)
Theorem ttree_lookup_sound (m : mem) (key item : Z) (c : TtreeCursor) :
  ttree_lookup m key = Some (item, c) →
  (item ≠ NULL → state c = CURSOR_OPENED)
  ∧ (state c = CURSOR_PENDING → item = NULL)
  ∧ state c ≠ CURSOR_CLOSED
  ∧ (state c = CURSOR_OPENED →
       side c = TNODE_BOUND
       ∧ ∃ n, load m (tnode c) = Some n
              ∧ (idx c = min_idx n ∨ idx c = max_idx n ∨ min_idx n < idx c < max_idx n)
              ∧ cmp_func (tree m) key (tnode_key n (idx c)) = 0
              ∧ item = ttree_key2item (tree m) (tnode_key n (idx c))
              ∧ ttree_key_from_cursor m c = Some (tnode_key n (idx c))).
Proof.
  unfold ttree_lookup. case_bool_decide as Hroot.
  { intros [= <- <-]. simpl. repeat split; done. }
  destruct (lookup_descend _ _ _ _ _ _ _ _) as [[p|target marked sd cr]|] eqn:Hdesc;
    [| |done]; simpl.
  - (* the minimum key of a node on the path *)
    destruct (lookup_descend_found _ _ _ _ _ _ _ _ _ Hdesc) as (nd & Hnd & Hc).
    rewrite Hnd. simpl. intros [= <- <-]. simpl.
    split; [done|]. split; [done|]. split; [done|]. intros _. split; [done|].
    exists nd. split; [done|]. split; [by left|]. split; [done|]. split; [done|].
    unfold ttree_key_from_cursor. simpl. by rewrite Hnd.
  - assert ((td ← load m target;
                   if negb (tnode_is_full (tree m) td)
                   then Some (NULL,
                              mkTtreeCursor target
                                (if bool_decide (marked ≠ target) || bool_decide (cr < 0)
                                 then min_idx td else max_idx td + 1)
                                TNODE_BOUND CURSOR_PENDING)
                   else Some (NULL,
                              mkTtreeCursor target (first_tnode_idx (tree m)) sd
                                CURSOR_PENDING)) = Some (item, c) →
              (item ≠ NULL → state c = CURSOR_OPENED)
              ∧ (state c = CURSOR_PENDING → item = NULL)
              ∧ state c ≠ CURSOR_CLOSED
              ∧ (state c = CURSOR_OPENED →
                   side c = TNODE_BOUND
                   ∧ ∃ n, load m (tnode c) = Some n
                     ∧ (idx c = min_idx n ∨ idx c = max_idx n ∨ min_idx n < idx c < max_idx n)
                     ∧ cmp_func (tree m) key (tnode_key n (idx c)) = 0
                     ∧ item = ttree_key2item (tree m) (tnode_key n (idx c))
                     ∧ ttree_key_from_cursor m c = Some (tnode_key n (idx c)))) as Hlast.
    { intros Hr. destruct (load m target) as [td|]; [|done]. simpl in Hr.
      destruct (negb _); injection Hr as <- <-; simpl; repeat split; done. }
    destruct (bool_decide (marked ≠ NULL)) eqn:Hmk; [|exact Hlast].
    destruct (load m marked) as [md|] eqn:Hmd; [|done]. simpl.
    destruct (bool_decide (cmp_func (tree m) key (tnode_key_max md) ≤ 0)) eqn:Hle;
      [|exact Hlast].
    destruct (bool_decide (cmp_func (tree m) key (tnode_key_max md) = 0)) eqn:Heq.
    + (* the maximum key of the marked node *)
      intros [= <- <-]. simpl.
      split; [done|]. split; [done|]. split; [done|]. intros _. split; [done|].
      apply bool_decide_eq_true in Heq.
      exists md. split; [done|]. split; [by right; left|]. split; [done|]. split; [done|].
      unfold ttree_key_from_cursor. simpl. by rewrite Hmd.
    + (* the search inside the marked node *)
      unfold lookup_inside_tnode.
      destruct (TTREE_ASSERT _) eqn:Hassert; [|done]. simpl.
      destruct (lookup_inside_loop _ _ _ _ _ _) as [it f] eqn:Hloop.
      intros [= <- <-]. simpl.
      unfold TTREE_ASSERT in Hassert.
      destruct (bool_decide (0 ≤ min_idx md + 1)) eqn:Hlo; [|done].
      apply bool_decide_eq_true in Hlo.
      destruct (decide (it = NULL)) as [Hit|Hit].
      * rewrite (bool_decide_eq_false_2 (it ≠ NULL)) by (intros Hne; by apply Hne).
        split; [done|]. split; [done|]. split; done.
      * rewrite (bool_decide_eq_true_2 (it ≠ NULL) Hit).
        split; [done|]. split; [done|]. split; [done|]. intros _. split; [done|].
        destruct (lookup_inside_loop_found _ _ _ _ _ _ _ _ Hloop Hlo Hit) as (Hf & Hc & Hitem).
        exists md. split; [done|]. split; [right; right; lia|]. split; [done|].
        split; [done|].
        unfold ttree_key_from_cursor. simpl. by rewrite Hmd.
Qed.

Lemma ttree_lookup_sound_witness :
  ∃ n, load seven_key_mem 1 = Some n
       ∧ cmp_func (tree seven_key_mem) 40 (tnode_key n 3) = 0
       ∧ ttree_key_from_cursor seven_key_mem
           (mkTtreeCursor 1 3 TNODE_BOUND CURSOR_OPENED) = Some (tnode_key n 3).
Proof.
  destruct (ttree_lookup_sound seven_key_mem 40 40
              (mkTtreeCursor 1 3 TNODE_BOUND CURSOR_OPENED))
    as (_ & _ & _ & Hopened).
  - vm_compute. reflexivity.
  - destruct (Hopened eq_refl) as (_ & n & Hn & _ & Hc & _ & Hk).
    exists n. split; [exact Hn|]. split; [exact Hc|exact Hk].
Defined.

(** ** The first insertion *)

(** The first insertion allocates the root node and stores the key in its
    middle slot. *)
Lemma first_insert_spec (item : Z) (m : mem) :
  root (tree m) = NULL →
  TNODE_ITEMS_MIN ≤ keys_per_tnode (tree m) ≤ TNODE_ITEMS_MAX →
  brk m ≠ NULL →
  ∃ n,
    ttree_insert item m
    = Some (0, mkMem (set_root (brk m) (tree m)) (<[brk m := n]> (nodes m)) (brk m + 1))
    ∧ links n = (NULL, NULL, NULL, NULL, 0, 0)
    ∧ bounds n = (first_tnode_idx (tree m), first_tnode_idx (tree m))
    ∧ tnode_key n (first_tnode_idx (tree m)) = ttree_item2key (tree m) item
    ∧ Z.of_nat (length (keys n)) = keys_per_tnode (tree m).
Proof.
  intros Hroot HM Hbrk.
  unfold TNODE_ITEMS_MIN, TNODE_ITEMS_MAX in HM.
  destruct (first_tnode_idx_range (tree m) ltac:(lia)) as [Hf1 Hf2].
  set (k := ttree_item2key (tree m) item) in *.
  set (f := first_tnode_idx (tree m)) in *.
  set (fresh := mkTtreeNode NULL NULL NULL NULL 0 0 0 0
                  (replicate (Z.to_nat (keys_per_tnode (tree m))) 0)).
  set (m0 := fst (allocate_ttree_node m)).
  assert (load m0 (brk m) = Some fresh) as H0 by apply lookup_insert_eq.
  assert (set_key f k fresh
          = Some (set_keys (<[Z.to_nat f := k]> (keys fresh)) fresh)) as Hset.
  { apply set_key_Some. simpl. rewrite length_replicate. lia. }
  set (n1 := set_keys (<[Z.to_nat f := k]> (keys fresh)) fresh) in *.
  set (n2 := set_max_idx f n1).
  set (n3 := set_min_idx (max_idx n2) n2).
  set (n4 := tnode_set_side TNODE_ROOT n3).
  set (m4 := store (brk m) n3 (store (brk m) n2 (store (brk m) n1 m0))).
  set (m5 := store (brk m) n4 (with_root (brk m) m4)).
  assert (ttree_insert_at_cursor_ev
            (mkTtreeCursor (root (tree m)) f TNODE_BOUND CURSOR_PENDING) item m
          = Some (m5, mkTtreeCursor (brk m) (min_idx n4) TNODE_BOUND CURSOR_OPENED, []))
    as Hev.
  { unfold ttree_insert_at_cursor_ev.
    rewrite (bool_decide_eq_true_2 _ Hroot).
    change (allocate_ttree_node m) with (m0, brk m). cbv iota beta.
    fold k f.
    rewrite (update_opt_Some _ _ _ _ _ H0 Hset). cbn [mbind option_bind].
    rewrite (update_Some _ _ _ n1) by apply load_store_eq. cbn [mbind option_bind].
    rewrite load_store_eq. cbn [mbind option_bind].
    rewrite (update_Some _ _ _ n2) by apply load_store_eq. cbn [mbind option_bind].
    rewrite (update_Some _ _ _ n3) by apply load_store_eq. cbn [mbind option_bind].
    unfold ttree_cursor_open_on_node.
    rewrite (bool_decide_eq_true_2 _ Hbrk).
    fold n4 m4 m5. rewrite load_store_eq. done. }
  assert (sbf 12 f = f) as Hsf.
  { apply sbf12_id. split; [lia|]. unfold f, first_tnode_idx.
    rewrite Z.shiftr_div_pow2 by lia. change (2 ^ 1) with 2.
    pose proof (Z.div_mod (keys_per_tnode (tree m)) 2 ltac:(lia)).
    pose proof (Z.mod_pos_bound (keys_per_tnode (tree m)) 2 ltac:(lia)). lia. }
  assert (min_idx n4 = f ∧ max_idx n4 = f) as [Hmin Hmax].
  { simpl. rewrite !Hsf. done. }
  exists n4.
  split.
  { unfold ttree_insert, ttree_lookup. rewrite (bool_decide_eq_true_2 _ Hroot).
    cbn [mbind option_bind]. fold k f.
    unfold ttree_insert_at_cursor. rewrite Hev. cbn [mbind option_bind].
    do 2 f_equal. unfold m5, m4, m0, store, with_root, allocate_ttree_node. simpl.
    f_equal. by rewrite !insert_insert_eq. }
  split; [done|].
  split. { unfold bounds. by rewrite Hmin, Hmax. }
  split.
  { unfold tnode_key. rewrite bool_decide_eq_true_2 by lia. simpl.
    rewrite list_lookup_insert_eq; [done|]. rewrite length_replicate. lia. }
  simpl. rewrite length_insert, length_replicate. lia.
Qed.

(** X4.  On an empty tree whose number of keys per node is one that
    [__ttree_init] accepts, [ttree_insert] returns 0 for every item whose
    key compares equal to itself: it allocates one node, makes it the root,
    a leaf on the [TNODE_ROOT] side with balance factor 0, and stores the
    key in the middle slot [first_tnode_idx]; every other node of the
    memory is untouched.  A lookup of the key then returns the item with
    an opened cursor on that slot, and the keys of the tree are that key
    alone. *)
Theorem insert_into_empty_tree (item : Z) (m : mem) :
  root (tree m) = NULL →
  TNODE_ITEMS_MIN ≤ keys_per_tnode (tree m) ≤ TNODE_ITEMS_MAX →
  cmp_func (tree m) (ttree_item2key (tree m) item) (ttree_item2key (tree m) item) = 0 →
  brk m ≠ NULL → load m (brk m) = None →
  ∃ m1 n,
    ttree_insert item m = Some (0, m1)
    ∧ tree m1 = set_root (brk m) (tree m)
    ∧ load m1 (brk m) = Some n
    ∧ (∀ p, p ≠ brk m → load m1 p = load m p)
    ∧ links n = (NULL, NULL, NULL, NULL, 0, 0)
    ∧ bounds n = (first_tnode_idx (tree m), first_tnode_idx (tree m))
    ∧ tnode_window n = [ttree_item2key (tree m) item]
    ∧ ttree_lookup m1 (ttree_item2key (tree m) item)
      = Some (item, mkTtreeCursor (brk m) (first_tnode_idx (tree m)) TNODE_BOUND
                      CURSOR_OPENED)
    ∧ ttree_keys m1 = Some [ttree_item2key (tree m) item].
Proof.
  intros Hroot HM Hrefl Hbrk Hfresh.
  destruct (first_insert_spec item m Hroot HM Hbrk) as (n & Hins & Hl & Hb & Hkey & Hlen).
  set (k := ttree_item2key (tree m) item) in *.
  set (f := first_tnode_idx (tree m)) in *.
  set (m1 := mkMem (set_root (brk m) (tree m)) (<[brk m := n]> (nodes m)) (brk m + 1)) in *.
  injection Hb as Hmin Hmax.
  assert (load m1 (brk m) = Some n) as Hn by apply lookup_insert_eq.
  assert (tnode_window n = [k]) as Hw.
  { rewrite tnode_window_single; [by rewrite Hmin, Hkey|].
    unfold tnode_num_keys. lia. }
  exists m1, n.
  split; [done|]. split; [done|]. split; [done|].
  split. { intros p Hp. unfold load, m1. simpl. by rewrite lookup_insert_ne. }
  split; [done|].
  split. { unfold bounds. by rewrite Hmin, Hmax. }
  split; [done|].
  split.
  { unfold ttree_lookup. change (root (tree m1)) with (brk m).
    rewrite (bool_decide_eq_false_2 _ Hbrk).
    unfold walk_fuel. cbn [lookup_descend].
    rewrite (bool_decide_eq_false_2 _ Hbrk), Hn. cbn [mbind option_bind].
    change (tree m1) with (set_root (brk m) (tree m)).
    change (cmp_func (set_root (brk m) (tree m))) with (cmp_func (tree m)).
    unfold tnode_key_min. rewrite Hmin, Hkey, Hrefl.
    rewrite !bool_decide_eq_false_2 by lia. cbn [mbind option_bind].
    rewrite Hn. cbn [mbind option_bind]. rewrite Hmin, Hkey.
    unfold ttree_key2item, k, ttree_item2key. simpl. do 3 f_equal. lia. }
  unfold ttree_keys, ttree_chain, ttree_node_leftmost, __tnode_sidemost.
  change (root (tree m1)) with (brk m).
  rewrite (bool_decide_eq_false_2 _ Hbrk).
  unfold walk_fuel. cbn [sidemost_walk]. rewrite Hn. cbn [mbind option_bind].
  unfold links in Hl. injection Hl as Hpar Hsucc Hleft Hright Hbfc Hside.
  unfold sides. simpl. rewrite Hleft. cbn [mbind option_bind].
  rewrite bool_decide_eq_false_2 by (intros H; by apply H).
  cbn [mbind option_bind successor_chain].
  rewrite (bool_decide_eq_false_2 _ Hbrk), Hn. cbn [mbind option_bind].
  rewrite Hsucc.
  destruct (size _); simpl; by rewrite Hw.
Qed.

Lemma insert_into_empty_tree_witness :
  ∃ m1 n,
    ttree_insert 10 (empty_mem 8 true) = Some (0, m1)
    ∧ load m1 1 = Some n
    ∧ tnode_window n = [10]
    ∧ ttree_lookup m1 10 = Some (10, mkTtreeCursor 1 3 TNODE_BOUND CURSOR_OPENED).
Proof.
  destruct (insert_into_empty_tree 10 (empty_mem 8 true))
    as (m1 & n & Hins & _ & Hn & _ & _ & _ & Hw & Hlook & _).
  - reflexivity.
  - vm_compute. split; congruence.
  - reflexivity.
  - vm_compute. congruence.
  - reflexivity.
  - exists m1, n. split; [exact Hins|]. split; [exact Hn|]. split; [exact Hw|exact Hlook].
Defined.

(** ** Where a lookup that misses leaves the cursor *)

Lemma lookup_descend_ended_cr (fuel : nat) (m : mem) (k : Z) (x tg mk : ptr) (sd cr : Z)
    (target marked : ptr) (sd' cr' : Z) :
  lookup_descend fuel m k x tg mk sd cr = Some (Ended target marked sd' cr') →
  x ≠ NULL →
  ∃ td, load m target = Some td ∧ cr' = cmp_func (tree m) k (tnode_key_min td).
Proof.
  revert x tg mk sd cr. induction fuel as [|fuel IH]; intros x tg mk sd cr; simpl.
  { case_bool_decide; [|done]. intros _ Hx. done. }
  case_bool_decide; [intros _ Hx; done|].
  destruct (load m x) as [nd|] eqn:Hnd; [|done]. simpl.
  intros Hrun _.
  assert (∀ y tg2 mk2 sd2 cr2,
            lookup_descend fuel m k y tg2 mk2 sd2 cr2
            = Some (Ended target marked sd' cr') →
            y = NULL → target = tg2 ∧ cr' = cr2) as Hstop.
  { intros y tg2 mk2 sd2 cr2 Hy ->. destruct fuel; simpl in Hy; by injection Hy as -> _ _ ->. }
  case_bool_decide as Hlt.
  - destruct (decide (left nd = NULL)) as [Hnull|Hnn].
    + destruct (Hstop _ _ _ _ _ Hrun Hnull) as (-> & ->). by exists nd.
    + by eapply IH.
  - case_bool_decide as Hgt; [|done].
    destruct (decide (right nd = NULL)) as [Hnull|Hnn].
    + destruct (Hstop _ _ _ _ _ Hrun Hnull) as (-> & ->). by exists nd.
    + by eapply IH.
Qed.

(** A pending cursor of [ttree_lookup] that is bound to a node with room
    came out of the last branch of the function only after the search key
    compared greater than the maximum of the marked node, if there was
    one. *)
Lemma ttree_lookup_past_marked (m : mem) (k it : Z) (c : TtreeCursor) (n : TtreeNode)
    (target marked : ptr) (sd cr : Z) :
  ttree_lookup m k = Some (it, c) →
  root (tree m) ≠ NULL →
  lookup_descend (walk_fuel m) m k (root (tree m)) (root (tree m)) NULL TNODE_BOUND 0
  = Some (Ended target marked sd cr) →
  load m (tnode c) = Some n →
  marked ≠ NULL →
  idx c = max_idx n + 1 →
  tnode c = marked →
  cmp_func (tree m) k (tnode_key_max n) > 0.
Proof.
  intros Hlook Hroot Hdesc Hn Hmk Hidx Htc.
  destruct (lookup_descend_ended _ _ _ _ _ _ _ _ _ _ _ _ Hdesc Hroot (or_introl eq_refl))
    as (_ & [?|(md & Hmd & Hgt)] & _ & _); [done|].
  rewrite <- Htc, Hn in Hmd. injection Hmd as <-.
  unfold ttree_lookup in Hlook.
  rewrite (bool_decide_eq_false_2 _ Hroot), Hdesc in Hlook. simpl in Hlook.
  rewrite (bool_decide_eq_true_2 _ Hmk) in Hlook.
  rewrite <- Htc, Hn in Hlook. simpl in Hlook.
  destruct (decide (cmp_func (tree m) k (tnode_key_max n) ≤ 0)) as [Hle|Hle]; [|lia].
  rewrite (bool_decide_eq_true_2 _ Hle) in Hlook.
  destruct (decide (cmp_func (tree m) k (tnode_key_max n) = 0)) as [Hz|Hz].
  - rewrite (bool_decide_eq_true_2 _ Hz) in Hlook. injection Hlook as _ Hc.
    rewrite <- Hc in Hidx. simpl in Hidx. lia.
  - rewrite (bool_decide_eq_false_2 _ Hz) in Hlook.
    unfold lookup_inside_tnode in Hlook.
    destruct (TTREE_ASSERT _) eqn:Hassert; [|done]. simpl in Hlook.
    destruct (lookup_inside_loop _ _ _ _ _ _) as [it' f] eqn:Hloop.
    injection Hlook as _ Hc. rewrite <- Hc in Hidx. simpl in Hidx. subst f.
    unfold TTREE_ASSERT in Hassert.
    destruct (bool_decide (0 ≤ min_idx n + 1)) eqn:Hlo; [|done].
    apply bool_decide_eq_true in Hlo.
    assert (∀ fuel lo hi it0 f0,
              lookup_inside_loop fuel (tree m) n k lo hi = (it0, f0) →
              0 ≤ lo → lo ≤ hi + 1 → f0 ≤ hi + 1) as Hbound.
    { clear. intros fuel. induction fuel as [|fuel IH]; intros lo hi it0 f0; simpl.
      - intros [= <- <-] ? ?. lia.
      - case_bool_decide as Hrange; [|intros [= <- <-] ? ?; lia].
        intros Hrun Hlo _.
        destruct (shiftr_mid lo hi Hlo Hrange) as [Hm1 Hm2].
        set (mid := Z.shiftr (lo + hi) 1) in *.
        case_bool_decide as Hlt.
        + pose proof (IH _ _ _ _ Hrun Hlo ltac:(lia)). lia.
        + case_bool_decide as Hgt.
          * pose proof (IH _ _ _ _ Hrun ltac:(lia) ltac:(lia)). lia.
          * injection Hrun as <- <-. lia. }
    destruct (decide (min_idx n + 1 ≤ max_idx n - 1 + 1)) as [Hr|Hr].
    + pose proof (Hbound _ _ _ _ _ Hloop Hlo Hr). lia.
    + assert (max_idx n = min_idx n) as Heq.
      { destruct (Z.to_nat _) in Hloop; simpl in Hloop.
        - injection Hloop as _ Hf. lia.
        - rewrite bool_decide_eq_false_2 in Hloop by lia. injection Hloop as _ Hf. lia. }
      unfold tnode_key_max in Hle |- *. unfold tnode_key_min in Hgt.
      rewrite Heq in Hle |- *. lia.
Qed.

(** The cursor of a lookup that misses, when it is bound to a node with
    room whose window is sorted and does not hold the key, stands at the
    insertion point of the key in that node. *)
Lemma ttree_lookup_miss_position (m : mem) (k : Z) (c : TtreeCursor) (n : TtreeNode) :
  cmp_order (cmp_func (tree m)) →
  load m NULL = None →
  ttree_lookup m k = Some (NULL, c) →
  state c = CURSOR_PENDING →
  load m (tnode c) = Some n →
  tnode_is_full (tree m) n = false →
  1 ≤ tnode_num_keys n →
  window_sorted (cmp_func (tree m)) (tnode_window n) →
  key_absent (cmp_func (tree m)) k (tnode_window n) →
  ∃ target marked sd cr,
    lookup_descend (walk_fuel m) m k (root (tree m)) (root (tree m)) NULL TNODE_BOUND 0
    = Some (Ended target marked sd cr)
    ∧ root (tree m) ≠ NULL ∧ tnode c ≠ NULL ∧ side c = TNODE_BOUND
    ∧ min_idx n ≤ idx c ≤ max_idx n + 1
    ∧ ((tnode c = target ∧ idx c = min_idx n)
       ∨ (tnode c = marked ∧ idx c = max_idx n + 1)
       ∨ (tnode c = marked ∧ min_idx n + 1 ≤ idx c ≤ max_idx n
          ∧ cmp_func (tree m) k (tnode_key_max n) < 0))
    ∧ (∀ i, min_idx n ≤ i < idx c → cmp_func (tree m) k (tnode_key n i) > 0)
    ∧ (∀ i, idx c ≤ i ≤ max_idx n → cmp_func (tree m) k (tnode_key n i) < 0).
Proof.
  intros Hcmp Hnull Hlook Hst Hn Hroom Hnk Hsorted Habsent.
  destruct (ttree_lookup_pending m k NULL c n Hnull Hlook Hst Hn Hroom)
    as (target & marked & sd & cr & Hdesc & Hroot & Hside & _ & Hcase).
  destruct (lookup_descend_ended _ _ _ _ _ _ _ _ _ _ _ _ Hdesc Hroot (or_introl eq_refl))
    as (_ & Hmarked & Hmt & Hcrm).
  destruct (lookup_descend_ended_cr _ _ _ _ _ _ _ _ _ _ _ _ Hdesc Hroot)
    as (td & Htd & Hcr).
  assert (tnode c ≠ NULL) as Htc by (intros Heq; rewrite Heq in Hn; congruence).
  exists target, marked, sd, cr.
  split; [done|]. split; [done|]. split; [done|]. split; [done|].
  unfold tnode_num_keys in Hnk.
  assert (∀ i j, min_idx n ≤ i → i < j → j ≤ max_idx n →
            cmp_func (tree m) (tnode_key n i) (tnode_key n j) < 0) as Hslots.
  { intros i j ? ? ?. by apply window_sorted_slots. }
  destruct Hcase as [(Hmk & Htm & Hc0 & Hin)|(Htt & Hi)].
  - (* the search inside the marked node *)
    destruct Hmarked as [?|(md & Hmd & Hgt)]; [done|].
    rewrite <- Htm, Hn in Hmd. injection Hmd as <-.
    unfold lookup_inside_tnode in Hin.
    destruct (TTREE_ASSERT _) eqn:Hassert; [|done]. simpl in Hin. injection Hin as Hloop.
    unfold TTREE_ASSERT in Hassert.
    destruct (bool_decide (0 ≤ min_idx n + 1)) eqn:Hlo; [|done].
    apply bool_decide_eq_true in Hlo. clear Hassert.
    destruct (lookup_inside_loop_miss (tree m) n k Hcmp
                (Z.to_nat (max_idx n - 1 - (min_idx n + 1) + 1))
                (min_idx n + 1) (max_idx n - 1))
      as (f & Hf & Hf1 & Hf2 & Hbelow & Habove).
    { intros i j ? ? ?. apply Hslots; lia. }
    { intros i Hi. apply Habsent. eapply list_elem_of_lookup_2.
      apply (tnode_window_slot n i). lia. }
    { lia. }
    { lia. }
    rewrite Hf in Hloop. injection Hloop as <-.
    assert (min_idx n < max_idx n) as Hmm.
    { destruct (decide (min_idx n = max_idx n)) as [Heq|?]; [|lia].
      unfold tnode_key_max, tnode_key_min in *. rewrite <- Heq in Hc0. lia. }
    split; [lia|]. split; [right; right; split; [done|]; split; [lia|done]|].
    split.
    + intros i Hi. destruct (decide (i = min_idx n)) as [->|?]; [done|].
      apply Hbelow. lia.
    + intros i Hi. destruct (decide (i = max_idx n)) as [->|?]; [done|].
      apply Habove. lia.
  - rewrite Htt, Htd in Hn. injection Hn as ->.
    destruct (bool_decide (marked ≠ target) || bool_decide (cr < 0)) eqn:Hb.
    + (* in front of the minimum *)
      assert (cr < 0) as Hneg.
      { destruct Hcrm as [?|Heq]; [done|].
        apply orb_true_iff in Hb as [Hb|Hb].
        - apply bool_decide_eq_true in Hb. done.
        - by apply bool_decide_eq_true in Hb. }
      split; [lia|]. split; [by left|]. split; [intros i ?; lia|].
      intros i Hr. destruct (decide (i = min_idx n)) as [->|?].
      * unfold tnode_key_min in Hcr. lia.
      * apply (cmp_trans _ Hcmp _ (tnode_key n (min_idx n))).
        -- unfold tnode_key_min in Hcr. lia.
        -- apply Hslots; lia.
    + (* behind the maximum *)
      apply orb_false_iff in Hb as [Hb _]. apply bool_decide_eq_false in Hb.
      assert (marked = target) as Hmeq by (by destruct (decide (marked = target))).
      assert (cmp_func (tree m) k (tnode_key_max n) > 0) as Hmax.
      { eapply (ttree_lookup_past_marked m k NULL c n); try done.
        - rewrite Htt. done.
        - rewrite Hmeq, <- Htt. done.
        - congruence. }
      split; [lia|]. split; [right; left; split; [congruence|done]|].
      split; [|intros i ?; lia].
      intros i Hr. destruct (decide (i = max_idx n)) as [->|?]; [done|].
      apply (cmp_flip _ Hcmp).
      apply (cmp_trans _ Hcmp _ (tnode_key n (max_idx n))).
      * apply Hslots; lia.
      * apply (cmp_flip _ Hcmp). done.
Qed.

(** ** Insertion where the lookup bound the key *)

(** A bound insertion into a node with room stores the key at the
    insertion point, and a lookup of the key then finds it there. *)
Lemma bound_insert_lookup (item : Z) (m : mem) (c : TtreeCursor) (n : TtreeNode) :
  cmp_order (cmp_func (tree m)) →
  item ≠ NULL →
  load m NULL = None →
  ttree_lookup m (ttree_item2key (tree m) item) = Some (NULL, c) →
  state c = CURSOR_PENDING →
  load m (tnode c) = Some n →
  tnode_wf (tree m) n →
  tnode_is_full (tree m) n = false →
  1 ≤ tnode_num_keys n →
  window_sorted (cmp_func (tree m)) (tnode_window n) →
  key_absent (cmp_func (tree m)) (ttree_item2key (tree m) item) (tnode_window n) →
  ∃ n1 s,
    ttree_insert item m = Some (0, store (tnode c) n1 m)
    ∧ links n1 = links n
    ∧ tnode_wf (tree m) n1
    ∧ min_idx n ≤ idx c ≤ max_idx n + 1
    ∧ tnode_window n1
      = insert_at (Z.to_nat (idx c - min_idx n)) (ttree_item2key (tree m) item)
          (tnode_window n)
    ∧ window_sorted (cmp_func (tree m)) (tnode_window n1)
    ∧ min_idx n1 ≤ s ≤ max_idx n1
    ∧ tnode_key n1 s = ttree_item2key (tree m) item
    ∧ ttree_lookup (store (tnode c) n1 m) (ttree_item2key (tree m) item)
      = Some (item, mkTtreeCursor (tnode c) s TNODE_BOUND CURSOR_OPENED).
Proof.
  intros Hcmp Hitem Hnull Hlook Hst Hn Hwf Hroom Hnk Hsorted Habsent.
  set (k := ttree_item2key (tree m) item) in *.
  assert (ttree_key2item (tree m) k = item) as Hk2i
    by (unfold k, ttree_key2item, ttree_item2key; lia).
  destruct (ttree_lookup_miss_position m k c n Hcmp Hnull Hlook Hst Hn Hroom Hnk
              Hsorted Habsent)
    as (target & marked & sd & cr & Hdesc & Hroot & Htc & Hside & Hidx & Hwhere
        & Hbelow & Habove).
  pose proof Hwf as [Hlen Hmin Hmax Hwin Hfit].
  assert (tnode_num_keys n < keys_per_tnode (tree m)) as Hlt.
  { unfold tnode_is_full in Hroom. apply bool_decide_eq_false in Hroom.
    unfold tnode_num_keys in *. lia. }
  (* the insertion *)
  destruct (increase_then_store (tree m) n (idx c) k Hwf Hlt Hidx)
    as (n0 & s & n1 & Hinc & Hset & Hl1 & Hwf1 & Hnk1 & Hs & Hw1).
  set (j := Z.to_nat (idx c - min_idx n)) in *.
  set (m1 := store (tnode c) n1 m).
  assert (ttree_insert item m = Some (0, m1)) as Hins.
  { unfold ttree_insert. fold k. rewrite Hlook. simpl.
    unfold ttree_insert_at_cursor, ttree_insert_at_cursor_ev. fold k.
    rewrite (bool_decide_eq_false_2 _ Hroot), (bool_decide_eq_true_2 _ Hside).
    rewrite Hn. simpl. rewrite Hroom, Hinc. simpl. rewrite Hset. done. }
  pose proof Hwf1 as [Hlen1 Hmin1 Hmax1 Hwin1 _].
  unfold tnode_num_keys in Hnk, Hnk1, Hlt.
  assert (length (tnode_window n) = Z.to_nat (max_idx n - min_idx n + 1)) as Hlenw
    by apply tnode_window_length.
  assert (j = Z.to_nat (s - min_idx n1)) as Hsj by (unfold j; lia).
  assert (min_idx n1 ≤ s ≤ max_idx n1) as Hsr by lia.
  assert (tnode_key n1 s = k) as Hks.
  { assert (tnode_window n1 !! j = Some k) as Hj.
    { rewrite Hw1, insert_at_lookup by lia.
      rewrite bool_decide_eq_false_2 by lia. by rewrite bool_decide_eq_true_2. }
    rewrite Hsj in Hj.
    rewrite tnode_window_slot in Hj by lia. by injection Hj. }
  assert (window_sorted (cmp_func (tree m)) (tnode_window n1)) as Hsorted1.
  { rewrite Hw1. apply insert_at_sorted; [lia|done| |].
    - intros q a Hq Ha. apply (cmp_flip _ Hcmp).
      replace q with (Z.to_nat (min_idx n + Z.of_nat q - min_idx n)) in Ha by lia.
      rewrite tnode_window_slot in Ha by lia. injection Ha as <-.
      apply Hbelow. lia.
    - intros q a Hq Ha.
      assert (q < length (tnode_window n))%nat by (by eapply lookup_lt_Some).
      replace q with (Z.to_nat (min_idx n + Z.of_nat q - min_idx n)) in Ha by lia.
      rewrite tnode_window_slot in Ha by lia. injection Ha as <-.
      apply Habove. lia. }
  assert (j ≠ 0%nat → tnode_key_min n1 = tnode_key_min n) as Hsame_min.
  { intros Hj0. assert (tnode_window n1 !! 0%nat = tnode_window n !! 0%nat) as H0.
    { rewrite Hw1, insert_at_lookup by lia. rewrite bool_decide_eq_true_2 by lia. done. }
    pose proof (tnode_window_slot n1 (min_idx n1) ltac:(lia)) as Ha.
    pose proof (tnode_window_slot n (min_idx n) ltac:(lia)) as Hb.
    rewrite Z.sub_diag in Ha, Hb. change (Z.to_nat 0) with 0%nat in Ha, Hb.
    unfold tnode_key_min. congruence. }
  (* the lookup finds the key where the insertion put it *)
  assert (ttree_lookup m1 k
          = Some (item, mkTtreeCursor (tnode c) s TNODE_BOUND CURSOR_OPENED)) as Hlook1.
  { destruct Hwhere as [(Htt & Hi)|[(Htm & Hi)|(Htm & Hi & Hc0)]].
    - (* new minimum *)
      assert (s = min_idx n1) as -> by lia.
      unfold m1. rewrite Htt in Hn |- *.
      erewrite lookup_hit_at_min; [|done|exact Hn|exact Hdesc|].
      + unfold tnode_key_min. by rewrite Hks, Hk2i.
      + unfold tnode_key_min. rewrite Hks. apply (cmp_refl _ Hcmp).
    - (* new maximum *)
      assert (s = max_idx n1) as -> by lia.
      unfold m1. rewrite Htm in Hn, Htc |- *.
      erewrite lookup_hit_in_marked; [|done|done|exact Hn|done| |exact Hdesc|].
      + unfold tnode_key_max. rewrite Hks, (cmp_refl _ Hcmp).
        rewrite bool_decide_eq_true_2 by done. by rewrite Hk2i.
      + apply Hsame_min. lia.
      + unfold tnode_key_max. rewrite Hks, (cmp_refl _ Hcmp). done.
    - (* inside the window *)
      assert (tnode_key_max n1 = tnode_key_max n) as Hsame_max.
      { assert (tnode_window n1 !! Z.to_nat (max_idx n1 - min_idx n1)
                = tnode_window n !! Z.to_nat (max_idx n - min_idx n)) as H0.
        { rewrite Hw1, insert_at_lookup by lia.
          rewrite !bool_decide_eq_false_2 by lia. f_equal. lia. }
        rewrite (tnode_window_slot n1 (max_idx n1)) in H0 by lia.
        rewrite (tnode_window_slot n (max_idx n)) in H0 by lia.
        by injection H0. }
      unfold m1. rewrite Htm in Hn, Htc |- *.
      erewrite lookup_hit_in_marked; [|done|done|exact Hn|done| |exact Hdesc|].
      + rewrite Hsame_max. rewrite bool_decide_eq_false_2 by lia.
        unfold lookup_inside_tnode.
        rewrite !bool_decide_eq_true_2 by lia. simpl.
        erewrite lookup_inside_loop_hit; [|exact Hcmp| |split|exact Hks|..].
        * simpl. rewrite Hk2i. rewrite bool_decide_eq_true_2 by done. done.
        * intros i i' ? ? ?. apply window_sorted_slots; [done|lia..].
        * lia.
        * lia.
        * lia.
        * lia.
      + apply Hsame_min. lia.
      + rewrite Hsame_max. lia. }
  exists n1, s. do 8 (split; [done|]). done.
Qed.

(** X5.  Take a tree whose lookup of an absent key binds the key to a
    well-formed node with room whose window is sorted.  [ttree_insert] of
    an item with that key returns 0 and changes that node only: its links
    are kept and its window is the old one with the key put in at the
    cursor's position, still sorted.  A lookup of the key then returns the
    item, with an opened cursor on the slot of the key.  When keys are
    unique, a second [ttree_insert] of the item returns -1 and leaves the
    tree as it is. *)
Theorem insert_then_lookup (item : Z) (m : mem) (c : TtreeCursor) (n : TtreeNode) :
  cmp_order (cmp_func (tree m)) →
  item ≠ NULL →
  load m NULL = None →
  ttree_lookup m (ttree_item2key (tree m) item) = Some (NULL, c) →
  state c = CURSOR_PENDING →
  load m (tnode c) = Some n →
  tnode_wf (tree m) n →
  tnode_is_full (tree m) n = false →
  1 ≤ tnode_num_keys n →
  window_sorted (cmp_func (tree m)) (tnode_window n) →
  key_absent (cmp_func (tree m)) (ttree_item2key (tree m) item) (tnode_window n) →
  ∃ m1 n1 c1,
    ttree_insert item m = Some (0, m1)
    ∧ tree m1 = tree m ∧ dom (nodes m1) = dom (nodes m)
    ∧ (∀ p, p ≠ tnode c → load m1 p = load m p)
    ∧ load m1 (tnode c) = Some n1
    ∧ links n1 = links n
    ∧ tnode_window n1
      = insert_at (Z.to_nat (idx c - min_idx n)) (ttree_item2key (tree m) item)
          (tnode_window n)
    ∧ window_sorted (cmp_func (tree m)) (tnode_window n1)
    ∧ ttree_lookup m1 (ttree_item2key (tree m) item) = Some (item, c1)
    ∧ state c1 = CURSOR_OPENED ∧ tnode c1 = tnode c
    ∧ ttree_key_from_cursor m1 c1 = Some (ttree_item2key (tree m) item)
    ∧ (keys_are_unique (tree m) = true → ttree_insert item m1 = Some (-1, m1)).
Proof.
  intros Hcmp Hitem Hnull Hlook Hst Hn Hwf Hroom Hnk Hsorted Habsent.
  destruct (bound_insert_lookup item m c n Hcmp Hitem Hnull Hlook Hst Hn Hwf Hroom Hnk
              Hsorted Habsent)
    as (n1 & s & Hins & Hl & Hwf1 & Hidx & Hw & Hsorted1 & Hs & Hks & Hlook1).
  exists (store (tnode c) n1 m), n1, (mkTtreeCursor (tnode c) s TNODE_BOUND CURSOR_OPENED).
  split; [done|]. split; [done|].
  split. { by apply (dom_store _ _ n). }
  split. { intros p Hp. by rewrite load_store_ne. }
  split. { apply load_store_eq. }
  split; [done|]. split; [done|]. split; [done|]. split; [done|].
  split; [done|]. split; [done|].
  split.
  { unfold ttree_key_from_cursor. simpl. rewrite load_store_eq. simpl. by rewrite Hks. }
  intros Huniq. unfold ttree_insert.
  change (tree (store (tnode c) n1 m)) with (tree m). rewrite Hlook1. simpl.
  rewrite (bool_decide_eq_true_2 _ Hitem), Huniq. done.
Qed.

Lemma seven_key_node_wf : tnode_wf tree8 seven_key_node.
Proof. constructor; vm_compute; congruence. Qed.

Lemma seven_key_window_sorted : window_sorted int_cmp (tnode_window seven_key_node).
Proof. apply window_sorted_chain; [apply int_cmp_order|reflexivity]. Qed.

Lemma seven_key_absent_45 : key_absent int_cmp 45 (tnode_window seven_key_node).
Proof.
  refine (proj1 (Forall_forall (λ a : Z, int_cmp 45 a ≠ 0) [10; 20; 30; 40; 50; 60; 70]) _).
  repeat constructor; vm_compute; congruence.
Qed.

Lemma insert_then_lookup_witness :
  ∃ m1 c1,
    ttree_insert 45 seven_key_mem = Some (0, m1)
    ∧ ttree_lookup m1 45 = Some (45, c1)
    ∧ ttree_insert 45 m1 = Some (-1, m1).
Proof.
  destruct (insert_then_lookup 45 seven_key_mem
              (mkTtreeCursor 1 4 TNODE_BOUND CURSOR_PENDING) seven_key_node)
    as (m1 & n1 & c1 & Hins & _ & _ & _ & _ & _ & _ & _ & Hlook & _ & _ & _ & Hdup).
  - apply int_cmp_order.
  - done.
  - reflexivity.
  - vm_compute. reflexivity.
  - reflexivity.
  - reflexivity.
  - exact seven_key_node_wf.
  - reflexivity.
  - vm_compute. congruence.
  - exact seven_key_window_sorted.
  - exact seven_key_absent_45.
  - exists m1, c1. split; [exact Hins|]. split; [exact Hlook|]. apply Hdup. reflexivity.
Defined.

(** ** Stepping off a pending cursor *)

(** X6.  After a lookup that misses and binds the key to a node with room
    (the window sorted), [ttree_cursor_next] returns [TCSR_OK] and opens
    the cursor where it stands.  Every key of the node in front of the
    cursor is smaller than the search key; when the cursor is inside the
    window it is on the first key of the node greater than the search
    key.  When there is a slot in front of the cursor,
    [ttree_cursor_prev] returns [TCSR_OK] and opens the cursor one slot
    down in the same node, on the last key smaller than the search key. *)
Theorem lookup_miss_then_step (m : mem) (k : Z) (c : TtreeCursor) (n : TtreeNode) :
  cmp_order (cmp_func (tree m)) →
  load m NULL = None →
  ttree_lookup m k = Some (NULL, c) →
  state c = CURSOR_PENDING →
  load m (tnode c) = Some n →
  tnode_is_full (tree m) n = false →
  1 ≤ tnode_num_keys n →
  window_sorted (cmp_func (tree m)) (tnode_window n) →
  key_absent (cmp_func (tree m)) k (tnode_window n) →
  ttree_cursor_next m c = Some (TCSR_OK, set_state CURSOR_OPENED c)
  ∧ (∀ i, min_idx n ≤ i < idx c → cmp_func (tree m) k (tnode_key n i) > 0)
  ∧ (idx c ≤ max_idx n →
       ttree_key_from_cursor m (set_state CURSOR_OPENED c) = Some (tnode_key n (idx c))
       ∧ cmp_func (tree m) k (tnode_key n (idx c)) < 0)
  ∧ (min_idx n < idx c →
       ∃ c', ttree_cursor_prev m c = Some (TCSR_OK, c')
             ∧ state c' = CURSOR_OPENED ∧ side c' = TNODE_BOUND
             ∧ tnode c' = tnode c ∧ idx c' = idx c - 1
             ∧ ttree_key_from_cursor m c' = Some (tnode_key n (idx c - 1))
             ∧ cmp_func (tree m) k (tnode_key n (idx c - 1)) > 0
             ∧ ∀ i, idx c ≤ i ≤ max_idx n → cmp_func (tree m) k (tnode_key n i) < 0).
Proof.
  intros Hcmp Hnull Hlook Hst Hn Hroom Hnk Hsorted Habsent.
  destruct (ttree_lookup_miss_position m k c n Hcmp Hnull Hlook Hst Hn Hroom Hnk
              Hsorted Habsent)
    as (target & marked & sd & cr & _ & _ & Htc & Hside & Hidx & _ & Hbelow & Habove).
  destruct c as [ctn ci cs cst]. simpl in *. subst cs cst.
  split.
  { unfold ttree_cursor_next. simpl. rewrite (bool_decide_eq_true_2 _ Htc). simpl.
    rewrite Hn. simpl.
    rewrite (bool_decide_eq_false_2 (ci < min_idx n)) by lia. done. }
  split; [done|].
  split.
  { intros Hin. split; [|apply Habove; lia].
    unfold ttree_key_from_cursor. simpl. by rewrite Hn. }
  intros Hfront.
  destruct (decide (ci > max_idx n)) as [Hpast|Hpast].
  - exists (mkTtreeCursor ctn (max_idx n) TNODE_BOUND CURSOR_OPENED).
    assert (max_idx n = ci - 1) as Hmax by lia.
    split.
    { unfold ttree_cursor_prev. simpl. rewrite Hn. simpl.
      rewrite (bool_decide_eq_true_2 _ Hpast). done. }
    split; [done|]. split; [done|]. split; [done|]. split; [done|].
    split. { unfold ttree_key_from_cursor. simpl. by rewrite Hn, Hmax. }
    split; [apply Hbelow; lia|done].
  - exists (mkTtreeCursor ctn (ci - 1) TNODE_BOUND CURSOR_OPENED).
    split.
    { unfold ttree_cursor_prev. simpl. rewrite Hn. simpl.
      rewrite (bool_decide_eq_false_2 _ Hpast). simpl.
        rewrite (bool_decide_eq_false_2 (ci < min_idx n)) by lia. simpl.
      unfold cursor_step_backward. simpl. rewrite Hn. simpl.
      rewrite (bool_decide_eq_false_2 (ci = min_idx n)) by lia. done. }
    split; [done|]. split; [done|]. split; [done|]. split; [done|].
    split. { unfold ttree_key_from_cursor. simpl. by rewrite Hn. }
    split; [apply Hbelow; lia|done].
Qed.

Lemma lookup_miss_then_step_witness :
  ttree_cursor_next seven_key_mem (mkTtreeCursor 1 4 TNODE_BOUND CURSOR_PENDING)
  = Some (TCSR_OK, mkTtreeCursor 1 4 TNODE_BOUND CURSOR_OPENED)
  ∧ ttree_key_from_cursor seven_key_mem (mkTtreeCursor 1 4 TNODE_BOUND CURSOR_OPENED)
    = Some 50.
Proof.
  destruct (lookup_miss_then_step seven_key_mem 45
              (mkTtreeCursor 1 4 TNODE_BOUND CURSOR_PENDING) seven_key_node)
    as (Hnext & _ & Hin & _).
  - apply int_cmp_order.
  - reflexivity.
  - vm_compute. reflexivity.
  - reflexivity.
  - reflexivity.
  - reflexivity.
  - vm_compute. congruence.
  - exact seven_key_window_sorted.
  - exact seven_key_absent_45.
  - split; [exact Hnext|]. apply Hin. vm_compute. congruence.
Defined.

(** ** Iterating with a cursor *)

Lemma sidemost_walk_loaded (fuel : nat) (m : mem) (n p : ptr) (sd : Z) :
  sidemost_walk fuel m n sd = Some p →
  ∃ nd, load m p = Some nd ∧ sides nd sd = Some NULL.
Proof.
  revert n. induction fuel as [|fuel IH]; intros n; simpl; [done|].
  destruct (load m n) as [nd|] eqn:Hnd; [|done]. simpl.
  destruct (sides nd sd) as [ch|] eqn:Hch; [|done]. simpl.
  case_bool_decide as Hc; [apply IH|].
  intros [= <-]. exists nd. split; [done|].
  destruct (decide (ch = NULL)) as [->|?]; [done|]. by destruct Hc.
Qed.

Lemma tnode_window_drop (n : TtreeNode) (i : Z) :
  min_idx n ≤ i ≤ max_idx n →
  drop (Z.to_nat (i - min_idx n)) (tnode_window n)
  = tnode_key n i :: drop (Z.to_nat (i + 1 - min_idx n)) (tnode_window n).
Proof.
  intros Hi. replace (Z.to_nat (i + 1 - min_idx n)) with (S (Z.to_nat (i - min_idx n))) by lia.
  apply drop_S. by apply tnode_window_slot.
Qed.

Lemma tnode_window_drop_all (n : TtreeNode) :
  drop (Z.to_nat (max_idx n + 1 - min_idx n)) (tnode_window n) = [].
Proof.
  apply drop_ge. rewrite tnode_window_length. unfold tnode_num_keys. lia.
Qed.

Lemma cursor_scan_end (fuel : nat) (m : mem) (c : TtreeCursor) :
  cursor_scan fuel m TCSR_END c = Some [].
Proof. by destruct fuel. Qed.

(** From an opened cursor on a slot of a window, the iteration reads the
    rest of the window and then the windows of the successors. *)
Lemma cursor_scan_chain (f : nat) (m : mem) :
  ∀ (d : nat) (c : TtreeCursor) (nd : TtreeNode) (rest : list (list Z)),
    state c = CURSOR_OPENED → tnode c ≠ NULL →
    load m (tnode c) = Some nd →
    min_idx nd ≤ idx c ≤ max_idx nd →
    d = Z.to_nat (max_idx nd - idx c) →
    successor_chain f m (successor nd) = Some rest →
    Forall (λ w, w ≠ []) rest →
    ∃ f0, ∀ fuel, (f0 ≤ fuel)%nat →
      cursor_scan fuel m TCSR_OK c
      = Some (drop (Z.to_nat (idx c - min_idx nd)) (tnode_window nd) ++ concat rest).
Proof.
  induction f as [|f IHf].
  - (* no successor can be read *)
    induction d as [|d IHd]; intros c nd rest Hst Htn Hnd Hi Hd Hchain Hne.
    + simpl in Hchain. case_bool_decide as Hsucc; [|done]. injection Hchain as <-.
      exists 1%nat. intros [|fuel] Hfuel; [lia|]. simpl.
      unfold ttree_key_from_cursor. rewrite Hst. simpl. rewrite Hnd. simpl.
      unfold ttree_cursor_next. rewrite (bool_decide_eq_true_2 _ Htn), Hst. simpl.
      unfold cursor_step_forward. simpl. rewrite Hnd. simpl.
      rewrite (bool_decide_eq_true_2 (idx c = max_idx nd)) by lia.
      rewrite bool_decide_eq_false_2 by (intros H; by apply H). simpl.
      rewrite cursor_scan_end. simpl.
      rewrite (tnode_window_drop nd (idx c)) by lia.
      replace (idx c + 1) with (max_idx nd + 1) by lia.
      by rewrite tnode_window_drop_all.
    + destruct (IHd (set_idx (idx c + 1) (set_side TNODE_BOUND c)) nd rest)
        as (f0 & Hf0); try done; simpl; try lia.
      exists (S f0). intros [|fuel] Hfuel; [lia|]. simpl.
      unfold ttree_key_from_cursor. rewrite Hst. simpl. rewrite Hnd. simpl.
      unfold ttree_cursor_next. rewrite (bool_decide_eq_true_2 _ Htn), Hst. simpl.
      unfold cursor_step_forward. simpl. rewrite Hnd. simpl.
      rewrite (bool_decide_eq_false_2 (idx c = max_idx nd)) by lia. simpl.
      rewrite Hf0 by lia. simpl.
      by rewrite (tnode_window_drop nd (idx c)) by lia.
  - induction d as [|d IHd]; intros c nd rest Hst Htn Hnd Hi Hd Hchain Hne.
    + simpl in Hchain. case_bool_decide as Hsucc.
      * injection Hchain as <-.
        exists 1%nat. intros [|fuel] Hfuel; [lia|]. simpl.
        unfold ttree_key_from_cursor. rewrite Hst. simpl. rewrite Hnd. simpl.
        unfold ttree_cursor_next. rewrite (bool_decide_eq_true_2 _ Htn), Hst. simpl.
        unfold cursor_step_forward. simpl. rewrite Hnd. simpl.
        rewrite (bool_decide_eq_true_2 (idx c = max_idx nd)) by lia.
        rewrite bool_decide_eq_false_2 by (intros H; by apply H). simpl.
        rewrite cursor_scan_end. simpl.
        rewrite (tnode_window_drop nd (idx c)) by lia.
        replace (idx c + 1) with (max_idx nd + 1) by lia.
        by rewrite tnode_window_drop_all.
      * destruct (load m (successor nd)) as [sn|] eqn:Hsn; [|done]. simpl in Hchain.
        destruct (successor_chain f m (successor sn)) as [rest'|] eqn:Hrest; [|done].
        injection Hchain as <-.
        apply Forall_cons in Hne as [Hw Hne].
        assert (min_idx sn ≤ max_idx sn) as Hsw.
        { destruct (decide (min_idx sn ≤ max_idx sn)) as [?|Hgt]; [done|].
          destruct Hw. apply nil_length_inv. rewrite tnode_window_length.
          unfold tnode_num_keys. lia. }
        destruct (IHf (Z.to_nat (max_idx sn - min_idx sn))
                    (set_idx (min_idx sn) (set_tnode (successor nd) (set_side TNODE_BOUND c)))
                    sn rest')
          as (f0 & Hf0); try done; simpl; try lia.
        exists (S f0). intros [|fuel] Hfuel; [lia|]. simpl.
        unfold ttree_key_from_cursor. rewrite Hst. simpl. rewrite Hnd. simpl.
        unfold ttree_cursor_next. rewrite (bool_decide_eq_true_2 _ Htn), Hst. simpl.
        unfold cursor_step_forward. simpl. rewrite Hnd. simpl.
        rewrite (bool_decide_eq_true_2 (idx c = max_idx nd)) by lia.
        rewrite (bool_decide_eq_true_2 _ Hsucc), Hsn. simpl.
        rewrite Hf0 by lia. simpl.
        rewrite Z.sub_diag. change (Z.to_nat 0) with 0%nat. rewrite drop_0.
        rewrite (tnode_window_drop nd (idx c)) by lia.
        replace (idx c + 1) with (max_idx nd + 1) by lia.
        by rewrite tnode_window_drop_all.
    + destruct (IHd (set_idx (idx c + 1) (set_side TNODE_BOUND c)) nd rest)
        as (f0 & Hf0); try done; simpl; try lia.
      exists (S f0). intros [|fuel] Hfuel; [lia|]. simpl.
      unfold ttree_key_from_cursor. rewrite Hst. simpl. rewrite Hnd. simpl.
      unfold ttree_cursor_next. rewrite (bool_decide_eq_true_2 _ Htn), Hst. simpl.
      unfold cursor_step_forward. simpl. rewrite Hnd. simpl.
      rewrite (bool_decide_eq_false_2 (idx c = max_idx nd)) by lia. simpl.
      rewrite Hf0 by lia. simpl.
      by rewrite (tnode_window_drop nd (idx c)) by lia.
Qed.

(** X7.  When the walk from the leftmost node along the successor links
    ends and every node on it holds at least one key, the forward
    iteration [ttree_cursor_first], [ttree_cursor_next], ... until
    [TCSR_END] terminates, and the keys under the cursor are those of the
    windows of the chain, node after node, each window from its first
    slot to its last: exactly the list the
    [tnode_for_each_index] walk produces.  On an empty tree the iteration
    reads nothing. *)
Theorem cursor_scan_reads_chain (m : mem) (c : TtreeCursor) (ws : list (list Z)) :
  load m NULL = None →
  ttree_chain m = Some ws →
  Forall (λ w, w ≠ []) ws →
  ∃ f0, ∀ fuel, (f0 ≤ fuel)%nat →
    cursor_scan_all fuel m c = Some (concat ws)
    ∧ ttree_keys m = Some (concat ws).
Proof.
  intros Hnull Hchain Hne.
  assert (ttree_keys m = Some (concat ws)) as Hkeys.
  { unfold ttree_keys. by rewrite Hchain. }
  unfold ttree_chain in Hchain. unfold cursor_scan_all, ttree_cursor_first.
  destruct (ttree_node_leftmost m (root (tree m))) as [tn|] eqn:Hleft; [|done].
  simpl in Hchain. simpl.
  unfold ttree_node_leftmost, __tnode_sidemost in Hleft.
  destruct (decide (root (tree m) = NULL)) as [Hroot|Hroot].
  - (* the empty tree *)
    rewrite (bool_decide_eq_true_2 _ Hroot) in Hleft.
    injection Hleft as <-. rewrite bool_decide_eq_true_2 by done.
    rewrite bool_decide_eq_false_2 by (intros H; by apply H).
    unfold walk_fuel in Hchain. simpl in Hchain. injection Hchain as <-.
    exists 0%nat. intros fuel _. split; [|done]. by destruct fuel.
  - rewrite (bool_decide_eq_false_2 _ Hroot) in Hleft.
    destruct (sidemost_walk_loaded _ _ _ _ _ Hleft) as (nd & Hnd & _).
    assert (tn ≠ NULL) as Htn by (intros ->; congruence).
    rewrite (bool_decide_eq_false_2 _ Htn), Hnd. simpl.
    unfold walk_fuel in Hchain. simpl in Hchain.
    rewrite (bool_decide_eq_false_2 _ Htn), Hnd in Hchain. simpl in Hchain.
    destruct (successor_chain _ m (successor nd)) as [rest|] eqn:Hrest; [|done].
    injection Hchain as <-.
    apply Forall_cons in Hne as [Hw Hne].
    assert (min_idx nd ≤ max_idx nd) as Hnw.
    { destruct (decide (min_idx nd ≤ max_idx nd)) as [?|Hgt]; [done|].
      destruct Hw. apply nil_length_inv. rewrite tnode_window_length.
      unfold tnode_num_keys. lia. }
    destruct (cursor_scan_chain (size (nodes m)) m (Z.to_nat (max_idx nd - min_idx nd))
                (set_idx (min_idx nd)
                   (set_tnode tn (set_state CURSOR_OPENED (set_side TNODE_BOUND c))))
                nd rest)
      as (f0 & Hf0); try done; simpl; try lia.
    exists f0. intros fuel Hfuel. split; [|done].
    rewrite Hf0 by done. simpl.
    rewrite Z.sub_diag. change (Z.to_nat 0) with 0%nat. by rewrite drop_0.
Qed.

Lemma cursor_scan_reads_chain_witness :
  ∃ f0, ∀ fuel, (f0 ≤ fuel)%nat →
    cursor_scan_all fuel zigzag_mem (mkTtreeCursor NULL 0 0 CURSOR_CLOSED)
    = Some (concat [[10; 20; 30; 40]; [45]; [50; 80]])
    ∧ ttree_keys zigzag_mem = Some (concat [[10; 20; 30; 40]; [45]; [50; 80]]).
Proof.
  apply (cursor_scan_reads_chain zigzag_mem).
  - reflexivity.
  - vm_compute. reflexivity.
  - repeat constructor; discriminate.
Defined.

(** X8.  Inside a window the two steps undo each other.  For an opened
    cursor on a slot that is not the last of its node's window,
    [ttree_cursor_next] returns [TCSR_OK] and moves the cursor one slot
    up in the same node; [ttree_cursor_prev] from there returns [TCSR_OK]
    and brings it back (provided the slot reached is not the first of the
    window, which holds whenever the cursor started inside the window).
    On the last slot of a node without successor [ttree_cursor_next]
    returns [TCSR_END] and the cursor stays on that slot.  A closed cursor
    is moved by neither function: both return [TCSR_END]. *)
Theorem cursor_next_prev_inverse (m : mem) (c : TtreeCursor) (n : TtreeNode) :
  tnode c ≠ NULL →
  load m (tnode c) = Some n →
  (state c = CURSOR_OPENED → idx c ≠ max_idx n →
     ttree_cursor_next m c = Some (TCSR_OK, set_idx (idx c + 1) (set_side TNODE_BOUND c))
     ∧ (idx c + 1 ≠ min_idx n →
          ttree_cursor_prev m (set_idx (idx c + 1) (set_side TNODE_BOUND c))
          = Some (TCSR_OK, set_side TNODE_BOUND c)))
  ∧ (state c = CURSOR_OPENED → idx c ≠ min_idx n →
       ttree_cursor_prev m c = Some (TCSR_OK, set_idx (idx c - 1) (set_side TNODE_BOUND c))
       ∧ (idx c - 1 ≠ max_idx n →
            ttree_cursor_next m (set_idx (idx c - 1) (set_side TNODE_BOUND c))
            = Some (TCSR_OK, set_side TNODE_BOUND c)))
  ∧ (state c = CURSOR_OPENED → idx c = max_idx n → successor n = NULL →
       ttree_cursor_next m c = Some (TCSR_END, set_side TNODE_BOUND c))
  ∧ (state c = CURSOR_CLOSED →
       ttree_cursor_next m c = Some (TCSR_END, c)
       ∧ ttree_cursor_prev m c = Some (TCSR_END, c)).
Proof.
  intros Htn Hn. destruct c as [ctn ci cs cst]. simpl in *.
  split; [|split; [|split]].
  - intros -> Hi. split.
    + unfold ttree_cursor_next. simpl. rewrite (bool_decide_eq_true_2 _ Htn). simpl.
      unfold cursor_step_forward. simpl. rewrite Hn. simpl.
      by rewrite (bool_decide_eq_false_2 _ Hi).
    + intros Hi'. unfold ttree_cursor_prev, cursor_step_backward. simpl. rewrite Hn. simpl.
      rewrite (bool_decide_eq_false_2 _ Hi'). unfold set_idx, set_side, set_state. simpl.
      do 3 f_equal. lia.
  - intros -> Hi. split.
    + unfold ttree_cursor_prev, cursor_step_backward. simpl. rewrite Hn. simpl.
      by rewrite (bool_decide_eq_false_2 _ Hi).
    + intros Hi'. unfold ttree_cursor_next. simpl. rewrite (bool_decide_eq_true_2 _ Htn).
      simpl. unfold cursor_step_forward. simpl. rewrite Hn. simpl.
      rewrite (bool_decide_eq_false_2 _ Hi'). unfold set_idx, set_side. simpl.
      do 3 f_equal. lia.
  - intros -> Hi Hsucc. unfold ttree_cursor_next. simpl.
    rewrite (bool_decide_eq_true_2 _ Htn). simpl.
    unfold cursor_step_forward. simpl. rewrite Hn. simpl.
    rewrite (bool_decide_eq_true_2 _ Hi).
    rewrite bool_decide_eq_false_2 by (intros H; by apply H). done.
  - intros ->. unfold ttree_cursor_next, ttree_cursor_prev. simpl.
    by rewrite (bool_decide_eq_true_2 _ Htn).
Qed.

Lemma cursor_next_prev_inverse_witness :
  ttree_cursor_next seven_key_mem (mkTtreeCursor 1 2 TNODE_BOUND CURSOR_OPENED)
  = Some (TCSR_OK, mkTtreeCursor 1 3 TNODE_BOUND CURSOR_OPENED)
  ∧ ttree_cursor_prev seven_key_mem (mkTtreeCursor 1 3 TNODE_BOUND CURSOR_OPENED)
    = Some (TCSR_OK, mkTtreeCursor 1 2 TNODE_BOUND CURSOR_OPENED).
Proof.
  destruct (cursor_next_prev_inverse seven_key_mem
              (mkTtreeCursor 1 2 TNODE_BOUND CURSOR_OPENED) seven_key_node)
    as (Hnext & _).
  - done.
  - reflexivity.
  - destruct (Hnext eq_refl) as [H1 H2]; [vm_compute; congruence|].
    split; [exact H1|]. apply H2. vm_compute. congruence.
Defined.

(** ** The empty tree *)

(** X9.  On an empty tree (null root): [ttree_lookup] returns [NULL] and a
    pending cursor with a null node, index [first_tnode_idx] and side
    [TNODE_BOUND]; [ttree_delete] returns [NULL] and [ttree_destroy]
    returns, both leaving the memory as it is; [ttree_cursor_open]
    returns 0 with the same pending cursor; [ttree_cursor_first] and
    [ttree_cursor_last] return -1 and leave the cursor pending on the
    null node; the depth is 0 and the tree reads as no keys.  On that
    pending cursor [ttree_cursor_next] stops at its assertion
    [cursor->tnode != NULL], and [ttree_cursor_prev], which has no such
    assertion, reads [cursor->tnode->max_idx] through the null pointer. *)
Theorem empty_tree_behaviour (m : mem) (key : Z) (c : TtreeCursor) :
  root (tree m) = NULL →
  let pending := mkTtreeCursor NULL (first_tnode_idx (tree m)) TNODE_BOUND CURSOR_PENDING in
  ttree_lookup m key = Some (NULL, pending)
  ∧ ttree_delete key m = Some (NULL, m)
  ∧ ttree_destroy m = Some m
  ∧ ttree_cursor_open m = Some (0, pending)
  ∧ ttree_cursor_first m c = Some (-1, pending)
  ∧ ttree_cursor_last m c = Some (-1, pending)
  ∧ ttree_get_depth m = Some 0
  ∧ ttree_keys m = Some []
  ∧ ttree_is_empty (tree m) = true
  ∧ ttree_cursor_next m pending = None
  ∧ (load m NULL = None → ttree_cursor_prev m pending = None).
Proof.
  intros Hroot pending.
  assert (ttree_lookup m key = Some (NULL, pending)) as Hlook.
  { unfold ttree_lookup. rewrite (bool_decide_eq_true_2 _ Hroot). unfold pending.
    by rewrite Hroot. }
  split; [done|].
  split. { unfold ttree_delete. rewrite Hlook. done. }
  split. { unfold ttree_destroy. by rewrite (bool_decide_eq_true_2 _ Hroot). }
  split.
  { unfold ttree_cursor_open, ttree_cursor_open_on_node. rewrite Hroot. done. }
  split.
  { unfold ttree_cursor_first, ttree_node_leftmost, __tnode_sidemost.
    rewrite Hroot. done. }
  split.
  { unfold ttree_cursor_last, ttree_node_rightmost, __tnode_sidemost.
    rewrite Hroot. done. }
  split. { unfold ttree_get_depth, walk_fuel. rewrite Hroot. done. }
  split.
  { unfold ttree_keys, ttree_chain, ttree_node_leftmost, __tnode_sidemost, walk_fuel.
    rewrite Hroot. done. }
  split. { unfold ttree_is_empty. by rewrite Hroot. }
  split; [done|].
  intros Hnull. unfold ttree_cursor_prev. simpl. by rewrite Hnull.
Qed.

Lemma empty_tree_behaviour_witness :
  ttree_lookup (empty_mem 8 true) 10
  = Some (NULL, mkTtreeCursor NULL 3 TNODE_BOUND CURSOR_PENDING)
  ∧ ttree_delete 10 (empty_mem 8 true) = Some (NULL, empty_mem 8 true).
Proof.
  destruct (empty_tree_behaviour (empty_mem 8 true) 10
              (mkTtreeCursor NULL 0 0 CURSOR_CLOSED)) as (Hlook & Hdel & _).
  - reflexivity.
  - split; [exact Hlook|exact Hdel].
Defined.

(** ** Destroying a tree *)

Lemma load_free (q p : ptr) (m : mem) :
  load (free q m) p = if decide (p = q) then None else load m p.
Proof.
  unfold load, free. simpl. destruct (decide (p = q)) as [->|Hne].
  - apply lookup_delete_eq.
  - by apply lookup_delete_ne.
Qed.

Lemma chain_nodes_mono (f f' : nat) (m : mem) (n : ptr) (l : list ptr) :
  chain_nodes f m n = Some l → (f ≤ f')%nat → chain_nodes f' m n = Some l.
Proof.
  revert f' n l. induction f as [|f IH]; intros f' n l; simpl.
  - case_bool_decide as Hn; [|done]. intros [= <-] _. destruct f'; simpl;
      by rewrite (bool_decide_eq_true_2 _ Hn).
  - case_bool_decide as Hn.
    + intros [= <-] _. destruct f'; simpl; by rewrite (bool_decide_eq_true_2 _ Hn).
    + destruct (load m n) as [nd|] eqn:Hnd; [|done]. simpl.
      destruct (chain_nodes f m (successor nd)) as [rest|] eqn:Hrest; [|done].
      intros [= <-] Hle. destruct f' as [|f']; [lia|]. simpl.
      rewrite (bool_decide_eq_false_2 _ Hn), Hnd. simpl.
      rewrite (IH f' _ _ Hrest) by lia. done.
Qed.

Lemma chain_nodes_from (f : nat) (m : mem) (n p : ptr) (l : list ptr) :
  chain_nodes f m n = Some l → p ∈ l →
  ∃ l2, chain_nodes f m p = Some l2 ∧ (length l2 ≤ length l)%nat.
Proof.
  revert n l. induction f as [|f IH]; intros n l; simpl.
  - case_bool_decide; [|done]. intros [= <-] Hp. by apply elem_of_nil in Hp.
  - case_bool_decide as Hn; [intros [= <-] Hp; by apply elem_of_nil in Hp|].
    destruct (load m n) as [nd|] eqn:Hnd; [|done]. simpl.
    destruct (chain_nodes f m (successor nd)) as [rest|] eqn:Hrest; [|done].
    intros [= <-] Hp. apply elem_of_cons in Hp as [->|Hp].
    + exists (n :: rest). split; [|done].
      rewrite (bool_decide_eq_false_2 _ Hn), Hnd. simpl. by rewrite Hrest.
    + destruct (IH _ _ Hrest Hp) as (l2 & Hl2 & Hlen).
      exists l2. split; [|simpl; lia].
      apply (chain_nodes_mono f (S f)) in Hl2; [|lia]. exact Hl2.
Qed.

(** A walk along the successor links that ends meets no node twice. *)
Lemma chain_nodes_NoDup (f : nat) (m : mem) (n : ptr) (l : list ptr) :
  chain_nodes f m n = Some l → NoDup l.
Proof.
  revert n l. induction f as [|f IH]; intros n l; simpl.
  - case_bool_decide; [|done]. intros [= <-]. constructor.
  - case_bool_decide as Hn; [intros [= <-]; constructor|].
    destruct (load m n) as [nd|] eqn:Hnd; [|done]. simpl.
    destruct (chain_nodes f m (successor nd)) as [rest|] eqn:Hrest; [|done].
    intros [= <-]. constructor; [|by eapply IH].
    intros Hin. destruct (chain_nodes_from _ _ _ _ _ Hrest Hin) as (l2 & Hl2 & Hlen).
    apply (chain_nodes_mono f (S f)) in Hl2; [|lia]. simpl in Hl2.
    rewrite (bool_decide_eq_false_2 _ Hn), Hnd in Hl2. simpl in Hl2.
    rewrite Hrest in Hl2. injection Hl2 as <-. simpl in Hlen. lia.
Qed.

Lemma chain_nodes_free (f : nat) (m : mem) (n q : ptr) (l : list ptr) :
  chain_nodes f m n = Some l → q ∉ l → chain_nodes f (free q m) n = Some l.
Proof.
  revert n l. induction f as [|f IH]; intros n l; simpl.
  - case_bool_decide; [|done]. done.
  - case_bool_decide as Hn; [done|].
    destruct (load m n) as [nd|] eqn:Hnd; [|done]. simpl.
    destruct (chain_nodes f m (successor nd)) as [rest|] eqn:Hrest; [|done].
    intros [= <-] Hq. apply not_elem_of_cons in Hq as [Hqn Hq].
    rewrite load_free. destruct (decide (n = q)) as [?|_]; [congruence|].
    rewrite Hnd. simpl. by rewrite (IH _ _ Hrest Hq).
Qed.

Lemma destroy_walk_spec (f : nat) (m : mem) (n : ptr) (l : list ptr) :
  chain_nodes f m n = Some l →
  ∃ m', destroy_walk f n m = Some m'
        ∧ tree m' = tree m ∧ brk m' = brk m
        ∧ ∀ p, load m' p = if bool_decide (p ∈ l) then None else load m p.
Proof.
  revert m n l. induction f as [|f IH]; intros m n l Hchain.
  - simpl in *. case_bool_decide; [|done]. injection Hchain as <-.
    exists m. split; [done|]. split; [done|]. split; [done|]. intros p.
    rewrite bool_decide_eq_false_2; [done|]. apply not_elem_of_nil.
  - pose proof (chain_nodes_NoDup _ _ _ _ Hchain) as Hnd'.
    simpl in *. case_bool_decide as Hn.
    + injection Hchain as <-. exists m. split; [done|]. split; [done|]. split; [done|].
      intros p. rewrite bool_decide_eq_false_2; [done|]. apply not_elem_of_nil.
    + destruct (load m n) as [nd|] eqn:Hnd; [|done]. simpl in *.
      destruct (chain_nodes f m (successor nd)) as [rest|] eqn:Hrest; [|done].
      injection Hchain as <-. apply NoDup_cons in Hnd' as [Hnin Hnd'].
      destruct (IH (free n m) _ _ (chain_nodes_free _ _ _ _ _ Hrest Hnin))
        as (m' & Hrun & Ht & Hb & Hload).
      exists m'. split; [done|]. split; [done|]. split; [done|].
      intros p. rewrite Hload, load_free.
      destruct (decide (p = n)) as [->|Hpn].
      * rewrite (bool_decide_eq_false_2 _ Hnin).
        rewrite bool_decide_eq_true_2; [done|]. apply elem_of_cons. by left.
      * destruct (decide (p ∈ rest)) as [Hin|Hin].
        -- rewrite (bool_decide_eq_true_2 _ Hin).
           rewrite bool_decide_eq_true_2; [done|]. apply elem_of_cons. by right.
        -- rewrite (bool_decide_eq_false_2 _ Hin).
           rewrite bool_decide_eq_false_2; [done|].
           intros [?|?]%elem_of_cons; done.
Qed.

(** X10.  When the walk from the leftmost node along the successor links
    ends, [ttree_destroy] returns: it frees each node of that walk exactly
    once (the walk meets no node twice, and each node's successor is read
    before the node is freed), sets the root to null and leaves the other
    fields of the tree alone.  Every node that is not on the walk stays
    allocated with its contents, and the tree is empty afterwards: a
    lookup of any key returns [NULL]. *)
Theorem ttree_destroy_frees_chain (m : mem) (tn : ptr) (ps : list ptr) (key : Z) :
  ttree_node_leftmost m (root (tree m)) = Some tn →
  chain_nodes (walk_fuel m) m tn = Some ps →
  ∃ m',
    ttree_destroy m = Some m'
    ∧ tree m' = set_root NULL (tree m) ∧ brk m' = brk m
    ∧ NoDup ps
    ∧ (∀ p, load m' p = if bool_decide (p ∈ ps) then None else load m p)
    ∧ ttree_lookup m' key
      = Some (NULL, mkTtreeCursor NULL (first_tnode_idx (tree m)) TNODE_BOUND
                      CURSOR_PENDING).
Proof.
  intros Hleft Hchain.
  pose proof (chain_nodes_NoDup _ _ _ _ Hchain) as Hnodup.
  unfold ttree_destroy. case_bool_decide as Hroot.
  - (* nothing to free *)
    unfold ttree_node_leftmost, __tnode_sidemost in Hleft.
    rewrite (bool_decide_eq_true_2 _ Hroot) in Hleft. injection Hleft as <-.
    unfold walk_fuel in Hchain. simpl in Hchain. injection Hchain as <-.
    exists m. split; [done|].
    split. { destruct m as [[r cf ko kp ku] nd b]. simpl in *. by subst r. }
    split; [done|]. split; [done|].
    split. { intros p. rewrite bool_decide_eq_false_2; [done|]. apply not_elem_of_nil. }
    unfold ttree_lookup. rewrite (bool_decide_eq_true_2 _ Hroot). by rewrite Hroot.
  - rewrite Hleft. cbn [mbind option_bind].
    destruct (destroy_walk_spec _ _ _ _ Hchain) as (m' & Hrun & Ht & Hb & Hload).
    rewrite Hrun. cbn [mbind option_bind]. exists (with_root NULL m').
    split; [done|].
    split. { unfold with_root. simpl. by rewrite Ht. }
    split; [done|]. split; [done|].
    split. { intros p. apply Hload. }
    unfold ttree_lookup. simpl. by rewrite Ht.
Qed.

Lemma ttree_destroy_frees_chain_witness :
  ∃ m',
    ttree_destroy zigzag_mem = Some m'
    ∧ load m' 1 = None ∧ load m' 2 = load zigzag_mem 2
    ∧ load m' 3 = None ∧ load m' 4 = None.
Proof.
  destruct (ttree_destroy_frees_chain zigzag_mem 1 [1; 4; 3] 10)
    as (m' & Hrun & _ & _ & _ & Hload & _).
  - vm_compute. reflexivity.
  - vm_compute. reflexivity.
  - exists m'. split; [exact Hrun|]. rewrite !Hload. vm_compute. repeat split.
Defined.

(** ** What rotations and relinking leave alone *)

Lemma keys_untouched_refl (m : mem) : keys_untouched m m.
Proof. done. Qed.

Lemma keys_untouched_trans (m1 m2 m3 : mem) :
  keys_untouched m1 m2 → keys_untouched m2 m3 → keys_untouched m1 m3.
Proof.
  intros (Ht1 & Hb1 & Hs1) (Ht2 & Hb2 & Hs2).
  split; [congruence|]. split; [congruence|]. intros p. by rewrite Hs2, Hs1.
Qed.

Lemma store_keys_untouched (p : ptr) (n n' : TtreeNode) (m : mem) :
  load m p = Some n → slots n' = slots n → keys_untouched m (store p n' m).
Proof.
  intros Hp Hs. split; [done|]. split; [done|]. intros q.
  rewrite load_store. destruct (decide (p = q)) as [<-|?]; [|done].
  rewrite Hp. simpl. by rewrite Hs.
Qed.

Lemma update_keys_untouched (p : ptr) (f : TtreeNode → TtreeNode) (m m' : mem) :
  update p f m = Some m' → (∀ n, slots (f n) = slots n) → keys_untouched m m'.
Proof.
  unfold update. destruct (load m p) as [n|] eqn:Hp; [|done]. simpl.
  intros [= <-] Hf. by eapply store_keys_untouched.
Qed.

Lemma update_opt_keys_untouched (p : ptr) (f : TtreeNode → option TtreeNode) (m m' : mem) :
  update_opt p f m = Some m' → (∀ n n', f n = Some n' → slots n' = slots n) →
  keys_untouched m m'.
Proof.
  unfold update_opt. destruct (load m p) as [n|] eqn:Hp; [|done]. simpl.
  destruct (f n) as [n'|] eqn:Hn; [|done]. simpl.
  intros [= <-] Hf. eapply store_keys_untouched; [done|]. by apply Hf.
Qed.

Lemma set_sides_slots (sd : Z) (v : ptr) (n n' : TtreeNode) :
  set_sides sd v n = Some n' → slots n' = slots n.
Proof. unfold set_sides. repeat case_bool_decide; intros [= <-]; done. Qed.

(** Takes a hypothesis [... = Some _] about a sequence of binds apart. *)
Ltac bind_inv :=
  repeat match goal with
  | H : (?e ≫= _) = Some _ |- _ =>
      let E := fresh "E" in
      destruct e eqn:E; cbn [mbind option_bind] in H; [|discriminate H]
  | H : (let '(_, _) := ?p in _) = Some _ |- _ =>
      let E := fresh "E" in destruct p eqn:E
  | H : (if ?b then _ else _) = Some _ |- _ =>
      let E := fresh "E" in destruct b eqn:E
  | H : None = Some _ |- _ => discriminate H
  | H : match ?x with _ => _ end = Some _ |- _ =>
      let E := fresh "E" in destruct x eqn:E
  end.

(** Turns the steps found into [keys_untouched] facts and chains them. *)
Ltac untouched_steps :=
  repeat match goal with
  | H : update _ _ _ = Some _ |- _ =>
      apply update_keys_untouched in H; [|intros; reflexivity]
  | H : update_opt _ (set_sides _ _) _ = Some _ |- _ =>
      apply update_opt_keys_untouched in H; [|intros ? ?; apply set_sides_slots]
  end.

Ltac untouched_chain :=
  repeat first
    [ eassumption
    | apply keys_untouched_refl
    | eapply keys_untouched_trans; [eassumption|] ].

Lemma __rotate_single_keys_untouched (target : ptr) (sd : Z) (m m' : mem) (s : ptr) :
  __rotate_single target sd m = Some (m', s) → keys_untouched m m'.
Proof.
  unfold __rotate_single. intros H. bind_inv; simplify_eq.
  all: untouched_steps; untouched_chain.
Qed.

Lemma rotate_single_keys_untouched (target : ptr) (sd : Z) (m m' : mem) (s : ptr) :
  rotate_single target sd m = Some (m', s) → keys_untouched m m'.
Proof.
  unfold rotate_single. intros H. bind_inv; simplify_eq.
  all: match goal with
       | H : __rotate_single _ _ _ = Some _ |- _ =>
           apply __rotate_single_keys_untouched in H
       end.
  all: untouched_steps; untouched_chain.
Qed.

Lemma rotate_double_keys_untouched (target : ptr) (sd : Z) (m m' : mem) (s : ptr) :
  rotate_double target sd m = Some (m', s) → keys_untouched m m'.
Proof.
  unfold rotate_double. intros H. bind_inv; simplify_eq.
  all: repeat match goal with
       | H : __rotate_single _ _ _ = Some _ |- _ =>
           apply __rotate_single_keys_untouched in H
       end.
  all: untouched_steps; untouched_chain.
Qed.

Lemma add_successor_walk_keys_untouched (fuel : nat) (node np n : ptr) (m m' : mem) :
  add_successor_walk fuel node np n m = Some m' → keys_untouched m m'.
Proof.
  revert node. induction fuel as [|fuel IH]; intros node; simpl.
  - case_bool_decide; [|done]. by intros [= <-].
  - case_bool_decide; [by intros [= <-]|].
    intros Hrun. bind_inv; simplify_eq.
    + untouched_steps; untouched_chain.
    + by eapply IH.
Qed.

Lemma __add_successor_keys_untouched (n : ptr) (m m' : mem) :
  __add_successor n m = Some m' → keys_untouched m m'.
Proof.
  unfold __add_successor. intros H. bind_inv; simplify_eq.
  all: try match goal with
       | H : add_successor_walk _ _ _ _ _ = Some _ |- _ =>
           apply add_successor_walk_keys_untouched in H
       end.
  all: untouched_steps; untouched_chain.
Qed.

Lemma remove_successor_walk_keys_untouched (fuel : nat) (node n np : ptr) (m m' : mem) :
  remove_successor_walk fuel node n np m = Some m' → keys_untouched m m'.
Proof.
  revert node. induction fuel as [|fuel IH]; intros node; simpl; [done|].
  intros H. bind_inv; simplify_eq.
  - apply keys_untouched_refl.
  - untouched_steps; untouched_chain.
  - by eapply IH.
Qed.

Lemma __remove_successor_keys_untouched (n : ptr) (m m' : mem) :
  __remove_successor n m = Some m' → keys_untouched m m'.
Proof.
  unfold __remove_successor. intros H. bind_inv; simplify_eq.
  all: try match goal with
       | H : remove_successor_walk _ _ _ _ _ = Some _ |- _ =>
           apply remove_successor_walk_keys_untouched in H
       end.
  all: untouched_steps; untouched_chain.
Qed.

(** X11.  The rotations and the two functions that relink the successor
    chain move no key.  When [rotate_single], [rotate_double],
    [__add_successor] or [__remove_successor] returns, the same addresses
    are allocated as before, every node has the window bounds and the key
    array it had, and the tree structure (the root pointer included) is
    as it was: only parent, child and successor links, balance factors
    and side bits have changed. *)
Theorem rotations_keep_keys (target : ptr) (sd : Z) (m m' : mem) (t' : ptr) :
  rotate_single target sd m = Some (m', t')
  ∨ rotate_double target sd m = Some (m', t')
  ∨ __add_successor target m = Some m'
  ∨ __remove_successor target m = Some m' →
  keys_untouched m m'
  ∧ dom (nodes m') = dom (nodes m)
  ∧ ∀ p n, load m p = Some n →
      ∃ n', load m' p = Some n' ∧ bounds n' = bounds n ∧ keys n' = keys n
            ∧ tnode_window n' = tnode_window n.
Proof.
  intros Hrun.
  assert (keys_untouched m m') as Hk.
  { destruct Hrun as [H|[H|[H|H]]].
    - by eapply rotate_single_keys_untouched.
    - by eapply rotate_double_keys_untouched.
    - by eapply __add_successor_keys_untouched.
    - by eapply __remove_successor_keys_untouched. }
  split; [done|].
  destruct Hk as (Ht & Hb & Hs).
  split.
  { assert (∀ o o' : option TtreeNode, slots <$> o' = slots <$> o → is_Some o' ↔ is_Some o)
      as Haux.
    { intros [?|] [?|]; simpl; intros ?; try done; split; intros [? ?]; eauto; done. }
    apply set_eq. intros p. rewrite !elem_of_dom. apply Haux, Hs. }
  intros p n Hn. specialize (Hs p). rewrite Hn in Hs.
  destruct (load m' p) as [n'|]; [|done]. simpl in Hs.
  injection Hs as Hmin Hmax Hkeys. exists n'. split; [done|].
  split; [unfold bounds; congruence|]. split; [done|].
  unfold tnode_window, tnode_num_keys, key_slice, tnode_key.
  by rewrite Hmin, Hmax, Hkeys.
Qed.

Lemma rotations_keep_keys_witness :
  let m' := default zigzag_mem (fst <$> rotate_single 3 TNODE_LEFT zigzag_mem) in
  keys_untouched zigzag_mem m' ∧ dom (nodes m') = dom (nodes zigzag_mem).
Proof.
  intros m'.
  destruct (rotations_keep_keys 3 TNODE_LEFT zigzag_mem m' 4) as (Hk & Hd & _).
  - left. vm_compute. reflexivity.
  - split; [exact Hk|exact Hd].
Defined.

(** ** What insertion and deletion do to the set of nodes *)

Lemma nodes_kept_refl (m : mem) : nodes_kept m m.
Proof. done. Qed.

Lemma nodes_kept_trans (m1 m2 m3 : mem) :
  nodes_kept m1 m2 → nodes_kept m2 m3 → nodes_kept m1 m3.
Proof. intros (? & ? & ?) (? & ? & ?). repeat split; congruence. Qed.

Lemma keys_untouched_nodes_kept (m m' : mem) : keys_untouched m m' → nodes_kept m m'.
Proof.
  intros (Ht & Hb & Hs). split; [by rewrite Ht|]. split; [done|].
  assert (∀ o o' : option TtreeNode, slots <$> o' = slots <$> o → is_Some o' ↔ is_Some o)
    as Haux.
  { intros [?|] [?|]; simpl; intros ?; try done; split; intros [? ?]; eauto; done. }
  apply set_eq. intros p. rewrite !elem_of_dom. apply Haux, Hs.
Qed.

Lemma store_nodes_kept (p : ptr) (n n' : TtreeNode) (m : mem) :
  load m p = Some n → nodes_kept m (store p n' m).
Proof. intros Hp. split; [done|]. split; [done|]. by eapply dom_store. Qed.

Lemma update_nodes_kept (p : ptr) (f : TtreeNode → TtreeNode) (m m' : mem) :
  update p f m = Some m' → nodes_kept m m'.
Proof.
  unfold update. destruct (load m p) as [n|] eqn:Hp; [|done]. simpl.
  intros [= <-]. by eapply store_nodes_kept.
Qed.

Lemma update_opt_nodes_kept (p : ptr) (f : TtreeNode → option TtreeNode) (m m' : mem) :
  update_opt p f m = Some m' → nodes_kept m m'.
Proof.
  unfold update_opt. destruct (load m p) as [n|] eqn:Hp; [|done]. simpl.
  destruct (f n) as [n'|]; [|done]. simpl.
  intros [= <-]. by eapply store_nodes_kept.
Qed.

Lemma with_root_nodes_kept (v : ptr) (m : mem) : nodes_kept m (with_root v m).
Proof. done. Qed.

(** Names every memory written by a [store] whose address is known to be
    allocated, and records that the store kept the nodes. *)
Ltac name_stores :=
  repeat match goal with
  | Hl : load ?m ?p = Some _ |- context [store ?p ?n ?m] =>
      let K := fresh "K" in
      pose proof (store_nodes_kept p _ n m Hl) as K;
      let ms := fresh "ms" in set (ms := store p n m) in *; clearbody ms
  | Hl : load ?m ?p = Some _, H : context [store ?p ?n ?m] |- _ =>
      let K := fresh "K" in
      pose proof (store_nodes_kept p _ n m Hl) as K;
      let ms := fresh "ms" in set (ms := store p n m) in *; clearbody ms
  | |- context [with_root ?v ?m] =>
      let K := fresh "K" in
      pose proof (with_root_nodes_kept v m) as K;
      let ms := fresh "ms" in set (ms := with_root v m) in *; clearbody ms
  | H : context [with_root ?v ?m] |- _ =>
      let K := fresh "K" in
      pose proof (with_root_nodes_kept v m) as K;
      let ms := fresh "ms" in set (ms := with_root v m) in *; clearbody ms
  end.

Ltac kept_steps :=
  repeat match goal with
  | H : update _ _ _ = Some _ |- _ => apply update_nodes_kept in H
  | H : update_opt _ _ _ = Some _ |- _ => apply update_opt_nodes_kept in H
  | H : keys_untouched _ _ |- _ => apply keys_untouched_nodes_kept in H
  end.

Ltac split_goal_ifs :=
  repeat match goal with
  | |- nodes_kept _ (if ?b then _ else _) => destruct b
  end.

Ltac kept_chain :=
  repeat first
    [ eassumption
    | apply nodes_kept_refl
    | eapply nodes_kept_trans; [eassumption|] ].

Lemma migrate_prepare_nodes_kept (node : ptr) (cursor : option TtreeCursor) (m m' : mem)
    (n : ptr) (nkeys offs : Z) (c' : option TtreeCursor) :
  migrate_prepare node cursor m = Some (m', n, nkeys, offs, c') → nodes_kept m m'.
Proof.
  unfold migrate_prepare. intros H. bind_inv; simplify_eq.
  all: name_stores; kept_steps; kept_chain.
Qed.

Lemma migrate_copy_nodes_kept (node n : ptr) (nkeys offs : Z) (m m' : mem) :
  migrate_copy node n nkeys offs m = Some m' → nodes_kept m m'.
Proof.
  unfold migrate_copy. intros H. bind_inv; simplify_eq.
  all: name_stores; kept_steps; kept_chain.
Qed.

Lemma rebalance_nodes_kept (node : ptr) (cursor : option TtreeCursor) (m m' : mem)
    (node' : ptr) (c' : option TtreeCursor) :
  rebalance node cursor m = Some (m', node', c') → nodes_kept m m'.
Proof.
  unfold rebalance, rebalance_migrate. intros H. bind_inv; simplify_eq.
  all: repeat match goal with
       | H : rotate_single _ _ _ = Some _ |- _ => apply rotate_single_keys_untouched in H
       | H : rotate_double _ _ _ = Some _ |- _ => apply rotate_double_keys_untouched in H
       | H : migrate_prepare _ _ _ = Some _ |- _ => apply migrate_prepare_nodes_kept in H
       | H : migrate_copy _ _ _ _ _ = Some _ |- _ => apply migrate_copy_nodes_kept in H
       end.
  all: split_goal_ifs; name_stores; kept_steps; kept_chain.
Qed.

Lemma fixup_insertion_walk_nodes_kept (fuel : nat) (node : ptr) (d : Z) (c c' : TtreeCursor)
    (m m' : mem) (evs : list fixup_event) :
  fixup_insertion_walk fuel node d c m = Some (m', c', evs) → nodes_kept m m'.
Proof.
  revert node d c m m' c' evs. induction fuel as [|fuel IH]; intros node d c m m' c' evs;
    simpl; [done|].
  intros H. bind_inv; simplify_eq.
  all: repeat match goal with
       | H : rebalance _ _ _ = Some _ |- _ => apply rebalance_nodes_kept in H
       | H : fixup_insertion_walk _ _ _ _ _ = Some _ |- _ => apply IH in H
       end.
  all: kept_steps; kept_chain.
Qed.

Lemma fixup_after_insertion_nodes_kept (n : ptr) (c c' : TtreeCursor) (m m' : mem)
    (evs : list fixup_event) :
  fixup_after_insertion n c m = Some (m', c', evs) → nodes_kept m m'.
Proof.
  unfold fixup_after_insertion. intros H. bind_inv; simplify_eq.
  apply __add_successor_keys_untouched in E0.
  apply fixup_insertion_walk_nodes_kept in H.
  kept_steps; kept_chain.
Qed.

Lemma fixup_deletion_walk_nodes_kept (fuel : nat) (node : ptr) (d : Z)
    (c c' : option TtreeCursor) (m m' : mem) :
  fixup_deletion_walk fuel node d c m = Some (m', c') → nodes_kept m m'.
Proof.
  revert node d c m m' c'. induction fuel as [|fuel IH]; intros node d c m m' c'; simpl.
  - case_bool_decide; [|done]. intros [= <- <-]. apply nodes_kept_refl.
  - case_bool_decide; [intros [= <- <-]; apply nodes_kept_refl|].
    intros Hrun. bind_inv; simplify_eq.
    all: repeat match goal with
         | H : rebalance _ _ _ = Some _ |- _ => apply rebalance_nodes_kept in H
         | H : fixup_deletion_walk _ _ _ _ _ = Some _ |- _ => apply IH in H
         end.
    all: kept_steps; kept_chain.
Qed.

Lemma fixup_after_deletion_nodes_kept (n : ptr) (c c' : option TtreeCursor) (m m' : mem) :
  fixup_after_deletion n c m = Some (m', c') → nodes_kept m m'.
Proof.
  unfold fixup_after_deletion. intros H. bind_inv; simplify_eq.
  apply __remove_successor_keys_untouched in E0.
  apply fixup_deletion_walk_nodes_kept in H.
  kept_steps; kept_chain.
Qed.

(** One node was allocated from [m] to [m'], at the address the allocator
    held ready, and none was freed. *)
Lemma allocate_ttree_node_spec (m m0 : mem) (p : ptr) :
  allocate_ttree_node m = (m0, p) →
  p = brk m ∧ tree m0 = tree m ∧ brk m0 = brk m + 1
  ∧ dom (nodes m0) = {[brk m]} ∪ dom (nodes m).
Proof.
  unfold allocate_ttree_node. intros [= <- <-]. simpl.
  split; [done|]. split; [done|]. split; [done|]. apply dom_insert_L.
Qed.

Lemma create_new_node_nodes (c c' : TtreeCursor) (at_node : ptr) (key : Z) (m m' : mem)
    (evs : list fixup_event) :
  create_new_node c at_node key m = Some (m', c', evs) →
  tree_params (tree m') = tree_params (tree m)
  ∧ brk m' = brk m + 1
  ∧ dom (nodes m') = {[brk m]} ∪ dom (nodes m).
Proof.
  unfold create_new_node. intros H. bind_inv; simplify_eq.
  apply allocate_ttree_node_spec in E as (-> & Ht & Hb & Hd).
  apply fixup_after_insertion_nodes_kept in H.
  kept_steps.
  assert (nodes_kept m0 m') as (Ht' & Hb' & Hd') by kept_chain.
  rewrite Ht', Hb', Hd', Ht, Hb, Hd. done.
Qed.

Lemma ttree_insert_at_cursor_nodes (c c' : TtreeCursor) (item : Z) (m m' : mem)
    (evs : list fixup_event) :
  ttree_insert_at_cursor_ev c item m = Some (m', c', evs) →
  nodes_kept m m'
  ∨ (tree_params (tree m') = tree_params (tree m)
     ∧ brk m' = brk m + 1
     ∧ dom (nodes m') = {[brk m]} ∪ dom (nodes m)).
Proof.
  unfold ttree_insert_at_cursor_ev. intros H.
  destruct (bool_decide (root (tree m) = NULL)) eqn:Hroot.
  { (* the first node *)
    right. bind_inv; simplify_eq.
    apply allocate_ttree_node_spec in E as (-> & Ht & Hb & Hd).
    name_stores. kept_steps.
    assert (nodes_kept m0 m') as (Ht' & Hb' & Hd') by kept_chain.
    rewrite Ht', Hb', Hd', Ht, Hb, Hd. done. }
  bind_inv; simplify_eq.
  all: name_stores.
  all: try match goal with
       | H : create_new_node _ _ _ ?ms = Some _ |- _ =>
           right; apply create_new_node_nodes in H as (Ht & Hb & Hd); kept_steps;
           assert (nodes_kept m ms) as (Kt & Kb & Kd) by kept_chain;
           repeat split; congruence
       end.
  all: left; name_stores; kept_steps; kept_chain.
Qed.

(** X12.  Whatever the tree, a call of [ttree_insert] that returns leaves
    the comparator, the key offset, the number of keys per node and the
    uniqueness flag as they were, frees no node, and either allocates no
    node at all or allocates exactly one, at the address the allocator
    held ready.  It returns 0 or -1; when it returns -1 the memory is
    unchanged, and it returns -1 only if keys are unique. *)
Theorem ttree_insert_frame (item : Z) (m m' : mem) (r : Z) :
  ttree_insert item m = Some (r, m') →
  tree_params (tree m') = tree_params (tree m)
  ∧ dom (nodes m) ⊆ dom (nodes m')
  ∧ ((brk m' = brk m ∧ dom (nodes m') = dom (nodes m))
     ∨ (brk m' = brk m + 1 ∧ dom (nodes m') = {[brk m]} ∪ dom (nodes m)))
  ∧ (r = 0 ∨ (r = -1 ∧ m' = m ∧ keys_are_unique (tree m) = true)).
Proof.
  unfold ttree_insert, ttree_insert_at_cursor. intros H.
  destruct (ttree_lookup m (ttree_item2key (tree m) item)) as [[found c]|]; [|done].
  simpl in H.
  match type of H with (if ?b then _ else _) = _ => destruct b eqn:Hdup end.
  - injection H as <- <-. apply andb_true_iff in Hdup as [_ Huniq].
    split; [done|]. split; [done|]. split; [by left|]. by right.
  - destruct (ttree_insert_at_cursor_ev c item m) as [[[m1 c1] evs]|] eqn:Hev; [|done].
    simpl in H. injection H as <- <-.
    destruct (ttree_insert_at_cursor_nodes _ _ _ _ _ _ Hev)
      as [(Ht & Hb & Hd)|(Ht & Hb & Hd)].
    + split; [done|]. split; [by rewrite Hd|]. split; [by left|]. by left.
    + split; [done|]. split; [rewrite Hd; apply union_subseteq_r|].
      split; [by right|]. by left.
Qed.

Lemma ttree_insert_frame_witness :
  let m' := default full8_mem (snd <$> ttree_insert 45 full8_mem) in
  brk m' = brk full8_mem + 1
  ∧ dom (nodes m') = {[brk full8_mem]} ∪ dom (nodes full8_mem).
Proof.
  intros m'.
  destruct (ttree_insert_frame 45 full8_mem m' 0) as (_ & _ & Hcase & _).
  - vm_compute. reflexivity.
  - destruct Hcase as [[Hb _]|Hone]; [|exact Hone].
    vm_compute in Hb. discriminate Hb.
Defined.

Lemma free_nodes (p : ptr) (m : mem) :
  tree_params (tree (free p m)) = tree_params (tree m)
  ∧ brk (free p m) = brk m
  ∧ dom (nodes (free p m)) = dom (nodes m) ∖ {[p]}.
Proof. split; [done|]. split; [done|]. apply dom_delete_L. Qed.

Lemma delete_rebalance_nodes (c c' : TtreeCursor) (p : ptr) (m m' : mem) :
  delete_rebalance c p m = Some (m', c') →
  nodes_kept m m'
  ∨ (tree_params (tree m') = tree_params (tree m)
     ∧ brk m' = brk m
     ∧ ∃ q, q ∈ dom (nodes m) ∧ dom (nodes m') = dom (nodes m) ∖ {[q]}).
Proof.
  unfold delete_rebalance. intros H. bind_inv; simplify_eq.
  all: repeat match goal with
       | H : fixup_after_deletion _ _ _ = Some _ |- _ =>
           apply fixup_after_deletion_nodes_kept in H
       end.
  all: name_stores; kept_steps.
  all: try match goal with
       | |- nodes_kept ?a (free ?q ?mx) ∨ _ =>
           right;
           assert (nodes_kept a mx) as (Kt & Kb & Kd) by kept_chain;
           destruct (free_nodes q mx) as (Ft & Fb & Fd);
           split; [congruence|]; split; [congruence|];
           exists q; split; [|rewrite Fd; try rewrite Kd; reflexivity];
           match goal with
           | Hl : load ?my q = Some _ |- _ =>
               let Hd := fresh "Hd" in
               assert (nodes_kept a my) as (_ & _ & Hd) by kept_chain;
               try rewrite <- Hd; apply elem_of_dom; unfold load in Hl; by eexists
           end
       end.
  all: left; kept_chain.
Qed.

Lemma ttree_delete_at_cursor_nodes (c c' : TtreeCursor) (m m' : mem) (r : Z) :
  ttree_delete_at_cursor c m = Some (m', r, c') →
  nodes_kept m m'
  ∨ (tree_params (tree m') = tree_params (tree m)
     ∧ brk m' = brk m
     ∧ ∃ q, q ∈ dom (nodes m) ∧ dom (nodes m') = dom (nodes m) ∖ {[q]}).
Proof.
  unfold ttree_delete_at_cursor. intros H. bind_inv; simplify_eq.
  - left. name_stores. kept_chain.
  - name_stores.
    match goal with
    | H : delete_rebalance _ _ _ = Some _ |- _ => rename H into Hreb
    end.
    destruct (delete_rebalance_nodes _ _ _ _ _ Hreb)
      as [Hk|(Ht & Hb & q & Hq & Hd)].
    + left. kept_chain.
    + destruct K as (Kt & Kb & Kd). right.
      split; [congruence|]. split; [congruence|].
      exists q. split; [by rewrite <- Kd|by rewrite Hd, Kd].
Qed.

(** X13.  Whatever the tree, a call of [ttree_delete] that returns leaves
    the comparator, the key offset, the number of keys per node and the
    uniqueness flag as they were, allocates no node, and frees at most
    one node, which was allocated before the call.  When it returns
    [NULL] the memory is unchanged. *)
Theorem ttree_delete_frame (key : Z) (m m' : mem) (r : Z) :
  ttree_delete key m = Some (r, m') →
  tree_params (tree m') = tree_params (tree m)
  ∧ brk m' = brk m
  ∧ dom (nodes m') ⊆ dom (nodes m)
  ∧ (dom (nodes m') = dom (nodes m)
     ∨ ∃ q, q ∈ dom (nodes m) ∧ dom (nodes m') = dom (nodes m) ∖ {[q]})
  ∧ (r = NULL → m' = m).
Proof.
  unfold ttree_delete. intros H.
  destruct (ttree_lookup m key) as [[ret c]|]; [|done]. simpl in H.
  match type of H with (if ?b then _ else _) = _ => destruct b eqn:Hnull end.
  - injection H as <- <-. repeat split; try done. by left.
  - apply bool_decide_eq_false in Hnull.
    destruct (ttree_delete_at_cursor c m) as [[[m1 r1] c1]|] eqn:Hdel; [|done].
    simpl in H. injection H as <- <-.
    destruct (ttree_delete_at_cursor_nodes _ _ _ _ _ Hdel)
      as [(Ht & Hb & Hd)|(Ht & Hb & q & Hq & Hd)].
    + split; [done|]. split; [done|]. split; [by rewrite Hd|]. split; [by left|done].
    + split; [done|]. split; [done|].
      split; [rewrite Hd; apply subseteq_difference_l; done|].
      split; [right; by exists q|done].
Qed.

Lemma ttree_delete_frame_witness :
  let m' := default zigzag_mem (snd <$> ttree_delete 45 zigzag_mem) in
  brk m' = brk zigzag_mem ∧ dom (nodes m') ⊆ dom (nodes zigzag_mem).
Proof.
  intros m'.
  destruct (ttree_delete_frame 45 zigzag_mem m' 45) as (_ & Hb & Hsub & _).
  - vm_compute. reflexivity.
  - split; [exact Hb|exact Hsub].
Defined.

(** ** Deleting the last key *)

(** Deleting the only key of a tree that is one leaf frees the leaf and
    empties the tree. *)
Lemma delete_only_key (m : mem) (key : Z) (n : TtreeNode) :
  root (tree m) ≠ NULL →
  load m (root (tree m)) = Some n →
  tnode_wf (tree m) n →
  2 ≤ keys_per_tnode (tree m) →
  min_idx n = max_idx n →
  parent n = NULL → left n = NULL → right n = NULL →
  cmp_func (tree m) key (tnode_key_min n) = 0 →
  ttree_key2item (tree m) (tnode_key_min n) ≠ NULL →
  ttree_delete key m
  = Some (ttree_key2item (tree m) (tnode_key_min n),
          mkMem (set_root NULL (tree m)) (delete (root (tree m)) (nodes m)) (brk m)).
Proof.
  intros Hroot Hn Hwf HM Hone Hpar Hleft Hright Hcmp Hitem.
  set (r := root (tree m)) in *.
  assert (ttree_lookup m key
          = Some (ttree_key2item (tree m) (tnode_key_min n),
                  mkTtreeCursor r (min_idx n) TNODE_BOUND CURSOR_OPENED)) as Hlook.
  { unfold ttree_lookup. fold r. rewrite (bool_decide_eq_false_2 _ Hroot).
    unfold walk_fuel. cbn [lookup_descend].
    rewrite (bool_decide_eq_false_2 _ Hroot), Hn. cbn [mbind option_bind].
    rewrite Hcmp. rewrite !bool_decide_eq_false_2 by lia. cbn [mbind option_bind].
    by rewrite Hn. }
  destruct (decrease_tnode_window_shrink (tree m) n (min_idx n) Hwf ltac:(lia))
    as (n1 & i' & Hdec & Hl & Hwf1 & Hnk & Hw).
  unfold tnode_num_keys in Hnk.
  unfold links in Hl. injection Hl as Hpar1 _ Hleft1 Hright1 _ _.
  unfold ttree_delete. rewrite Hlook. cbn [mbind option_bind].
  rewrite (bool_decide_eq_false_2 _ Hitem).
  unfold ttree_delete_at_cursor. cbn [state tnode idx TTREE_ASSERT].
  rewrite bool_decide_eq_true_2 by done. cbn [mbind option_bind].
  rewrite Hn. cbn [mbind option_bind]. rewrite Hdec. cbn [mbind option_bind].
  rewrite min_tnode_entries_div.
  assert (1 ≤ keys_per_tnode (tree m) - keys_per_tnode (tree m) / 4) as Hlow.
  { pose proof (Z.div_mod (keys_per_tnode (tree m)) 4 ltac:(lia)).
    pose proof (Z.mod_pos_bound (keys_per_tnode (tree m)) 4 ltac:(lia)). lia. }
  rewrite (bool_decide_eq_false_2
             (tnode_num_keys n1 > keys_per_tnode (tree m) - keys_per_tnode (tree m) / 4))
    by (unfold tnode_num_keys; lia).
  unfold delete_rebalance. rewrite load_store_eq. cbn [mbind option_bind].
  assert (is_internal_node n1 = false) as ->.
  { unfold is_internal_node. by rewrite Hleft1, Hleft. }
  cbn [mbind option_bind]. rewrite load_store_eq. cbn [mbind option_bind].
  assert (is_leaf_node n1 = true) as ->.
  { unfold is_leaf_node. by rewrite Hleft1, Hright1, Hleft, Hright. }
  cbn [negb mbind option_bind]. rewrite load_store_eq. cbn [mbind option_bind].
  assert (tnode_is_empty n1 = true) as ->.
  { unfold tnode_is_empty, tnode_num_keys. apply bool_decide_eq_true. lia. }
  cbn [negb]. rewrite Hpar1, Hpar.
  rewrite bool_decide_eq_true_2 by done. cbn [mbind option_bind].
  unfold free, with_root, store. simpl. by rewrite delete_insert_eq.
Qed.

(** X14.  On an empty tree with at most 2048 keys per node, inserting an
    item (not at address 0, its key comparing equal to itself) and then
    deleting its key gives back the item and the empty tree: the root is
    null again and the node allocated by the insertion has been freed, so
    the allocated nodes and the tree structure are exactly as before.
    Only the allocator has moved on by one address. *)
Theorem insert_delete_on_empty_tree (item : Z) (m : mem) :
  root (tree m) = NULL →
  TNODE_ITEMS_MIN ≤ keys_per_tnode (tree m) ≤ 2048 →
  cmp_func (tree m) (ttree_item2key (tree m) item) (ttree_item2key (tree m) item) = 0 →
  item ≠ NULL →
  brk m ≠ NULL → load m (brk m) = None →
  ∃ m1,
    ttree_insert item m = Some (0, m1)
    ∧ ttree_delete (ttree_item2key (tree m) item) m1
      = Some (item, mkMem (tree m) (nodes m) (brk m + 1)).
Proof.
  intros Hroot HM Hrefl Hitem Hbrk Hfresh.
  unfold TNODE_ITEMS_MIN in HM.
  destruct (first_insert_spec item m Hroot ltac:(unfold TNODE_ITEMS_MIN, TNODE_ITEMS_MAX; lia)
              Hbrk) as (n & Hins & Hl & Hb & Hkey & Hlen).
  set (k := ttree_item2key (tree m) item) in *.
  set (f := first_tnode_idx (tree m)) in *.
  set (m1 := mkMem (set_root (brk m) (tree m)) (<[brk m := n]> (nodes m)) (brk m + 1)) in *.
  injection Hb as Hmin Hmax.
  unfold links in Hl. injection Hl as Hpar Hsucc Hleft Hright Hbfc Hside.
  destruct (first_tnode_idx_range (tree m) ltac:(lia)) as [Hf1 Hf2]. fold f in Hf1, Hf2.
  assert (load m1 (root (tree m1)) = Some n) as Hn by apply lookup_insert_eq.
  assert (ttree_key2item (tree m) k = item) as Hk2i
    by (unfold k, ttree_key2item, ttree_item2key; lia).
  exists m1. split; [done|].
  rewrite (delete_only_key m1 k n); try done.
  - unfold tnode_key_min. rewrite Hmin, Hkey.
    change (ttree_key2item (tree m1) k) with (ttree_key2item (tree m) k). rewrite Hk2i.
    do 2 f_equal. unfold m1. simpl. f_equal.
    + destruct (tree m) as [r cf ko kp ku]. simpl in *. by subst r.
    + rewrite delete_insert_eq. apply delete_id. exact Hfresh.
  - constructor; simpl; lia.
  - simpl. lia.
  - lia.
  - unfold tnode_key_min. rewrite Hmin, Hkey. exact Hrefl.
  - unfold tnode_key_min. rewrite Hmin, Hkey.
    change (ttree_key2item (tree m1) k) with (ttree_key2item (tree m) k). by rewrite Hk2i.
Qed.

Lemma insert_delete_on_empty_tree_witness :
  ∃ m1,
    ttree_insert 10 (empty_mem 8 true) = Some (0, m1)
    ∧ ttree_delete 10 m1 = Some (10, mkMem (tree (empty_mem 8 true)) ∅ 2).
Proof.
  apply (insert_delete_on_empty_tree 10 (empty_mem 8 true)).
  - reflexivity.
  - vm_compute. split; congruence.
  - reflexivity.
  - done.
  - vm_compute. congruence.
  - reflexivity.
Defined.

(** ** Lookup in a tree of one node *)

(** X15.  In a tree that is one node without children, its window sorted
    and not empty, [ttree_lookup] is complete: when some key of the window
    compares equal to the search key, it returns the item of such a key
    and a cursor on its slot; when none does, it returns [NULL] and a
    pending cursor on the node. *)
Theorem lookup_single_node (m : mem) (key : Z) (n : TtreeNode) :
  cmp_order (cmp_func (tree m)) →
  root (tree m) ≠ NULL →
  load m (root (tree m)) = Some n →
  left n = NULL → right n = NULL →
  tnode_wf (tree m) n →
  min_idx n ≤ max_idx n →
  window_sorted (cmp_func (tree m)) (tnode_window n) →
  ((∃ i, min_idx n ≤ i ≤ max_idx n ∧ cmp_func (tree m) key (tnode_key n i) = 0) →
     ∃ j c, ttree_lookup m key = Some (ttree_key2item (tree m) (tnode_key n j), c)
            ∧ tnode c = root (tree m) ∧ idx c = j ∧ side c = TNODE_BOUND
            ∧ min_idx n ≤ j ≤ max_idx n
            ∧ cmp_func (tree m) key (tnode_key n j) = 0)
  ∧ ((∀ i, min_idx n ≤ i ≤ max_idx n → cmp_func (tree m) key (tnode_key n i) ≠ 0) →
       ∃ c, ttree_lookup m key = Some (NULL, c)
            ∧ tnode c = root (tree m) ∧ state c = CURSOR_PENDING).
Proof.
  intros Hcmp Hroot Hn Hleft Hright Hwf Hne Hsorted.
  pose proof Hwf as [Hlen Hmin Hmax Hwin Hfit].
  set (r := root (tree m)) in *.
  assert (∀ i j, min_idx n ≤ i → i < j → j ≤ max_idx n →
            cmp_func (tree m) (tnode_key n i) (tnode_key n j) < 0) as Hslots.
  { intros i j ? ? ?. by apply window_sorted_slots. }
  (* the three ways the lookup can end without a hit *)
  assert (∀ sd cr mk,
            ∃ c, (td ← load m r;
                  if negb (tnode_is_full (tree m) td)
                  then Some (NULL, mkTtreeCursor r
                                     (if bool_decide (mk ≠ r) || bool_decide (cr < 0)
                                      then min_idx td else max_idx td + 1)
                                     TNODE_BOUND CURSOR_PENDING)
                  else Some (NULL, mkTtreeCursor r (first_tnode_idx (tree m)) sd
                                     CURSOR_PENDING)) = Some (NULL, c)
                 ∧ tnode c = r ∧ state c = CURSOR_PENDING) as Hlast.
  { intros sd cr mk. rewrite Hn. simpl. destruct (negb _); by eexists. }
  unfold ttree_lookup. fold r. rewrite (bool_decide_eq_false_2 _ Hroot).
  unfold walk_fuel. cbn [lookup_descend].
  rewrite (bool_decide_eq_false_2 _ Hroot), Hn. cbn [mbind option_bind].
  rewrite Hleft, Hright.
  assert (∀ f tg mk sd cr, lookup_descend f m key NULL tg mk sd cr
                           = Some (Ended tg mk sd cr)) as Hstop.
  { intros f tg mk sd cr. by destruct f. }
  rewrite !Hstop.
  destruct (Z.lt_trichotomy (cmp_func (tree m) key (tnode_key_min n)) 0) as [Hlt|[Heq|Hgt]].
  - (* smaller than every key *)
    rewrite (bool_decide_eq_true_2 _ Hlt). cbn [mbind option_bind].
    rewrite bool_decide_eq_false_2 by (intros H; by apply H).
    split.
    + intros (i & Hi & Hz). exfalso.
      destruct (decide (i = min_idx n)) as [->|?].
      * unfold tnode_key_min in Hlt. lia.
      * pose proof (cmp_trans _ Hcmp _ _ _ Hlt (Hslots (min_idx n) i ltac:(lia) ltac:(lia)
                                                  ltac:(lia))). lia.
    + intros _. apply Hlast.
  - (* the minimum *)
    rewrite Heq. rewrite !bool_decide_eq_false_2 by lia. cbn [mbind option_bind].
    rewrite Hn. cbn [mbind option_bind].
    split.
    + intros _. exists (min_idx n), (mkTtreeCursor r (min_idx n) TNODE_BOUND CURSOR_OPENED).
      repeat split; try done; lia.
    + intros Habs. destruct (Habs (min_idx n) ltac:(lia)). exact Heq.
  - rewrite (bool_decide_eq_false_2 (cmp_func (tree m) key (tnode_key_min n) < 0)) by lia.
    rewrite (bool_decide_eq_true_2 (cmp_func (tree m) key (tnode_key_min n) > 0)) by lia.
    cbn [mbind option_bind].
    rewrite (bool_decide_eq_true_2 _ Hroot), Hn. cbn [mbind option_bind].
    destruct (Z.lt_trichotomy (cmp_func (tree m) key (tnode_key_max n)) 0)
      as [Hlt'|[Heq'|Hgt']].
    + (* strictly inside the window *)
      rewrite (bool_decide_eq_true_2 (cmp_func (tree m) key (tnode_key_max n) ≤ 0)) by lia.
      rewrite (bool_decide_eq_false_2 (cmp_func (tree m) key (tnode_key_max n) = 0)) by lia.
      assert (min_idx n < max_idx n) as Hmm.
      { destruct (decide (min_idx n = max_idx n)) as [Hsame|?]; [|lia].
        unfold tnode_key_max, tnode_key_min in *. rewrite Hsame in Hgt. lia. }
      unfold lookup_inside_tnode. rewrite !bool_decide_eq_true_2 by lia.
      cbn [andb TTREE_ASSERT mbind option_bind].
      destruct (lookup_inside_loop_spec (tree m) n key
                  (Z.to_nat (max_idx n - 1 - (min_idx n + 1) + 1))
                  (min_idx n + 1) (max_idx n - 1) Hcmp)
        as (it & f & Hloop & Hres).
      { intros i j ? ? ?. apply Hslots; lia. }
      { lia. }
      { lia. }
      rewrite Hloop. cbn [mbind option_bind].
      destruct Hres as [(Hf & Hz & ->)|(-> & Hf1 & Hf2 & Hbelow & Habove)].
      * split.
        -- intros _. eexists f, _. split; [done|]. simpl. repeat split; try done; lia.
        -- intros Habs. destruct (Habs f ltac:(lia)). exact Hz.
      * split.
        -- intros (i & Hi & Hz). exfalso.
           destruct (decide (i = min_idx n)) as [->|?];
             [unfold tnode_key_min in Hgt; lia|].
           destruct (decide (i = max_idx n)) as [->|?];
             [unfold tnode_key_max in Hlt'; lia|].
           destruct (decide (i < f)) as [?|?].
           ++ pose proof (Hbelow i ltac:(lia)). lia.
           ++ pose proof (Habove i ltac:(lia)). lia.
        -- intros _. eexists. split; [done|]. simpl. split; done.
    + (* the maximum *)
      rewrite Heq'. rewrite (bool_decide_eq_true_2 (0 ≤ 0)) by lia.
      rewrite (bool_decide_eq_true_2 (0 = 0)) by lia.
      split.
      * intros _. exists (max_idx n), (mkTtreeCursor r (max_idx n) TNODE_BOUND CURSOR_OPENED).
        repeat split; try done; lia.
      * intros Habs. destruct (Habs (max_idx n) ltac:(lia)). exact Heq'.
    + (* greater than every key *)
      rewrite (bool_decide_eq_false_2 (cmp_func (tree m) key (tnode_key_max n) ≤ 0)) by lia.
      split.
      * intros (i & Hi & Hz). exfalso.
        destruct (decide (i = max_idx n)) as [->|?].
        -- unfold tnode_key_max in Hgt'. lia.
        -- pose proof (Hslots i (max_idx n) ltac:(lia) ltac:(lia) ltac:(lia)) as Him.
           assert (cmp_func (tree m) key (tnode_key_max n) > 0) as Hg by lia.
           apply (cmp_flip _ Hcmp) in Hg.
           pose proof (cmp_trans _ Hcmp _ _ _ Him Hg) as Hik.
           apply (cmp_flip _ Hcmp) in Hik. lia.
      * intros _. cbn [mbind option_bind]. destruct (negb _); by eexists.
Qed.

Lemma lookup_single_node_witness :
  ∃ j c, ttree_lookup seven_key_mem 50
         = Some (ttree_key2item (tree seven_key_mem) (tnode_key seven_key_node j), c)
         ∧ tnode c = root (tree seven_key_mem) ∧ idx c = j ∧ side c = TNODE_BOUND
         ∧ min_idx seven_key_node ≤ j ≤ max_idx seven_key_node
         ∧ cmp_func (tree seven_key_mem) 50 (tnode_key seven_key_node j) = 0.
Proof.
  apply (lookup_single_node seven_key_mem 50 seven_key_node).
  - apply int_cmp_order.
  - done.
  - reflexivity.
  - reflexivity.
  - reflexivity.
  - exact seven_key_node_wf.
  - vm_compute. congruence.
  - exact seven_key_window_sorted.
  - exists 4. split; [vm_compute; split; congruence|reflexivity].
Defined.

(** ** Shrinking the window *)

(** X16.  In a well-formed node, [decrease_tnode_window] at a slot of the
    window removes the key of that slot and keeps the other keys in their
    order; the links of the node are kept.  The window gives up its last
    slot when the right side has no more free slots than the left (the
    keys above the slot move down by one and [*idx] is unchanged), and its
    first slot otherwise (the keys below the slot move up by one and
    [*idx] becomes [idx + 1]). *)
Theorem decrease_tnode_window_spec (t : Ttree) (n : TtreeNode) (i : Z) :
  tnode_wf t n →
  min_idx n ≤ i ≤ max_idx n →
  ∃ n' i',
    decrease_tnode_window t n i = Some (n', i')
    ∧ links n' = links n
    ∧ tnode_wf t n'
    ∧ tnode_num_keys n' = tnode_num_keys n - 1
    ∧ tnode_window n' = remove_at (Z.to_nat (i - min_idx n)) (tnode_window n)
    ∧ (keys_per_tnode t - 1 - max_idx n ≤ min_idx n →
         bounds n' = (min_idx n, max_idx n - 1) ∧ i' = i)
    ∧ (keys_per_tnode t - 1 - max_idx n > min_idx n →
         bounds n' = (min_idx n + 1, max_idx n) ∧ i' = i + 1).
Proof.
  intros Hwf Hi.
  destruct (decrease_tnode_window_shrink t n i Hwf Hi)
    as (n' & i' & Hdec & Hl & Hwf' & Hnk & Hw).
  exists n', i'. do 5 (split; [done|]).
  pose proof Hwf as [Hlen Hmin Hmax Hwin Hfit].
  unfold decrease_tnode_window in Hdec.
  split.
  - intros Hside. rewrite (bool_decide_eq_true_2 _ Hside) in Hdec.
    destruct (slide_keys _ _ _ _ _) as [n2|] eqn:Hslide; [|done].
    injection Hdec as <- <-.
    destruct (slide_keys_links _ _ _ _ _ _ Hslide) as (_ & Hb & _).
    split; [|done]. rewrite Hb. unfold bounds. simpl.
    by rewrite sbf12_id by lia.
  - intros Hside. rewrite bool_decide_eq_false_2 in Hdec by lia.
    destruct (slide_keys _ _ _ _ _) as [n2|] eqn:Hslide; [|done].
    injection Hdec as <- <-.
    destruct (slide_keys_links _ _ _ _ _ _ Hslide) as (_ & Hb & _).
    split; [|done]. rewrite Hb. unfold bounds. simpl.
    by rewrite sbf12_id by lia.
Qed.

Lemma decrease_tnode_window_spec_witness :
  ∃ n' i',
    decrease_tnode_window tree8 seven_key_node 3 = Some (n', i')
    ∧ tnode_window n' = [10; 20; 30; 50; 60; 70]
    ∧ bounds n' = (1, 6) ∧ i' = 4.
Proof.
  destruct (decrease_tnode_window_spec tree8 seven_key_node 3)
    as (n' & i' & Hdec & _ & _ & _ & Hw & _ & Hleft).
  - exact seven_key_node_wf.
  - vm_compute. split; congruence.
  - exists n', i'. split; [exact Hdec|]. split; [exact Hw|].
    apply Hleft. vm_compute. reflexivity.
Defined.

(** X17.  Growing the window of a well-formed node that is not full for a
    key at any position, storing the key, and shrinking the window at the
    slot the key went to gives a node with the links and the sequence of
    keys it had before. *)
Theorem window_grow_shrink (t : Ttree) (n : TtreeNode) (i k : Z) :
  tnode_wf t n →
  tnode_num_keys n < keys_per_tnode t →
  min_idx n ≤ i ≤ max_idx n + 1 →
  ∃ n0 s n1 n2 s',
    increase_tnode_window t n i = Some (n0, s)
    ∧ set_key s k n0 = Some n1
    ∧ decrease_tnode_window t n1 s = Some (n2, s')
    ∧ links n2 = links n
    ∧ tnode_wf t n2
    ∧ tnode_num_keys n2 = tnode_num_keys n
    ∧ tnode_window n2 = tnode_window n.
Proof.
  intros Hwf Hroom Hi.
  destruct (increase_then_store t n i k Hwf Hroom Hi)
    as (n0 & s & n1 & Hinc & Hset & Hl1 & Hwf1 & Hnk1 & Hs & Hw1).
  pose proof Hwf as [_ Hmin _ _ _].
  unfold tnode_num_keys in Hnk1, Hroom.
  assert (min_idx n1 ≤ s ≤ max_idx n1) as Hsr by lia.
  destruct (decrease_tnode_window_shrink t n1 s Hwf1 Hsr)
    as (n2 & s' & Hdec & Hl2 & Hwf2 & Hnk2 & Hw2).
  exists n0, s, n1, n2, s'. do 3 (split; [done|]).
  split; [congruence|]. split; [done|].
  split; [unfold tnode_num_keys in *; lia|].
  rewrite Hw2, Hw1, Hs. apply remove_insert_at.
  rewrite tnode_window_length. unfold tnode_num_keys. lia.
Qed.

Lemma window_grow_shrink_witness :
  ∃ n0 s n1 n2 s',
    increase_tnode_window tree8 seven_key_node 4 = Some (n0, s)
    ∧ set_key s 45 n0 = Some n1
    ∧ decrease_tnode_window tree8 n1 s = Some (n2, s')
    ∧ links n2 = links seven_key_node
    ∧ tnode_wf tree8 n2
    ∧ tnode_num_keys n2 = tnode_num_keys seven_key_node
    ∧ tnode_window n2 = tnode_window seven_key_node.
Proof.
  apply (window_grow_shrink tree8 seven_key_node 4 45).
  - exact seven_key_node_wf.
  - vm_compute. reflexivity.
  - vm_compute. split; congruence.
Defined.

(** ** Depth *)

Lemma __ttree_get_depth_nonneg (fuel : nat) (m : mem) (tn : ptr) (d : Z) :
  __ttree_get_depth fuel m tn = Some d → 0 ≤ d.
Proof.
  revert tn d. induction fuel as [|fuel IH]; intros tn d; simpl.
  - case_bool_decide; [|done]. intros [= <-]. lia.
  - case_bool_decide; [intros [= <-]; lia|].
    destruct (load m tn) as [nd|]; [|done]. simpl.
    destruct (__ttree_get_depth fuel m (left nd)) as [l|] eqn:Hl; [|done]. simpl.
    destruct (__ttree_get_depth fuel m (right nd)) as [r|] eqn:Hr; [|done]. simpl.
    intros [= <-]. apply IH in Hl. apply IH in Hr.
    repeat case_bool_decide; lia.
Qed.

(** X18.  [ttree_get_depth] counts links, not nodes: when it returns, the
    result is not negative, and it is 0 exactly when the tree is empty or
    its root has no child.  A root with a child gives at least 1. *)
Theorem ttree_get_depth_zero (m : mem) (d : Z) :
  ttree_get_depth m = Some d →
  0 ≤ d
  ∧ (d = 0 ↔ root (tree m) = NULL
             ∨ ∃ n, load m (root (tree m)) = Some n ∧ left n = NULL ∧ right n = NULL).
Proof.
  unfold ttree_get_depth, walk_fuel. intros Hd.
  split; [by eapply __ttree_get_depth_nonneg|].
  simpl in Hd. case_bool_decide as Hroot.
  - injection Hd as <-. split; [by left|done].
  - destruct (load m (root (tree m))) as [nd|] eqn:Hnd; [|done]. simpl in Hd.
    destruct (__ttree_get_depth _ m (left nd)) as [l|] eqn:Hl; [|done]. simpl in Hd.
    destruct (__ttree_get_depth _ m (right nd)) as [r|] eqn:Hr; [|done]. simpl in Hd.
    injection Hd as <-.
    pose proof (__ttree_get_depth_nonneg _ _ _ _ Hl) as Hl0.
    pose proof (__ttree_get_depth_nonneg _ _ _ _ Hr) as Hr0.
    split.
    + intros Hz. right. exists nd. split; [done|].
      destruct (decide (left nd = NULL)) as [Hln|Hln];
        destruct (decide (right nd = NULL)) as [Hrn|Hrn]; [done|exfalso..];
        revert Hz; repeat case_bool_decide; intros; first [lia | contradiction].
    + intros [?|(n & [= <-] & Hleft & Hright)]; [done|].
      rewrite Hleft in Hl. rewrite Hright in Hr. rewrite Hleft, Hright.
      assert (l = 0 ∧ r = 0) as [-> ->].
      { destruct (size (nodes m)); simpl in Hl, Hr; by simplify_eq. }
      rewrite !(bool_decide_eq_false_2 (NULL ≠ NULL)) by (intros H; by apply H).
      by rewrite bool_decide_eq_false_2 by lia.
Qed.

Lemma ttree_get_depth_zero_witness :
  0 ≤ 1
  ∧ (1 = 0 ↔ root (tree linked_leaf_mem) = NULL
             ∨ ∃ n, load linked_leaf_mem (root (tree linked_leaf_mem)) = Some n
                    ∧ left n = NULL ∧ right n = NULL).
Proof.
  apply (ttree_get_depth_zero linked_leaf_mem 1).
  vm_compute. reflexivity.
Defined.

(** * The post-insert fix-up *)

(** ** What the key migration leaves alone *)

Lemma links_kept_refl (m : mem) : links_kept m m.
Proof. done. Qed.

Lemma links_kept_trans (m1 m2 m3 : mem) :
  links_kept m1 m2 → links_kept m2 m3 → links_kept m1 m3.
Proof.
  intros (Ht1 & Hb1 & Hs1) (Ht2 & Hb2 & Hs2).
  split; [congruence|]. split; [congruence|]. intros p. by rewrite Hs2, Hs1.
Qed.

Lemma store_links_kept (p : ptr) (n n' : TtreeNode) (m : mem) :
  load m p = Some n → links n' = links n → links_kept m (store p n' m).
Proof.
  intros Hp Hs. split; [done|]. split; [done|]. intros q.
  rewrite load_store. destruct (decide (p = q)) as [<-|?]; [|done].
  rewrite Hp. simpl. by rewrite Hs.
Qed.

Lemma update_links_kept (p : ptr) (f : TtreeNode → TtreeNode) (m m' : mem) :
  update p f m = Some m' → (∀ n, links (f n) = links n) → links_kept m m'.
Proof.
  unfold update. destruct (load m p) as [n|] eqn:Hp; [|done]. simpl.
  intros [= <-] Hf. by eapply store_links_kept.
Qed.

Lemma update_opt_links_kept (p : ptr) (f : TtreeNode → option TtreeNode) (m m' : mem) :
  update_opt p f m = Some m' → (∀ n n', f n = Some n' → links n' = links n) →
  links_kept m m'.
Proof.
  unfold update_opt. destruct (load m p) as [n|] eqn:Hp; [|done]. simpl.
  destruct (f n) as [n'|] eqn:Hn; [|done]. simpl.
  intros [= <-] Hf. eapply store_links_kept; [done|]. by apply Hf.
Qed.

Lemma with_root_links_kept (v : ptr) (m : mem) : links_kept m (with_root v m).
Proof. done. Qed.

Lemma set_key_links (i v : Z) (n n' : TtreeNode) : set_key i v n = Some n' → links n' = links n.
Proof. intros H. by apply set_key_inv in H as (_ & ? & _). Qed.

Lemma write_keys_links (vs : list Z) (at_ : Z) (n n' : TtreeNode) :
  write_keys at_ vs n = Some n' → links n' = links n.
Proof.
  revert at_ n. induction vs as [|v vs IH]; intros at_ n; simpl.
  - by intros [= <-].
  - destruct (set_key at_ v n) as [n1|] eqn:Hset; [|done]. simpl.
    intros H. apply IH in H. apply set_key_links in Hset. congruence.
Qed.

Lemma memcpy_keys_links (dst src : TtreeNode) (at_ from cnt : Z) (n' : TtreeNode) :
  memcpy_keys dst at_ src from cnt = Some n' → links n' = links dst.
Proof. unfold memcpy_keys. case_bool_decide; [|done]. apply write_keys_links. Qed.

(** The key migration of [rebalance] relinks nothing. *)
Lemma rebalance_migrate_links_kept (node : ptr) (cursor c' : option TtreeCursor) (m m' : mem) :
  rebalance_migrate node cursor m = Some (m', c') → links_kept m m'.
Proof.
  unfold rebalance_migrate, migrate_prepare, migrate_copy. intros H.
  bind_inv; simplify_eq.
  all: repeat match goal with
       | H : memcpy_keys _ _ _ _ _ = Some _ |- _ => apply memcpy_keys_links in H
       | H : update _ _ _ = Some _ |- _ =>
           apply update_links_kept in H; [|intros; reflexivity]
       | H : update_opt _ (set_key _ _) _ = Some _ |- _ =>
           apply update_opt_links_kept in H; [|intros ? ?; apply set_key_links]
       | Hl : load ?m ?p = Some ?n, Hk : links ?n' = links ?n,
         H : context [store ?p ?n' ?m] |- _ =>
           let K := fresh "K" in
           pose proof (store_links_kept p n n' m Hl Hk) as K;
           let ms := fresh "ms" in set (ms := store p n' m) in *; clearbody ms
       end.
  all: repeat first
         [ eassumption
         | apply links_kept_refl
         | eapply links_kept_trans; [eassumption|] ].
Qed.

(** [rebalance] rotates once: it runs [rotate_single] or [rotate_double]
    on the node, towards the side opposite to the heavy one, and what it
    does after the rotation relinks nothing. *)
Lemma rebalance_rotates_once (node top : ptr) (cursor c' : option TtreeCursor) (m m' : mem) :
  rebalance node cursor m = Some (m', top, c') →
  ∃ nn mr,
    load m node = Some nn
    ∧ (rotate_single node (opposite_side (left_heavy nn)) m = Some (mr, top)
       ∨ rotate_double node (opposite_side (left_heavy nn)) m = Some (mr, top))
    ∧ links_kept mr m'.
Proof.
  unfold rebalance. intros H.
  destruct (load m node) as [nn|] eqn:Hn; [|done]. cbn [mbind option_bind] in H.
  exists nn.
  destruct (sides nn _) as [ch|]; [|done]. cbn [mbind option_bind] in H.
  destruct (load m ch) as [cn|]; [|done]. cbn [mbind option_bind] in H.
  case_bool_decide.
  - destruct (rotate_single _ _ _) as [[mr t]|] eqn:Hrot; [|done].
    cbn [mbind option_bind] in H.
    destruct (load mr (root (tree mr))) as [rn|]; [|done]. cbn [mbind option_bind] in H.
    injection H as <- <- <-. exists mr. split; [done|]. split; [by left|].
    case_bool_decide; [apply with_root_links_kept|apply links_kept_refl].
  - destruct (rotate_double _ _ _) as [[mr t]|] eqn:Hrot; [|done].
    cbn [mbind option_bind] in H.
    destruct (migration_due t mr) as [[|]|]; [| |done]; cbn [mbind option_bind] in H.
    + destruct (rebalance_migrate t cursor mr) as [[mg cg]|] eqn:Hmig; [|done].
      cbn [mbind option_bind] in H.
      destruct (load mg (root (tree mg))) as [rn|]; [|done]. cbn [mbind option_bind] in H.
      injection H as <- <- <-. exists mr. split; [done|]. split; [by right|].
      apply rebalance_migrate_links_kept in Hmig.
      eapply links_kept_trans; [done|].
      case_bool_decide; [apply with_root_links_kept|apply links_kept_refl].
    + destruct (load mr (root (tree mr))) as [rn|]; [|done]. cbn [mbind option_bind] in H.
      injection H as <- <- <-. exists mr. split; [done|]. split; [by right|].
      case_bool_decide; [apply with_root_links_kept|apply links_kept_refl].
Qed.

(** ** The walk as a whole *)

Lemma parent_chain_ext (m m' : mem) (node : ptr) (ups : list ptr) :
  (∀ p, parent <$> load m' p = parent <$> load m p) →
  parent_chain m' node ups → parent_chain m node ups.
Proof.
  intros Hp. revert node. induction ups as [|a ups IH]; intros node; simpl; [done|].
  intros (Ha & Hn & Hc). split; [done|]. split; [by rewrite <- Hp|]. by apply IH.
Qed.

(** What the adjustments touch: the balance factors of the nodes of [ups]
    and nothing else. *)
Lemma adjust_balances_frame (ups : list ptr) (d : Z) (m m2 : mem) (bs : list Z) :
  adjust_balances d ups m = Some (m2, bs) →
  tree m2 = tree m ∧ brk m2 = brk m ∧ length bs = length ups
  ∧ (∀ p, p ∉ ups → load m2 p = load m p)
  ∧ (∀ p, set_bfc 0 <$> load m2 p = set_bfc 0 <$> load m p).
Proof.
  revert d m m2 bs. induction ups as [|a ups IH]; intros d m m2 bs; simpl.
  - intros [= <- <-]. repeat split; try done.
  - destruct (load m a) as [an|] eqn:Ha; [|done]. cbn [mbind option_bind].
    destruct (adjust_balances _ ups _) as [[m' bs']|] eqn:Hrec; [|done].
    cbn [mbind option_bind]. intros [= <- <-].
    apply IH in Hrec as (Ht & Hb & Hl & Hout & Hin).
    split; [done|]. split; [done|]. split; [simpl; by rewrite Hl|]. split.
    + intros p Hp. apply not_elem_of_cons in Hp as [Hpa Hp].
      rewrite (Hout p Hp). by apply load_store_ne.
    + intros p. rewrite Hin. rewrite load_store.
      destruct (decide (a = p)) as [<-|?]; [|done]. by rewrite Ha.
Qed.

(** The loop of [fixup_after_insertion], run as a whole: it adjusts a
    chain of ancestors and ends in one of the three ways. *)
Lemma fixup_insertion_walk_run (fuel : nat) (node : ptr) (d : Z) (c c' : TtreeCursor)
    (m m' : mem) (evs : list fixup_event) :
  fixup_insertion_walk fuel node d c m = Some (m', c', evs) →
  ∃ ups m2 bs,
    parent_chain m node ups
    ∧ adjust_balances d ups m = Some (m2, bs)
    ∧ fixup_ending node ups bs c m2 m' c'.
Proof.
  revert node d c m m' c' evs.
  induction fuel as [|fuel IH]; intros node d c m m' c' evs; simpl; [done|].
  destruct (load m node) as [nd|] eqn:Hnode; [|done]. cbn [mbind option_bind].
  case_bool_decide as Hp.
  { intros [= <- <- <-]. exists [], m, []. simpl. split; [done|]. split; [done|].
    by apply (ends_at_root _ _ _ _ _ node nd). }
  destruct (load m (parent nd)) as [pn|] eqn:Hpn; [|done]. cbn [mbind option_bind].
  rewrite (update_Some _ _ _ _ Hpn). cbn [mbind option_bind].
  rewrite load_store_eq. cbn [mbind option_bind].
  set (pn' := set_bfc (bfc pn + d) pn). set (ma := store (parent nd) pn' m).
  assert (parent_chain m node [parent nd]) as Hone.
  { simpl. split; [done|]. split; [by rewrite Hnode|done]. }
  case_bool_decide as Hz.
  { intros [= <- <- <-]. exists [parent nd], ma, [bfc pn']. split; [done|].
    split; [simpl; by rewrite Hpn|].
    apply (ends_balanced _ _ _ _ _ []); [by rewrite Hz|constructor]. }
  destruct (subtree_is_unbalanced pn') eqn:Hunb.
  - destruct (rebalance _ _ _) as [[[mr t] oc]|] eqn:Hreb; [|done].
    cbn [mbind option_bind]. intros [= <- <- <-].
    exists [parent nd], ma, [bfc pn']. split; [done|].
    split; [simpl; by rewrite Hpn|].
    apply (ends_rotated _ _ _ _ _ [] (bfc pn') (parent nd) t); try done.
    unfold subtree_is_unbalanced in Hunb. apply orb_true_iff in Hunb.
    destruct Hunb as [H|H]; apply bool_decide_eq_true in H; lia.
  - destruct (fixup_insertion_walk fuel _ _ _ _) as [[[mw cw] evw]|] eqn:Hrec; [|done].
    cbn [mbind option_bind]. intros [= <- <- <-].
    apply IH in Hrec as (ups & m2 & bs & Hchain & Hadj & Hend).
    assert (bfc pn' = -1 ∨ bfc pn' = 1) as Hone'.
    { unfold subtree_is_unbalanced in Hunb. apply orb_false_iff in Hunb.
      destruct Hunb as [H1 H2]. apply bool_decide_eq_false in H1, H2. lia. }
    exists (parent nd :: ups), m2, (bfc pn' :: bs).
    split.
    { simpl. split; [done|]. split; [by rewrite Hnode|].
      apply (parent_chain_ext _ ma); [|done].
      intros p. unfold ma. rewrite load_store.
      destruct (decide (parent nd = p)) as [<-|?]; [|done]. by rewrite Hpn. }
    split.
    { simpl. rewrite Hpn. cbn [mbind option_bind]. fold pn'. fold ma. by rewrite Hadj. }
    destruct Hend as [top tn Hlast Htop Hroot Hall|bs0 -> Hall|bs0 b a top mr oc -> Hall Hb Hlast Hreb].
    + apply (ends_at_root _ _ _ _ _ top tn); try done. by constructor.
    + apply (ends_balanced _ _ _ _ _ (bfc pn' :: bs0)); [done|by constructor].
    + apply (ends_rotated _ _ _ _ _ (bfc pn' :: bs0) b a top); try done.
      * by constructor.
      * destruct ups; [done|]. done.
Qed.

Lemma adjust_balances_allocated (ups : list ptr) (d : Z) (m m2 : mem) (bs : list Z) :
  adjust_balances d ups m = Some (m2, bs) → ∀ a, a ∈ ups → is_Some (load m a).
Proof.
  revert d m m2 bs. induction ups as [|a0 ups IH]; intros d m m2 bs; simpl.
  - intros _ a Ha. by apply elem_of_nil in Ha.
  - destruct (load m a0) as [an0|] eqn:Ha0; [|done]. cbn [mbind option_bind].
    destruct (adjust_balances _ ups _) as [[m' bs']|] eqn:Hrec; [|done].
    intros _ a Ha. apply elem_of_cons in Ha as [->|Ha]; [by rewrite Ha0|].
    pose proof (IH _ _ _ _ Hrec a Ha) as Hs. rewrite load_store in Hs.
    destruct (decide (a0 = a)) as [<-|?]; [by rewrite Ha0|done].
Qed.

(** A chain that meets no node twice is no longer than the memory has
    nodes. *)
Lemma chain_length_bound (ups : list ptr) (m : mem) :
  NoDup ups → (∀ a, a ∈ ups → is_Some (load m a)) →
  (length ups ≤ size (nodes m))%nat.
Proof.
  intros Hnd Hall.
  rewrite <- (size_list_to_set (C := gset Z) ups Hnd), <- (size_dom (nodes m)).
  apply subseteq_size. intros a Ha. apply elem_of_list_to_set in Ha.
  apply elem_of_dom. by apply Hall.
Qed.

(** Conversely the loop returns, with fuel for one round more than the
    chain is long. *)
Lemma fixup_insertion_walk_returns (ups : list ptr) (fuel : nat) (node : ptr) (d : Z)
    (c c' : TtreeCursor) (m m2 m' : mem) (bs : list Z) :
  parent_chain m node ups →
  adjust_balances d ups m = Some (m2, bs) →
  fixup_ending node ups bs c m2 m' c' →
  (length ups < fuel)%nat →
  ∃ evs, fixup_insertion_walk fuel node d c m = Some (m', c', evs).
Proof.
  revert fuel node d c c' m m2 m' bs.
  induction ups as [|a ups IH]; intros fuel node d c c' m m2 m' bs Hchain Hadj Hend Hfuel.
  - simpl in Hadj. injection Hadj as <- <-.
    destruct fuel as [|fuel]; [simpl in Hfuel; lia|]. simpl.
    destruct Hend as [top tn Hlast Htop Hroot Hall|bs0 Hbs Hall|bs0 b a top mr oc Hbs Hall Hb Hlast Hreb].
    + simpl in Hlast. injection Hlast as <-. rewrite Htop. cbn [mbind option_bind].
      rewrite (bool_decide_eq_true_2 _ Hroot). by eexists.
    + by destruct bs0.
    + by destruct bs0.
  - destruct Hchain as (Ha & Hpar & Hchain). simpl in Hadj.
    destruct (load m node) as [nd|] eqn:Hnode; [|done]. simpl in Hpar. injection Hpar as Hpar.
    destruct (load m a) as [an|] eqn:Han; [|done]. cbn [mbind option_bind] in Hadj.
    set (an' := set_bfc (bfc an + d) an) in *. set (ma := store a an' m) in *.
    destruct (adjust_balances _ ups ma) as [[m2' bs']|] eqn:Hrec; [|done].
    cbn [mbind option_bind] in Hadj. injection Hadj as -> <-.
    destruct (adjust_balances_frame _ _ _ _ _ Hrec) as (_ & _ & Hlen & _ & _).
    assert (parent_chain ma a ups) as Hchain'.
    { apply (parent_chain_ext _ m); [|done].
      intros p. unfold ma. rewrite load_store.
      destruct (decide (a = p)) as [<-|?]; [|done]. by rewrite Han. }
    destruct fuel as [|fuel]; [simpl in Hfuel; lia|]. simpl in Hfuel. simpl.
    rewrite Hnode. cbn [mbind option_bind]. rewrite Hpar.
    rewrite (bool_decide_eq_false_2 _ Ha). rewrite Han. cbn [mbind option_bind].
    rewrite (update_Some _ _ _ _ Han). cbn [mbind option_bind].
    rewrite load_store_eq. cbn [mbind option_bind]. fold an'. fold ma.
    assert (∀ bs0, Forall (λ b, b = -1 ∨ b = 1) (bfc an' :: bs0) →
              bool_decide (bfc an' = 0) = false ∧ subtree_is_unbalanced an' = false) as Hgo.
    { intros bs0 Hall. apply Forall_cons in Hall as [Hb _]. split.
      - apply bool_decide_eq_false_2. lia.
      - unfold subtree_is_unbalanced. apply orb_false_iff.
        split; apply bool_decide_eq_false_2; lia. }
    assert (∀ e m0 c0, fixup_ending a ups bs' c m2 m0 c0 →
              ∃ evs, ('(m, c, evs) ← fixup_insertion_walk fuel a (get_bfc_delta an') c ma;
                      Some (m, c, e :: evs))
                     = Some (m0, c0, evs)) as Hrecur.
    { intros e m0 c0 Hend'.
      destruct (IH fuel a (get_bfc_delta an') c c0 ma m2 m0 bs' Hchain' Hrec Hend')
        as (evs & Hw); [lia|].
      rewrite Hw. by eexists. }
    clear IH.
    destruct Hend as [top tn Hlast Htop Hroot Hall|bs0 Hbs Hall|bs0 b a0 top mr oc Hbs Hall Hb Hlast Hreb].
    + destruct (Hgo _ Hall) as [-> ->]. apply Forall_cons in Hall as [_ Hall].
      apply Hrecur. by apply (ends_at_root _ _ _ _ _ top tn).
    + destruct bs0 as [|b0 bs0]; simpl in Hbs; injection Hbs as Hb0 Hbs.
      * subst bs'. destruct ups; [|done]. simpl in Hrec. injection Hrec as <-.
        rewrite (bool_decide_eq_true_2 _ Hb0). by eexists.
      * rewrite <- Hb0 in Hall. destruct (Hgo _ Hall) as [-> ->].
        apply Forall_cons in Hall as [_ Hall].
        apply Hrecur. by apply (ends_balanced _ _ _ _ _ bs0).
    + destruct bs0 as [|b0 bs0]; simpl in Hbs; injection Hbs as Hb0 Hbs.
      * subst bs'. destruct ups; [|done]. simpl in Hrec. injection Hrec as <-.
        simpl in Hlast. injection Hlast as <-. change (bfc an' = b) in Hb0.
        rewrite (bool_decide_eq_false_2 (bfc an' = 0)) by lia.
        replace (subtree_is_unbalanced an') with true.
        2:{ symmetry. unfold subtree_is_unbalanced. apply orb_true_iff.
            destruct Hb; [left|right]; apply bool_decide_eq_true_2; lia. }
        rewrite Hreb. cbn [mbind option_bind]. by eexists.
      * rewrite <- Hb0 in Hall. destruct (Hgo _ Hall) as [-> ->].
        apply Forall_cons in Hall as [_ Hall].
        apply Hrecur.
        apply (ends_rotated _ _ _ _ _ bs0 b a0 top); try done.
        destruct ups as [|a1 ups]; [|done].
        simpl in Hlen. subst bs'. rewrite length_app in Hlen. simpl in Hlen. lia.
Qed.

Lemma adjust_balances_last (ups : list ptr) (d : Z) (m m2 : mem) (bs : list Z) (a : ptr) :
  adjust_balances d ups m = Some (m2, bs) → last ups = Some a →
  ∃ an, load m2 a = Some an ∧ last bs = Some (bfc an).
Proof.
  revert d m m2 bs. induction ups as [|a0 ups IH]; intros d m m2 bs; simpl; [done|].
  destruct (load m a0) as [an0|] eqn:Ha; [|done]. cbn [mbind option_bind].
  destruct (adjust_balances _ ups _) as [[m' bs']|] eqn:Hrec; [|done].
  cbn [mbind option_bind]. intros [= <- <-] Hlast.
  destruct ups as [|a1 ups].
  - simpl in Hlast, Hrec. injection Hlast as <-. injection Hrec as <- <-.
    eexists. split; [apply load_store_eq|done].
  - destruct (IH _ _ _ _ Hrec Hlast) as (an & Hload & Hbs).
    exists an. split; [done|].
    destruct bs' as [|b bs']; [done|]. done.
Qed.

Lemma right_spine_mem_insert :
  ∃ m, run_ops eight_key_ops (empty_mem 4 true) = Some m
       ∧ ttree_lookup m 90 = Some (NULL, mkTtreeCursor 2 1 TNODE_RIGHT CURSOR_PENDING)
       ∧ ttree_insert_at_cursor_ev (mkTtreeCursor 2 1 TNODE_RIGHT CURSOR_PENDING) 90 m
         = fixup_after_insertion 3 (mkTtreeCursor 3 1 TNODE_RIGHT CURSOR_OPENED)
             right_spine_mem.
Proof. eexists. split; [vm_compute; reflexivity|]. split; vm_compute; reflexivity. Qed.

Lemma second_child_mem_insert :
  ∃ m, run_ops thirteen_key_ops (empty_mem 4 true) = Some m
       ∧ ttree_lookup m 85 = Some (NULL, mkTtreeCursor 3 1 TNODE_LEFT CURSOR_PENDING)
       ∧ ttree_insert_at_cursor_ev (mkTtreeCursor 3 1 TNODE_LEFT CURSOR_PENDING) 85 m
         = fixup_after_insertion 5 (mkTtreeCursor 5 1 TNODE_LEFT CURSOR_OPENED)
             second_child_mem.
Proof. eexists. split; [vm_compute; reflexivity|]. split; vm_compute; reflexivity. Qed.

(** C6.  A run of [fixup_after_insertion] from the new leaf [n] links [n]
    into the successor chain and then adjusts the balance factors of a
    chain [ups] of ancestors of [n], nearest first: the parent of [n] by
    the delta of [n] (-1 for a left child, +1 for a right child), every
    further ancestor by the delta of the ancestor below it.  It ends in
    one of three ways ([fixup_ending]): all got -1 or +1 and the chain
    reached a node without parent; or the last ancestor adjusted got 0
    and all before it -1 or +1, and the walk stops there with nothing
    else done; or the last ancestor adjusted got a balance factor outside
    [-1, 1] and all before it -1 or +1, and [rebalance] is called on it,
    once, and the walk stops.  Conversely every such run returns, when
    the chain meets no node twice.  The adjustments change the balance
    factors of the chain and nothing else, so a run without [rebalance]
    relinks no node and touches no node above the one it stops at; and
    [rebalance] makes exactly one rotation, [rotate_single] or
    [rotate_double], towards the side opposite to the heavy one, and
    relinks nothing after it. *)
Theorem fixup_after_insertion_stops (n : ptr) (c : TtreeCursor) (m : mem) :
  (* a run that returns adjusted a chain of ancestors and ended in one of
     the three ways *)
  (∀ m' c' evs,
     fixup_after_insertion n c m = Some (m', c', evs) →
     ∃ nn m1 m2 ups bs,
       load m n = Some nn
       ∧ __add_successor n m = Some m1
       ∧ parent_chain m1 n ups
       ∧ adjust_balances (get_bfc_delta nn) ups m1 = Some (m2, bs)
       ∧ fixup_ending n ups bs c m2 m' c')
  (* and such a run does return *)
  ∧ (∀ nn m1 m2 ups bs m' c',
       load m n = Some nn →
       __add_successor n m = Some m1 →
       parent_chain m1 n ups → NoDup ups →
       adjust_balances (get_bfc_delta nn) ups m1 = Some (m2, bs) →
       fixup_ending n ups bs c m2 m' c' →
       ∃ evs, fixup_after_insertion n c m = Some (m', c', evs))
  (* the adjustments change the balance factors of the chain, nothing else *)
  ∧ (∀ d ups m1 m2 bs,
       adjust_balances d ups m1 = Some (m2, bs) →
       tree m2 = tree m1
       ∧ length bs = length ups
       ∧ (∀ a, last ups = Some a → ∃ an, load m2 a = Some an ∧ last bs = Some (bfc an))
       ∧ (∀ p, p ∉ ups → load m2 p = load m1 p)
       ∧ (∀ p, set_bfc 0 <$> load m2 p = set_bfc 0 <$> load m1 p))
  (* [rebalance] makes one rotation *)
  ∧ (∀ a oc m2 m' top oc',
       rebalance a oc m2 = Some (m', top, oc') →
       ∃ an mr,
         load m2 a = Some an
         ∧ (rotate_single a (opposite_side (left_heavy an)) m2 = Some (mr, top)
            ∨ rotate_double a (opposite_side (left_heavy an)) m2 = Some (mr, top))
         ∧ links_kept mr m').
Proof.
  split; [|split; [|split]].
  - intros m' c' evs. unfold fixup_after_insertion. intros H.
    destruct (load m n) as [nn|] eqn:Hn; [|done]. cbn [mbind option_bind] in H.
    destruct (__add_successor n m) as [m1|] eqn:Hadd; [|done].
    cbn [mbind option_bind] in H.
    apply fixup_insertion_walk_run in H as (ups & m2 & bs & Hchain & Hadj & Hend).
    by exists nn, m1, m2, ups, bs.
  - intros nn m1 m2 ups bs m' c' Hn Hadd Hchain Hnd Hadj Hend.
    unfold fixup_after_insertion. rewrite Hn. cbn [mbind option_bind].
    rewrite Hadd. cbn [mbind option_bind].
    eapply fixup_insertion_walk_returns; [done..|].
    unfold walk_fuel.
    pose proof (chain_length_bound ups m1 Hnd (adjust_balances_allocated _ _ _ _ _ Hadj)).
    lia.
  - intros d ups m1 m2 bs Hadj.
    destruct (adjust_balances_frame _ _ _ _ _ Hadj) as (Ht & _ & Hlen & Hout & Hin).
    split; [done|]. split; [done|]. split; [|done].
    intros a Hlast. by eapply adjust_balances_last.
  - intros a oc m2 m' top oc' Hreb. by eapply rebalance_rotates_once.
Qed.

Lemma fixup_after_insertion_stops_witness :
  (∃ nn m1 m2 ups bs,
     load right_spine_mem 3 = Some nn
     ∧ __add_successor 3 right_spine_mem = Some m1
     ∧ parent_chain m1 3 ups
     ∧ adjust_balances (get_bfc_delta nn) ups m1 = Some (m2, bs)
     ∧ fixup_ending 3 ups bs (mkTtreeCursor 3 1 TNODE_RIGHT CURSOR_OPENED) m2
         rotated_mem (mkTtreeCursor 3 1 TNODE_RIGHT CURSOR_OPENED))
  ∧ (∃ evs,
       fixup_after_insertion 5 (mkTtreeCursor 5 1 TNODE_LEFT CURSOR_OPENED) second_child_mem
       = Some (balanced_mem, mkTtreeCursor 5 1 TNODE_LEFT CURSOR_OPENED, evs)).
Proof.
  split.
  - apply (proj1 (fixup_after_insertion_stops 3 (mkTtreeCursor 3 1 TNODE_RIGHT CURSOR_OPENED)
                    right_spine_mem)
             rotated_mem (mkTtreeCursor 3 1 TNODE_RIGHT CURSOR_OPENED)
             [Adjusted 2 1; Adjusted 1 2; Rebalanced 1]).
    vm_compute. reflexivity.
  - eapply (proj1 (proj2 (fixup_after_insertion_stops 5
                            (mkTtreeCursor 5 1 TNODE_LEFT CURSOR_OPENED) second_child_mem))
              _ _ balanced_mem [3] [0]).
    + reflexivity.
    + vm_compute. reflexivity.
    + simpl. split; [done|]. split; [vm_compute; reflexivity|done].
    + apply NoDup_singleton.
    + vm_compute. reflexivity.
    + apply (ends_balanced _ _ _ _ _ []); [reflexivity|constructor].
Defined.

(** The rotating run by hand: the walk from the new leaf adjusts address 2
    to 1 and the root, address 1, to 2; the root is rotated to the left,
    once, and address 2 is the root afterwards. *)
Lemma right_spine_run :
  ∃ m1 m2 mr,
    __add_successor 3 right_spine_mem = Some m1
    ∧ parent_chain m1 3 [2; 1]
    ∧ adjust_balances 1 [2; 1] m1 = Some (m2, [1; 2])
    ∧ rotate_single 1 TNODE_RIGHT m2 = Some (mr, 2)
    ∧ rebalance 1 (Some (mkTtreeCursor 3 1 TNODE_RIGHT CURSOR_OPENED)) m2
      = Some (rotated_mem, 2, Some (mkTtreeCursor 3 1 TNODE_RIGHT CURSOR_OPENED))
    ∧ (parent <$> load rotated_mem 1) = Some 2
    ∧ (left <$> load rotated_mem 2) = Some 1
    ∧ root (tree rotated_mem) = 2.
Proof.
  eexists _, _, _.
  split; [vm_compute; reflexivity|].
  split; [simpl; repeat split; try done; vm_compute; reflexivity|].
  split; [vm_compute; reflexivity|].
  split; [vm_compute; reflexivity|].
  split; [vm_compute; reflexivity|].
  repeat split; vm_compute; reflexivity.
Qed.
